(** * EFS Explorer: the password-derived encryption engine and its unlock protocol

    A shallow embedding of [crypto-helper.js] (module [CryptoHelper]),
    [db.js] (module [DB]) and [script.js] (module [Script]).

    - JavaScript strings are lists of UTF-16 code units, buffers are lists
      of bytes, and a value that may be [undefined] or [null] has type [js A].
    - [async] functions run in the monad [M]: a world is threaded through the
      calls and a thrown error is [Err]; the effects made before a throw stay.
    - The browser's built-ins the code calls ([btoa], [atob], [TextEncoder])
      are written out after their standards; the Web Crypto primitives
      (PBKDF2, SHA-256, AES-GCM) are the fields of the class [WebCrypto]. *)

From Stdlib Require Import List NArith ZArith Lia Bool.
From Stdlib Require Import ZifyNat.
From Stdlib Require Strings.String Strings.Ascii.
From Stdlib Require Import Strings.Byte.
Import ListNotations.

Set Implicit Arguments.

(* ================================================================== *)
(** * Part I. Definitions                                              *)
(* ================================================================== *)

(** ** JavaScript data *)

Definition code_unit := N.
Definition jsstring := list code_unit.
Definition bytes := list byte.

(** A value of type [A], or one of JavaScript's two absent values. *)
Inductive js (A : Type) : Type :=
| undefined
| null
| val (a : A).

Arguments undefined {A}.
Arguments null {A}.

(** The errors the modelled code throws, one constructor per message. *)
Inductive error : Type :=
| PasswordMustBeString      (* 'Password must be a string' *)
| NotAnArrayBuffer          (* 'arrayBuffer must be an ArrayBuffer' *)
| PasswordEmpty             (* 'password must be a non-empty string' *)
| InvalidPackage            (* 'Invalid encrypted package' *)
| DecryptionFailed          (* 'Decryption failed. Wrong password or corrupted data.' *)
| InvalidCharacterError     (* DOMException of btoa and atob *)
| PlatformError             (* TypeError or OperationError of subtle.deriveKey *)
| FileNotFound              (* 'File not found in DB' *)
| InvalidFileRecord.        (* 'Invalid file record' *)

Inductive result (A : Type) : Type :=
| Ok (a : A)
| Err (e : error).

Arguments Err {A}.

Definition rbind {A B} (r : result A) (f : A -> result B) : result B :=
  match r with
  | Ok a => f a
  | Err e => Err e
  end.

(** Storing a number in a [Uint8Array] keeps it modulo 256. *)
Definition byte_of_N (n : N) : byte :=
  match Byte.of_N (n mod 256) with
  | Some b => b
  | None => x00
  end.

(** Truthiness of the values the code tests with [!], [||] and [?:]. *)
Definition truthy_string (v : js jsstring) : bool :=
  match v with
  | val (_ :: _) => true
  | _ => false
  end.

Definition truthy_number (v : js Z) : bool :=
  match v with
  | val n => negb (n =? 0)%Z
  | _ => false
  end.

(** [a || b] for a number-or-absent [a]. *)
Definition number_or (a : js Z) (b : Z) : Z :=
  match a with
  | val n => if truthy_number a then n else b
  | _ => b
  end.

(** [ToString] of a string-or-absent value, as [atob] applies it. *)
Definition to_string (v : js jsstring) : jsstring :=
  match v with
  | undefined => [117; 110; 100; 101; 102; 105; 110; 101; 100]%N
  | null => [110; 117; 108; 108]%N
  | val s => s
  end.

(** ** base64 as the browser's [btoa] and [atob] compute it

    [btoa] is the forgiving-base64 encode of RFC 4648 section 4; [atob] is
    the forgiving-base64 decode: ASCII whitespace is dropped, padding is
    optional, and the bits left over in a final group are discarded. *)
Module Base64.
Local Open Scope N_scope.

Definition b64_char (n : N) : code_unit :=
  if n <? 26 then 65 + n
  else if n <? 52 then 71 + n
  else if n <? 62 then n - 4
  else if n =? 62 then 43
  else 47.

Definition b64_index (c : code_unit) : option N :=
  if (65 <=? c) && (c <=? 90) then Some (c - 65)
  else if (97 <=? c) && (c <=? 122) then Some (c - 71)
  else if (48 <=? c) && (c <=? 57) then Some (c + 4)
  else if c =? 43 then Some 62
  else if c =? 47 then Some 63
  else None.

Definition equals_sign : code_unit := 61.

(** Three octets make four sextets; a rest of two makes three, of one two. *)
Fixpoint encode_sextets (l : list N) : list N :=
  match l with
  | a :: b :: c :: rest =>
      a / 4 :: (a mod 4) * 16 + b / 16 :: (b mod 16) * 4 + c / 64 :: c mod 64
        :: encode_sextets rest
  | [a; b] => [a / 4; (a mod 4) * 16 + b / 16; (b mod 16) * 4]
  | [a] => [a / 4; (a mod 4) * 16]
  | [] => []
  end.

Definition padding (n : nat) : jsstring :=
  match Nat.modulo n 3 with
  | 1%nat => [equals_sign; equals_sign]
  | 2%nat => [equals_sign]
  | _ => []
  end.

Definition btoa (data : jsstring) : result jsstring :=
  if forallb (fun c => c <=? 255) data
  then Ok (map b64_char (encode_sextets data) ++ padding (length data))
  else Err InvalidCharacterError.

Definition is_ascii_whitespace (c : code_unit) : bool :=
  (c =? 9) || (c =? 10) || (c =? 12) || (c =? 13) || (c =? 32).

Definition ends_with_equals (rdata : jsstring) : bool :=
  match rdata with
  | c :: _ => c =? equals_sign
  | [] => false
  end.

(** When the length is a multiple of four, one or two trailing [=] go. *)
Definition strip_padding (data : jsstring) : jsstring :=
  if Nat.eqb (Nat.modulo (length data) 4) 0 then
    let r := rev data in
    if ends_with_equals r then
      if ends_with_equals (tl r) then rev (tl (tl r)) else rev (tl r)
    else data
  else data.

Fixpoint indices (data : jsstring) : option (list N) :=
  match data with
  | [] => Some []
  | c :: rest =>
      match b64_index c, indices rest with
      | Some i, Some l => Some (i :: l)
      | _, _ => None
      end
  end.

(** Four sextets make three octets; a rest of three makes two and drops two
    bits, a rest of two makes one and drops four. *)
Fixpoint decode_sextets (l : list N) : list N :=
  match l with
  | s1 :: s2 :: s3 :: s4 :: rest =>
      (s1 * 4 + s2 / 16) mod 256 :: ((s2 mod 16) * 16 + s3 / 4) mod 256
        :: ((s3 mod 4) * 64 + s4) mod 256 :: decode_sextets rest
  | [s1; s2; s3] => [(s1 * 4 + s2 / 16) mod 256; ((s2 mod 16) * 16 + s3 / 4) mod 256]
  | [s1; s2] => [(s1 * 4 + s2 / 16) mod 256]
  | _ => []
  end.

Definition atob (s : jsstring) : result jsstring :=
  let data := filter (fun c => negb (is_ascii_whitespace c)) s in
  let data := strip_padding data in
  if Nat.eqb (Nat.modulo (length data) 4) 1 then Err InvalidCharacterError
  else
    match indices data with
    | None => Err InvalidCharacterError
    | Some six => Ok (decode_sextets six)
    end.

End Base64.

(** ** [TextEncoder.encode]: UTF-16 code units to UTF-8

    A surrogate pair is one code point; a surrogate on its own is replaced
    by U+FFFD before encoding. *)
Module Utf8.
Local Open Scope N_scope.

Definition is_high_surrogate (c : code_unit) : bool := (0xD800 <=? c) && (c <=? 0xDBFF).
Definition is_low_surrogate (c : code_unit) : bool := (0xDC00 <=? c) && (c <=? 0xDFFF).

Definition encode_code_point (cp : N) : bytes :=
  if cp <? 0x80 then [byte_of_N cp]
  else if cp <? 0x800 then
    [byte_of_N (0xC0 + cp / 64); byte_of_N (0x80 + cp mod 64)]
  else if cp <? 0x10000 then
    [byte_of_N (0xE0 + cp / 4096); byte_of_N (0x80 + (cp / 64) mod 64);
     byte_of_N (0x80 + cp mod 64)]
  else
    [byte_of_N (0xF0 + cp / 262144); byte_of_N (0x80 + (cp / 4096) mod 64);
     byte_of_N (0x80 + (cp / 64) mod 64); byte_of_N (0x80 + cp mod 64)].

Definition replacement : N := 0xFFFD.

Fixpoint encode (s : jsstring) : bytes :=
  match s with
  | [] => []
  | c :: rest =>
      if is_high_surrogate c then
        match rest with
        | d :: rest' =>
            if is_low_surrogate d
            then encode_code_point (0x10000 + (c - 0xD800) * 1024 + (d - 0xDC00))
                   ++ encode rest'
            else encode_code_point replacement ++ encode rest
        | [] => encode_code_point replacement
        end
      else if is_low_surrogate c then encode_code_point replacement ++ encode rest
      else encode_code_point c ++ encode rest
  end.

End Utf8.

(** ** The Web Crypto primitives

    What [crypto.subtle] computes with the parameters the code always
    passes: PBKDF2 with HMAC-SHA-256 to a 256-bit AES key, the SHA-256
    digest, and AES-GCM with a 128-bit tag, which either opens a ciphertext or
    rejects it. *)
Class WebCrypto : Type := {
  CryptoKey : Type;
  pbkdf2 : bytes -> bytes -> Z -> CryptoKey;
  sha256 : bytes -> bytes;
  aes_gcm_seal : CryptoKey -> bytes -> bytes -> bytes;
  aes_gcm_open : CryptoKey -> bytes -> bytes -> option bytes
}.

(** What the engine asked of [crypto.subtle], in the order of the calls. *)
Inductive crypto_call : Type :=
| CallImportKey (password : bytes)
| CallDeriveKey (password salt : bytes) (iterations : Z)
| CallDigest (data : bytes)
| CallEncrypt (iv plaintext : bytes)
| CallDecrypt (iv ciphertext : bytes).

(** ** Records, files and messages *)

(** The object [encryptBuffer] returns and [decryptBuffer] accepts. *)
Record Package : Type := {
  ciphertext : js jsstring;
  iv : js jsstring;
  salt : js jsstring;
  iterations : js Z;
  hash : js jsstring
}.

(** A record of the object store "files", keyed by [name]. *)
Record FileRecord : Type := {
  name : jsstring;
  createdAt : jsstring;
  size : N;
  rec_ciphertext : js jsstring;
  rec_iv : js jsstring;
  rec_salt : js jsstring;
  rec_iterations : js Z;
  rec_hash : js jsstring;
  mimeType : jsstring
}.

(** A [File] dropped on the page or picked in the file input. *)
Record File : Type := {
  file_name : jsstring;
  file_type : jsstring;
  file_content : bytes
}.

(** The texts [showMessage] is called with. *)
Inductive message : Type :=
| MsgUnlockedNoFiles            (* 'Explorer unlocked (no files to validate).' *)
| MsgUnlocked                   (* 'Explorer unlocked.' *)
| MsgWrongPassword              (* 'Wrong password. Unlock failed.' *)
| MsgUnlockFirstAdd             (* 'Unlock explorer first before adding files.' *)
| MsgUnlockFirstDownload        (* 'Unlock explorer first to download files.' *)
| MsgUnlockFirst                (* 'Unlock explorer first.' *)
| MsgEnterPassword              (* 'Enter a password to unlock.' *)
| MsgSaved (n : jsstring)
| MsgFailedToAdd (n : jsstring) (e : error)
| MsgDownloaded (n : jsstring)
| MsgDownloadFailed (e : error)
| MsgFailedToDownload (n : jsstring) (e : error)
| MsgNoFilesSelectedDownload
| MsgNoFilesSelectedDelete
| MsgDeleted (n : jsstring)
| MsgReset.                     (* 'Environment has been reset. All files erased.' *)

Inductive level : Type := info | error_level.

(** ** The world the code runs in

    The random source and the answers to [confirm] are streams with a
    cursor; [crypto_log] and [messages] grow at the end; [downloads] are the
    files handed to the browser, each a name, its content and its MIME type. *)
Record World : Type := {
  entropy : nat -> byte;
  entropy_pos : nat;
  crypto_log : list crypto_call;
  now : jsstring;
  db : list FileRecord;
  sessionPassword : js jsstring;
  unlocked : bool;
  messages : list (message * level);
  confirm_answers : nat -> bool;
  confirm_pos : nat;
  downloads : list (jsstring * bytes * jsstring)
}.

Definition set_entropy_pos (n : nat) (w : World) : World :=
  {| entropy := entropy w; entropy_pos := n; crypto_log := crypto_log w;
     now := now w; db := db w; sessionPassword := sessionPassword w;
     unlocked := unlocked w; messages := messages w;
     confirm_answers := confirm_answers w; confirm_pos := confirm_pos w;
     downloads := downloads w |}.

Definition set_crypto_log (l : list crypto_call) (w : World) : World :=
  {| entropy := entropy w; entropy_pos := entropy_pos w; crypto_log := l;
     now := now w; db := db w; sessionPassword := sessionPassword w;
     unlocked := unlocked w; messages := messages w;
     confirm_answers := confirm_answers w; confirm_pos := confirm_pos w;
     downloads := downloads w |}.

Definition set_db (d : list FileRecord) (w : World) : World :=
  {| entropy := entropy w; entropy_pos := entropy_pos w;
     crypto_log := crypto_log w; now := now w; db := d;
     sessionPassword := sessionPassword w; unlocked := unlocked w;
     messages := messages w; confirm_answers := confirm_answers w;
     confirm_pos := confirm_pos w; downloads := downloads w |}.

Definition set_sessionPassword (p : js jsstring) (w : World) : World :=
  {| entropy := entropy w; entropy_pos := entropy_pos w;
     crypto_log := crypto_log w; now := now w; db := db w;
     sessionPassword := p; unlocked := unlocked w; messages := messages w;
     confirm_answers := confirm_answers w; confirm_pos := confirm_pos w;
     downloads := downloads w |}.

Definition set_unlocked (b : bool) (w : World) : World :=
  {| entropy := entropy w; entropy_pos := entropy_pos w;
     crypto_log := crypto_log w; now := now w; db := db w;
     sessionPassword := sessionPassword w; unlocked := b;
     messages := messages w; confirm_answers := confirm_answers w;
     confirm_pos := confirm_pos w; downloads := downloads w |}.

Definition set_messages (m : list (message * level)) (w : World) : World :=
  {| entropy := entropy w; entropy_pos := entropy_pos w;
     crypto_log := crypto_log w; now := now w; db := db w;
     sessionPassword := sessionPassword w; unlocked := unlocked w;
     messages := m; confirm_answers := confirm_answers w;
     confirm_pos := confirm_pos w; downloads := downloads w |}.

Definition set_confirm_pos (n : nat) (w : World) : World :=
  {| entropy := entropy w; entropy_pos := entropy_pos w;
     crypto_log := crypto_log w; now := now w; db := db w;
     sessionPassword := sessionPassword w; unlocked := unlocked w;
     messages := messages w; confirm_answers := confirm_answers w;
     confirm_pos := n; downloads := downloads w |}.

Definition set_downloads (d : list (jsstring * bytes * jsstring)) (w : World) : World :=
  {| entropy := entropy w; entropy_pos := entropy_pos w;
     crypto_log := crypto_log w; now := now w; db := db w;
     sessionPassword := sessionPassword w; unlocked := unlocked w;
     messages := messages w; confirm_answers := confirm_answers w;
     confirm_pos := confirm_pos w; downloads := d |}.

(** ** The monad of the [async] functions *)

Definition M (A : Type) : Type := World -> result A * World.

Definition ret {A} (a : A) : M A := fun w => (Ok a, w).

Definition throw {A} (e : error) : M A := fun w => (Err e, w).

Definition bind {A B} (m : M A) (f : A -> M B) : M B :=
  fun w =>
    match m w with
    | (Ok a, w') => f a w'
    | (Err e, w') => (Err e, w')
    end.

(** [try { m } catch (err) { h err }] *)
Definition try_catch {A} (m : M A) (h : error -> M A) : M A :=
  fun w =>
    match m w with
    | (Ok a, w') => (Ok a, w')
    | (Err e, w') => h e w'
    end.

Definition lift {A} (r : result A) : M A := fun w => (r, w).

Definition gets {A} (f : World -> A) : M A := fun w => (Ok (f w), w).

Definition modify (f : World -> World) : M unit := fun w => (Ok tt, f w).

Declare Scope monad_scope.
Delimit Scope monad_scope with monad.
Notation "x <- m ;; k" := (bind m (fun x => k))
  (at level 61, m at next level, right associativity) : monad_scope.
Notation "m ;;; k" := (bind m (fun _ => k))
  (at level 61, right associativity) : monad_scope.
Open Scope monad_scope.

Definition log_call (c : crypto_call) : M unit :=
  modify (fun w => set_crypto_log (crypto_log w ++ [c]) w).

(** The world once [calls] are appended to its log. *)
Definition logged (calls : list crypto_call) (w : World) : World :=
  set_crypto_log (crypto_log w ++ calls) w.

(** A computation that leaves the session as it found it. *)
Definition keeps_session {A} (m : M A) : Prop :=
  forall w,
    sessionPassword (snd (m w)) = sessionPassword w
    /\ unlocked (snd (m w)) = unlocked w.

(** ** [crypto.subtle] and [crypto.getRandomValues]

    Each call is logged. [deriveKey] refuses an iteration count that is zero
    or outside an unsigned long; [decrypt] rejects when the tag does not
    verify. *)
Section Subtle.
Context {W : WebCrypto}.

Definition subtle_importKey (keyData : bytes) : M bytes :=
  log_call (CallImportKey keyData) ;;; ret keyData.

Definition subtle_deriveKey (passKey salt : bytes) (iterations : Z) : M CryptoKey :=
  log_call (CallDeriveKey passKey salt iterations) ;;;
  if ((0 <? iterations) && (iterations <? 2 ^ 32))%Z
  then ret (pbkdf2 passKey salt iterations)
  else throw PlatformError.

Definition subtle_digest (data : bytes) : M bytes :=
  log_call (CallDigest data) ;;; ret (sha256 data).

Definition subtle_encrypt (key : CryptoKey) (iv plaintext : bytes) : M bytes :=
  log_call (CallEncrypt iv plaintext) ;;; ret (aes_gcm_seal key iv plaintext).

Definition subtle_decrypt (key : CryptoKey) (iv ciphertext : bytes) : M bytes :=
  log_call (CallDecrypt iv ciphertext) ;;;
  match aes_gcm_open key iv ciphertext with
  | Some plaintext => ret plaintext
  | None => throw PlatformError
  end.

End Subtle.

Definition getRandomValues (length : nat) : M bytes :=
  fun w =>
    (Ok (map (entropy w) (seq (entropy_pos w) length)),
     set_entropy_pos (entropy_pos w + length) w).

Fixpoint jsstring_eqb (a b : jsstring) : bool :=
  match a, b with
  | [], [] => true
  | x :: a', y :: b' => (x =? y)%N && jsstring_eqb a' b'
  | _, _ => false
  end.

(** [s === v] for a string [s]. *)
Definition strict_eq (s : jsstring) (v : js jsstring) : bool :=
  match v with
  | val e => jsstring_eqb s e
  | _ => false
  end.

(** ** crypto-helper.js *)
Module CryptoHelper.

Definition PBKDF2_ITERATIONS : Z := 200000.
Definition IV_LENGTH : nat := 12.
Definition SALT_LENGTH : nat := 16.

Definition str2ab (str : jsstring) : bytes := Utf8.encode str.

Definition chunkSize : nat := N.to_nat 0x8000.

(** [bytes.subarray(i, j)] *)
Definition subarray (b : bytes) (i j : nat) : bytes := firstn (j - i) (skipn i b).

(** [String.fromCharCode.apply(null, chunk)] *)
Definition fromCharCode (chunk : bytes) : jsstring := map Byte.to_N chunk.

(** The loop of [ab2base64]; it runs at most [length b] times. *)
Fixpoint ab2base64_loop (fuel : nat) (b : bytes) (i : nat) (binary : jsstring) : jsstring :=
  match fuel with
  | O => binary
  | S fuel' =>
      if Nat.ltb i (length b)
      then ab2base64_loop fuel' b (i + chunkSize)
             (binary ++ fromCharCode (subarray b i (i + chunkSize)))
      else binary
  end.

Definition ab2base64 (buffer : bytes) : result jsstring :=
  Base64.btoa (ab2base64_loop (length buffer) buffer 0 []).

Definition base642ab (base64 : jsstring) : result bytes :=
  rbind (Base64.atob base64) (fun binary => Ok (map byte_of_N binary)).

Definition randomBytes (length : nat) : M bytes := getRandomValues length.

(** What [decryptBuffer] returns. *)
Record Decrypted : Type := {
  arrayBuffer : bytes;
  ok : bool;
  expectedHash : js jsstring;
  computedHash : jsstring
}.

Section WithCrypto.
Context {W : WebCrypto}.

Definition deriveKeyFromPassword (password : js jsstring) (salt : bytes)
    (iterations : Z) : M CryptoKey :=
  match password with
  | val pw =>
      passKey <- subtle_importKey (str2ab pw) ;;
      subtle_deriveKey passKey salt iterations
  | _ => throw PasswordMustBeString
  end.

Definition hashBufferToBase64 (buffer : bytes) : M jsstring :=
  digest <- subtle_digest buffer ;;
  lift (ab2base64 digest).

Definition encryptBuffer (arrayBuffer : js bytes) (password : js jsstring) : M Package :=
  match arrayBuffer with
  | val plaintext =>
      match password with
      | val (_ :: _) =>
          salt <- randomBytes SALT_LENGTH ;;
          iv <- randomBytes IV_LENGTH ;;
          key <- deriveKeyFromPassword password salt PBKDF2_ITERATIONS ;;
          plainHashBase64 <- hashBufferToBase64 plaintext ;;
          cipherBuffer <- subtle_encrypt key iv plaintext ;;
          ciphertext64 <- lift (ab2base64 cipherBuffer) ;;
          iv64 <- lift (ab2base64 iv) ;;
          salt64 <- lift (ab2base64 salt) ;;
          ret {| ciphertext := val ciphertext64;
                 iv := val iv64;
                 salt := val salt64;
                 iterations := val PBKDF2_ITERATIONS;
                 hash := val plainHashBase64 |}
      | _ => throw PasswordEmpty
      end
  | _ => throw NotAnArrayBuffer
  end.

Definition decryptBuffer (encryptedPackage : js Package) (password : js jsstring)
    : M Decrypted :=
  match encryptedPackage with
  | val pkg =>
      match ciphertext pkg with
      | val ciphertext64 =>
          match password with
          | val (_ :: _) =>
              ciphertextBuf <- lift (base642ab ciphertext64) ;;
              ivBuf <- lift (base642ab (to_string (iv pkg))) ;;
              saltBuf <- lift (base642ab (to_string (salt pkg))) ;;
              let iterations' := number_or (iterations pkg) PBKDF2_ITERATIONS in
              key <- deriveKeyFromPassword password saltBuf iterations' ;;
              plainBuf <- try_catch (subtle_decrypt key ivBuf ciphertextBuf)
                            (fun _ => throw DecryptionFailed) ;;
              computed <- hashBufferToBase64 plainBuf ;;
              let expected := if truthy_string (hash pkg) then hash pkg else null in
              let ok' := if truthy_string expected then strict_eq computed expected else true in
              ret {| arrayBuffer := plainBuf;
                     ok := ok';
                     expectedHash := expected;
                     computedHash := computed |}
          | _ => throw PasswordEmpty
          end
      | _ => throw InvalidPackage
      end
  | _ => throw InvalidPackage
  end.

Definition createEncryptedFileRecord (fileName : jsstring) (arrayBuffer : js bytes)
    (password : js jsstring) : M FileRecord :=
  enc <- encryptBuffer arrayBuffer password ;;
  createdAt' <- gets now ;;
  ret {| name := fileName;
         createdAt := createdAt';
         size := match arrayBuffer with
                 | val b => N.of_nat (length b)
                 | _ => 0%N
                 end;
         rec_ciphertext := ciphertext enc;
         rec_iv := iv enc;
         rec_salt := salt enc;
         rec_iterations := iterations enc;
         rec_hash := hash enc;
         mimeType := [] |}.

End WithCrypto.
End CryptoHelper.

(** ** db.js

    The object store "files" holds one record per key [name] and lists
    its records in the order of their keys, which for strings is the order
    of their code units. Requests of IndexedDB itself do not fail here. *)
Module DB.

Fixpoint key_compare (a b : jsstring) : comparison :=
  match a, b with
  | [], [] => Eq
  | [], _ :: _ => Lt
  | _ :: _, [] => Gt
  | x :: a', y :: b' =>
      match (x ?= y)%N with
      | Eq => key_compare a' b'
      | c => c
      end
  end.

(** [store.put(record)] *)
Fixpoint put (r : FileRecord) (store : list FileRecord) : list FileRecord :=
  match store with
  | [] => [r]
  | x :: rest =>
      match key_compare (name r) (name x) with
      | Lt => r :: x :: rest
      | Eq => r :: rest
      | Gt => x :: put r rest
      end
  end.

(** [store.get(name)] *)
Fixpoint get (n : jsstring) (store : list FileRecord) : option FileRecord :=
  match store with
  | [] => None
  | x :: rest =>
      match key_compare n (name x) with
      | Eq => Some x
      | _ => get n rest
      end
  end.

(** [store.delete(name)] *)
Fixpoint delete (n : jsstring) (store : list FileRecord) : list FileRecord :=
  match store with
  | [] => []
  | x :: rest =>
      match key_compare n (name x) with
      | Eq => delete n rest
      | _ => x :: delete n rest
      end
  end.

(** A record is an object, so [!record] is false; [!record.name] holds for
    the empty name. *)
Definition saveFile (record : FileRecord) : M bool :=
  match name record with
  | [] => throw InvalidFileRecord
  | _ :: _ => modify (fun w => set_db (put record (db w)) w) ;;; ret true
  end.

Definition getFile (n : jsstring) : M (js FileRecord) :=
  gets (fun w => match get n (db w) with
                 | Some r => val r
                 | None => null
                 end).

Definition deleteFile (n : jsstring) : M bool :=
  modify (fun w => set_db (delete n (db w)) w) ;;; ret true.

Definition getAllFiles : M (list FileRecord) := gets db.

End DB.

(** ** script.js

    The session is the pair [sessionPassword], [unlocked] of the world. The
    DOM is not modelled: what a handler reads from it (the password typed,
    the names ticked) is its argument, and [refreshFileList], which only
    rewrites the cached list and the page, changes nothing here. *)
Module Script.
Import CryptoHelper.

(** The world once a message is shown. *)
Definition shown (msg : message) (type : level) (w : World) : World :=
  set_messages (messages w ++ [(msg, type)]) w.

Definition showMessage (msg : message) (type : level) : M unit :=
  modify (shown msg type).

(** [confirm(...)]: the next answer of the user. *)
Definition confirm : M bool :=
  fun w => (Ok (confirm_answers w (confirm_pos w)), set_confirm_pos (S (confirm_pos w)) w).

Definition refreshFileList : M unit := ret tt.

Definition setUnlockedState (state : bool) : M unit :=
  modify (set_unlocked state) ;;;
  u <- gets unlocked ;;
  if negb u then modify (set_sessionPassword null) else ret tt.

(** The object literal built from a stored record before decryption. *)
Definition package_of (r : FileRecord) : Package :=
  {| ciphertext := rec_ciphertext r;
     iv := rec_iv r;
     salt := rec_salt r;
     iterations := rec_iterations r;
     hash := rec_hash r |}.

Section WithCrypto.
Context {W : WebCrypto}.

Definition tryUnlock (password : jsstring) : M bool :=
  files <- DB.getAllFiles ;;
  match files with
  | [] =>
      modify (set_sessionPassword (val password)) ;;;
      setUnlockedState true ;;;
      showMessage MsgUnlockedNoFiles info ;;;
      refreshFileList ;;;
      ret true
  | sample :: _ =>
      try_catch
        (decryptBuffer (val (package_of sample)) (val password) ;;;
         modify (set_sessionPassword (val password)) ;;;
         setUnlockedState true ;;;
         showMessage MsgUnlocked info ;;;
         refreshFileList ;;;
         ret true)
        (fun _ =>
           setUnlockedState false ;;;
           showMessage MsgWrongPassword error_level ;;;
           ret false)
  end.

(** The body of the loop of [handleFilesAdded], once per file. *)
Fixpoint add_files (fileList : list File) : M unit :=
  match fileList with
  | [] => ret tt
  | file :: rest =>
      try_catch
        (existing <- DB.getFile (file_name file) ;;
         override <- match existing with
                     | val _ => confirm
                     | _ => ret true
                     end ;;
         if override then
           password <- gets sessionPassword ;;
           rec <- createEncryptedFileRecord (file_name file)
                    (val (file_content file)) password ;;
           DB.saveFile
             {| name := name rec; createdAt := createdAt rec; size := size rec;
                rec_ciphertext := rec_ciphertext rec; rec_iv := rec_iv rec;
                rec_salt := rec_salt rec; rec_iterations := rec_iterations rec;
                rec_hash := rec_hash rec; mimeType := file_type file |} ;;;
           showMessage (MsgSaved (file_name file)) info
         else ret tt)
        (fun err => showMessage (MsgFailedToAdd (file_name file) err) error_level) ;;;
      add_files rest
  end.

Definition handleFilesAdded (fileList : list File) : M unit :=
  u <- gets unlocked ;;
  password <- gets sessionPassword ;;
  if negb u || negb (truthy_string password)
  then showMessage MsgUnlockFirstAdd error_level
  else add_files fileList ;;; refreshFileList.

(** The [drop] handler of the drop zone and the [change] handler of the file
    input: [if (files.length) await handleFilesAdded(files)]. *)
Definition filesChosen (files : list File) : M unit :=
  match files with
  | [] => ret tt
  | _ :: _ => handleFilesAdded files
  end.

(** [result] and [result.arrayBuffer] are objects, so the test that throws
    'Decryption returned no data' never holds. *)
Definition downloadFile (n : jsstring) : M unit :=
  rec <- DB.getFile n ;;
  match rec with
  | val r =>
      password <- gets sessionPassword ;;
      result <- decryptBuffer (val (package_of r)) password ;;
      proceed <- (if ok result then ret true else confirm) ;;
      if proceed then
        modify (fun w =>
          set_downloads (downloads w ++ [(name r, arrayBuffer result, mimeType r)]) w) ;;;
        showMessage (MsgDownloaded (name r)) info
      else ret tt
  | _ => throw FileNotFound
  end.

(** The click handler of a row's action button. *)
Definition fileActionClick (n : jsstring) : M unit :=
  u <- gets unlocked ;;
  if negb u then showMessage MsgUnlockFirstDownload error_level
  else try_catch (downloadFile n)
         (fun err => showMessage (MsgDownloadFailed err) error_level).

Fixpoint download_each (checked : list jsstring) : M unit :=
  match checked with
  | [] => ret tt
  | n :: rest =>
      try_catch (downloadFile n)
        (fun err => showMessage (MsgFailedToDownload n err) error_level) ;;;
      download_each rest
  end.

Definition downloadSelected (checked : list jsstring) : M unit :=
  match checked with
  | [] => showMessage MsgNoFilesSelectedDownload error_level
  | _ :: _ => download_each checked
  end.

Definition downloadBtnClick (checked : list jsstring) : M unit :=
  u <- gets unlocked ;;
  if negb u then showMessage MsgUnlockFirst error_level
  else downloadSelected checked.

Fixpoint delete_each (checked : list jsstring) : M unit :=
  match checked with
  | [] => ret tt
  | n :: rest =>
      DB.deleteFile n ;;; showMessage (MsgDeleted n) info ;;; delete_each rest
  end.

Definition deleteSelected (checked : list jsstring) : M unit :=
  match checked with
  | [] => showMessage MsgNoFilesSelectedDelete error_level
  | _ :: _ =>
      ok' <- confirm ;;
      if ok' then delete_each checked ;;; refreshFileList else ret tt
  end.

Definition deleteBtnClick (checked : list jsstring) : M unit :=
  u <- gets unlocked ;;
  if negb u then showMessage MsgUnlockFirst error_level
  else deleteSelected checked.

(** The unlock button and Enter in the password input. *)
Definition unlockClick (pwd : jsstring) : M unit :=
  match pwd with
  | [] => showMessage MsgEnterPassword error_level
  | _ :: _ => tryUnlock pwd ;;; ret tt
  end.

Fixpoint delete_all (files : list FileRecord) : M unit :=
  match files with
  | [] => ret tt
  | file :: rest => DB.deleteFile (name file) ;;; delete_all rest
  end.

Definition resetYesClick : M unit :=
  allFiles <- DB.getAllFiles ;;
  delete_all allFiles ;;;
  modify (set_sessionPassword null) ;;;
  setUnlockedState false ;;;
  showMessage MsgReset info.

(** A page load runs the script afresh: the session variables get their
    initial values and [init] runs; the object store stays. *)
Definition page_load (w : World) : World :=
  set_unlocked false (set_sessionPassword null w).

Definition init : M unit := setUnlockedState false ;;; refreshFileList.

(** The lock button reloads the page. *)
Definition lockClick : M unit := modify page_load ;;; init.

Inductive event : Type :=
| FilesChosen (files : list File)
| FileActionClick (n : jsstring)
| DownloadBtnClick (checked : list jsstring)
| DeleteBtnClick (checked : list jsstring)
| UnlockClick (pwd : jsstring)
| ResetYesClick
| LockClick.

Definition handle (e : event) : M unit :=
  match e with
  | FilesChosen files => filesChosen files
  | FileActionClick n => fileActionClick n
  | DownloadBtnClick checked => downloadBtnClick checked
  | DeleteBtnClick checked => deleteBtnClick checked
  | UnlockClick pwd => unlockClick pwd
  | ResetYesClick => resetYesClick
  | LockClick => lockClick
  end.

(** The worlds the page can be in between two events. *)
Inductive reachable : World -> Prop :=
| reach_load (w : World) : reachable (snd (init (page_load w)))
| reach_event (w : World) (e : event) :
    reachable w -> reachable (snd (handle e w)).

End WithCrypto.
End Script.

(** ** Tampering with a package *)


(** The three fields of a package that hold binary data as base64. *)
Inductive binary_field : Type := Ciphertext | Nonce | Salt.

Definition get_field (f : binary_field) (pkg : Package) : js jsstring :=
  match f with
  | Ciphertext => ciphertext pkg
  | Nonce => iv pkg
  | Salt => salt pkg
  end.

Definition set_field (f : binary_field) (v : js jsstring) (pkg : Package) : Package :=
  match f with
  | Ciphertext =>
      {| ciphertext := v; iv := iv pkg; salt := salt pkg;
         iterations := iterations pkg; hash := hash pkg |}
  | Nonce =>
      {| ciphertext := ciphertext pkg; iv := v; salt := salt pkg;
         iterations := iterations pkg; hash := hash pkg |}
  | Salt =>
      {| ciphertext := ciphertext pkg; iv := iv pkg; salt := v;
         iterations := iterations pkg; hash := hash pkg |}
  end.

Definition set_iterations (n : js Z) (pkg : Package) : Package :=
  {| ciphertext := ciphertext pkg; iv := iv pkg; salt := salt pkg;
     iterations := n; hash := hash pkg |}.

Definition set_hash (h : js jsstring) (pkg : Package) : Package :=
  {| ciphertext := ciphertext pkg; iv := iv pkg; salt := salt pkg;
     iterations := iterations pkg; hash := h |}.

(** ** What is assumed of the cipher and of the key derivation

    [aead_correct] and [aead_opens_only_seals] are the contract of AES-GCM:
    what was sealed opens, and what opens was sealed. The other three are
    the symbolic reading of its security and of PBKDF2's: a ciphertext opens
    under no key or nonce but its own, a ciphertext with one byte changed is
    rejected, and one password derives two keys from two salts. Nothing is
    assumed of two passwords: PBKDF2 takes the password as the key of HMAC,
    which gives some passwords one key. *)
Section Contracts.
Context (W : WebCrypto).

Definition aead_correct : Prop :=
  forall key iv plaintext,
    aes_gcm_open key iv (aes_gcm_seal key iv plaintext) = Some plaintext.

Definition aead_binds_key_and_nonce : Prop :=
  forall key iv plaintext key' iv',
    aes_gcm_open key' iv' (aes_gcm_seal key iv plaintext) <> None ->
    key' = key /\ iv' = iv.



Definition kdf_salt_collision_free : Prop :=
  forall password salt salt' iterations,
    pbkdf2 password salt iterations = pbkdf2 password salt' iterations ->
    salt = salt'.

End Contracts.

(** ** A symbolic instance of the primitives

    Keys and ciphertexts spell out what they were made from: a derived key
    is its framed password and salt, a ciphertext is its framed key and
    nonce followed by the plaintext twice, and it opens only when the frame
    and both copies agree. It keeps nothing secret; it shows that the
    contracts above can be met together. *)
Module Symbolic.

(** A prefix-free frame: a 1 before every byte, a 0 at the end. *)
Fixpoint frame (b : bytes) : bytes :=
  match b with
  | [] => [x00]
  | x :: rest => x01 :: x :: frame rest
  end.

Definition le32 (z : Z) : bytes :=
  let n := Z.to_N z in
  [byte_of_N n; byte_of_N (n / 256); byte_of_N (n / 65536); byte_of_N (n / 16777216)].

Fixpoint bytes_eqb (a b : bytes) : bool :=
  match a, b with
  | [], [] => true
  | x :: a', y :: b' => Byte.eqb x y && bytes_eqb a' b'
  | _, _ => false
  end.

Definition derive (password salt : bytes) (iterations : Z) : bytes :=
  frame password ++ frame salt ++ le32 iterations.

Definition digest (data : bytes) : bytes := firstn 32 (data ++ repeat x00 32).

Definition seal (key iv plaintext : bytes) : bytes :=
  frame key ++ frame iv ++ plaintext ++ plaintext.

Definition open (key iv ciphertext : bytes) : option bytes :=
  let header := frame key ++ frame iv in
  if bytes_eqb (firstn (length header) ciphertext) header then
    let body := skipn (length header) ciphertext in
    let half := Nat.div2 (length body) in
    if bytes_eqb (firstn half body) (skipn half body)
    then Some (firstn half body)
    else None
  else None.

Definition crypto : WebCrypto :=
  {| CryptoKey := bytes;
     pbkdf2 := derive;
     sha256 := digest;
     aes_gcm_seal := seal;
     aes_gcm_open := open |}.

End Symbolic.

(** ** Concrete inputs *)
Module Examples.
Import Stdlib.Strings.String.

Definition js_of_string (s : string) : jsstring :=
  map Ascii.N_of_ascii (list_ascii_of_string s).

Definition bytes_of_string (s : string) : bytes :=
  map Ascii.byte_of_ascii (list_ascii_of_string s).

Definition hello : bytes := bytes_of_string "hello, world!".
Definition correct_horse : jsstring := js_of_string "correct horse".
Definition wrong_password : jsstring := js_of_string "wrong password".



(** "correct horse" followed by U+0000. *)
Definition correct_horse_nul : jsstring := correct_horse ++ [0%N].

(** A freshly loaded page over an empty object store. *)
Definition world0 : World :=
  {| entropy := fun n => byte_of_N (N.of_nat (37 * n + 11));
     entropy_pos := 0;
     crypto_log := [];
     now := js_of_string "2024-05-01T12:00:00.000Z";
     db := [];
     sessionPassword := null;
     unlocked := false;
     messages := [];
     confirm_answers := fun _ => false;
     confirm_pos := 0;
     downloads := [] |}.

(** The package made from [hello] under [correct_horse] in [world0], and the
    world after it was made. *)
Definition package0 : Package :=
  Eval vm_compute in
    match fst (CryptoHelper.encryptBuffer (W := Symbolic.crypto) (val hello)
                 (val correct_horse) world0) with
    | Ok pkg => pkg
    | Err _ => {| ciphertext := null; iv := null; salt := null;
                  iterations := null; hash := null |}
    end.

Definition world1 : World :=
  snd (CryptoHelper.encryptBuffer (W := Symbolic.crypto) (val hello)
         (val correct_horse) world0).

(** A stored record with no ciphertext, and a page loaded over a store
    that holds this record alone. *)
Definition record_without_ciphertext : FileRecord :=
  {| name := js_of_string "notes.txt";
     createdAt := js_of_string "2024-05-01T12:00:00.000Z";
     size := 13;
     rec_ciphertext := undefined;
     rec_iv := iv package0;
     rec_salt := salt package0;
     rec_iterations := iterations package0;
     rec_hash := hash package0;
     mimeType := js_of_string "text/plain" |}.

Definition world_with_bad_record : World := set_db [record_without_ciphertext] world0.

(** A file to add, and the page as it is once loaded over [world0]. *)
Definition notes_file : File :=
  {| file_name := js_of_string "notes.txt";
     file_type := js_of_string "text/plain";
     file_content := hello |}.

Definition loaded0 : World :=
  snd (Script.init (Script.page_load world0)).

(** The record stored for [notes_file] from [package0], and the page as it
    is once loaded over a store that holds this record alone. *)
Definition record0 : FileRecord :=
  {| name := js_of_string "notes.txt";
     createdAt := js_of_string "2024-05-01T12:00:00.000Z";
     size := 13;
     rec_ciphertext := ciphertext package0;
     rec_iv := iv package0;
     rec_salt := salt package0;
     rec_iterations := iterations package0;
     rec_hash := hash package0;
     mimeType := js_of_string "text/plain" |}.


(** A fingerprint that is not the one of [hello]. *)
Definition other_fingerprint : jsstring := js_of_string "AAAA".

End Examples.

(** ** The key of HMAC

    PBKDF2 with HMAC-SHA-256 takes the password as the key of HMAC, and
    HMAC prepares its key: a key longer than the block of 64 bytes is
    hashed, and zero bytes fill what is shorter up to the block. Two
    passwords with one prepared key derive one key, whatever the salt.
    [Padded.crypto] is the symbolic instance with a derivation that does
    so. *)
Module Padded.

Definition block_size : nat := 64.

Definition prepare_key (k : bytes) : bytes :=
  let k0 := if (length k <=? block_size)%nat then k else Symbolic.digest k in
  k0 ++ repeat x00 (block_size - length k0).

Definition derive (password salt : bytes) (iterations : Z) : bytes :=
  Symbolic.derive (prepare_key password) salt iterations.

Definition crypto : WebCrypto :=
  {| CryptoKey := bytes;
     pbkdf2 := derive;
     sha256 := Symbolic.digest;
     aes_gcm_seal := Symbolic.seal;
     aes_gcm_open := Symbolic.open |}.

End Padded.

(** ** Well-formed strings

    A string of 16-bit code units in which every surrogate is half of a
    pair: a high one followed by a low one. *)
Fixpoint well_formed (s : jsstring) : bool :=
  match s with
  | [] => true
  | c :: rest =>
      if Utf8.is_high_surrogate c then
        match rest with
        | d :: rest' => Utf8.is_low_surrogate d && well_formed rest'
        | [] => false
        end
      else if Utf8.is_low_surrogate c then false
      else (c <? 0x10000)%N && well_formed rest
  end.

(** A Unicode scalar value: a code point that is no surrogate. *)
Definition scalar (cp : N) : Prop :=
  (cp < 0xD800 \/ (0xE000 <= cp /\ cp < 0x110000))%N.

(** ** Order and invariants of the object store *)

(** The records are in strictly ascending order of their keys, as
    [store.getAll()] lists them; no two of them then share a name. *)
Fixpoint names_ascending (store : list FileRecord) : bool :=
  match store with
  | x :: (y :: _) as rest =>
      match DB.key_compare (name x) (name y) with
      | Lt => names_ascending rest
      | _ => false
      end
  | _ => true
  end.

(** [n] is below the first key of [store], if there is one. *)
Definition below (n : jsstring) (store : list FileRecord) : Prop :=
  match store with
  | [] => True
  | y :: _ => DB.key_compare n (name y) = Lt
  end.

(** A computation that keeps a property of the object store. *)
Definition store_invariant {A} (P : list FileRecord -> Prop) (m : M A) : Prop :=
  forall w, P (db w) -> P (db (snd (m w))).

(** A computation that ends without an error, whatever the world. *)
Definition never_raises {A} (m : M A) : Prop :=
  forall w, exists a, fst (m w) = Ok a.

(** ** A store under one password

    A record is sealed under [k] when its fields are what [encryptBuffer]
    makes of some plaintext, some salt and some nonce under a password whose
    UTF-8 encoding is [k]. The store is under one password when all its
    records are sealed under one [k], which is the encoding of the session
    password whenever the session is unlocked. *)
Section OnePassword.
Context {W : WebCrypto}.

Definition sealed_under (k : bytes) (r : FileRecord) : Prop :=
  exists c64 iv64 s64 h64 saltb ivb p,
    rec_ciphertext r = val c64 /\ rec_iv r = val iv64 /\ rec_salt r = val s64
    /\ rec_iterations r = val CryptoHelper.PBKDF2_ITERATIONS
    /\ rec_hash r = val h64
    /\ CryptoHelper.base642ab c64
       = Ok (aes_gcm_seal (pbkdf2 k saltb CryptoHelper.PBKDF2_ITERATIONS) ivb p)
    /\ CryptoHelper.base642ab iv64 = Ok ivb
    /\ CryptoHelper.base642ab s64 = Ok saltb
    /\ CryptoHelper.ab2base64 (sha256 p) = Ok h64.

Definition one_password (w : World) : Prop :=
  exists k,
    Forall (sealed_under k) (db w)
    /\ (unlocked w = true ->
        exists pw, sessionPassword w = val pw /\ pw <> []
                   /\ CryptoHelper.str2ab pw = k).

End OnePassword.

(** ** Concrete sessions *)
Module Scenes.
Import Examples.

(** A user who answers yes to every question. *)
Definition agreeing (w : World) : World :=
  {| entropy := entropy w; entropy_pos := entropy_pos w;
     crypto_log := crypto_log w; now := now w; db := db w;
     sessionPassword := sessionPassword w; unlocked := unlocked w;
     messages := messages w; confirm_answers := fun _ => true;
     confirm_pos := confirm_pos w; downloads := downloads w |}.

(** A session unlocked with [correct_horse] over the store [store]. *)
Definition session_over (store : list FileRecord) : World :=
  set_unlocked true (set_sessionPassword (val correct_horse) (set_db store world0)).

(** [record0] with the fingerprint of another plaintext. *)
Definition record_with_other_fingerprint : FileRecord :=
  {| name := name record0; createdAt := createdAt record0; size := size record0;
     rec_ciphertext := rec_ciphertext record0; rec_iv := rec_iv record0;
     rec_salt := rec_salt record0; rec_iterations := rec_iterations record0;
     rec_hash := val other_fingerprint; mimeType := mimeType record0 |}.

(** What [decryptBuffer] returns for that record, and the world after. *)
Definition decrypted_with_other_fingerprint : CryptoHelper.Decrypted :=
  {| CryptoHelper.arrayBuffer := hello;
     CryptoHelper.ok := false;
     CryptoHelper.expectedHash := val other_fingerprint;
     CryptoHelper.computedHash := to_string (hash package0) |}.

Definition world_after_decryption : World :=
  snd (CryptoHelper.decryptBuffer (W := Symbolic.crypto)
         (val (Script.package_of record_with_other_fingerprint))
         (val correct_horse) (session_over [record_with_other_fingerprint])).

(** The package of a second encryption, made in [world1], and the world
    after it. *)
Definition package1 : Package :=
  Eval vm_compute in
    match fst (CryptoHelper.encryptBuffer (W := Symbolic.crypto) (val hello)
                 (val wrong_password) world1) with
    | Ok pkg => pkg
    | Err _ => package0
    end.

Definition world2 : World :=
  snd (CryptoHelper.encryptBuffer (W := Symbolic.crypto) (val hello)
         (val wrong_password) world1).

(** A file whose name is empty. *)
Definition nameless_file : File :=
  {| file_name := []; file_type := []; file_content := hello |}.

End Scenes.

(** ** An add across an await

    An [async] function gives way at every [await], and the handlers of
    other events run before it goes on. [encryptBuffer] awaits the key that
    [deriveKeyFromPassword] derives; [handleFilesAdded] for one file is
    written here in two halves, up to that key and from there on. Run one
    after the other they are [handleFilesAdded]; with another handler run
    in between they are an add in flight. *)
Module InFlight.
Import CryptoHelper Script.

Section WithCrypto.
Context {W : WebCrypto}.

(** What the suspended call holds: its file, the salt, the nonce and the
    key. *)
Record pending : Type := {
  pending_file : File;
  pending_salt : bytes;
  pending_iv : bytes;
  pending_key : CryptoKey
}.

(** [handleFilesAdded([file])] up to the key; [None] when the call ended
    before. *)
Definition handleFilesAdded_to_key (file : File) : M (option pending) :=
  u <- gets unlocked ;;
  password <- gets sessionPassword ;;
  if negb u || negb (truthy_string password)
  then showMessage MsgUnlockFirstAdd error_level ;;; ret None
  else
    try_catch
      (existing <- DB.getFile (file_name file) ;;
       override <- match existing with
                   | val _ => confirm
                   | _ => ret true
                   end ;;
       if override then
         password <- gets sessionPassword ;;
         match password with
         | val (_ :: _) =>
             salt <- randomBytes SALT_LENGTH ;;
             iv <- randomBytes IV_LENGTH ;;
             key <- deriveKeyFromPassword password salt PBKDF2_ITERATIONS ;;
             ret (Some {| pending_file := file; pending_salt := salt;
                          pending_iv := iv; pending_key := key |})
         | _ => throw PasswordEmpty
         end
       else ret None)
      (fun err =>
         showMessage (MsgFailedToAdd (file_name file) err) error_level ;;; ret None).

(** The call from the key on: the rest of [encryptBuffer], of
    [createEncryptedFileRecord] and of the loop. *)
Definition handleFilesAdded_from_key (held : pending) : M unit :=
  let file := pending_file held in
  try_catch
    (plainHashBase64 <- hashBufferToBase64 (file_content file) ;;
     cipherBuffer <- subtle_encrypt (pending_key held) (pending_iv held)
                       (file_content file) ;;
     ciphertext64 <- lift (ab2base64 cipherBuffer) ;;
     iv64 <- lift (ab2base64 (pending_iv held)) ;;
     salt64 <- lift (ab2base64 (pending_salt held)) ;;
     createdAt' <- gets now ;;
     DB.saveFile
       {| name := file_name file; createdAt := createdAt';
          size := N.of_nat (length (file_content file));
          rec_ciphertext := val ciphertext64; rec_iv := val iv64;
          rec_salt := val salt64; rec_iterations := val PBKDF2_ITERATIONS;
          rec_hash := val plainHashBase64; mimeType := file_type file |} ;;;
     showMessage (MsgSaved (file_name file)) info)
    (fun err => showMessage (MsgFailedToAdd (file_name file) err) error_level) ;;;
  refreshFileList.

(** The two halves with the handler [between] run at the await. *)
Definition handleFilesAdded_around (file : File) (between : M unit) : M unit :=
  held <- handleFilesAdded_to_key file ;;
  match held with
  | Some h => between ;;; handleFilesAdded_from_key h
  | None => ret tt
  end.

End WithCrypto.
End InFlight.

(* ================================================================== *)
(** * Part II. Properties                                              *)
(* ================================================================== *)

Ltac Zify.zify_post_hook ::= Z.to_euclidean_division_equations.

(** ** Lists *)

Lemma list_ind3 (A : Type) (P : list A -> Prop) :
  P [] -> (forall a, P [a]) -> (forall a b, P [a; b]) ->
  (forall a b c l, P l -> P (a :: b :: c :: l)) ->
  forall l, P l.
Proof.
  intros H0 H1 H2 H3.
  assert (H : forall l, P l /\ (forall a, P (a :: l)) /\ (forall a b, P (a :: b :: l))).
  { induction l as [|x l IH].
    - repeat split; auto.
    - destruct IH as (IH0 & IH1 & IH2). repeat split; auto. }
  intro l. apply H.
Qed.

Lemma byte_of_to_N (b : byte) : byte_of_N (Byte.to_N b) = b.
Proof.
  unfold byte_of_N.
  pose proof (Byte.to_N_bounded b) as Hb.
  rewrite N.mod_small by lia.
  now rewrite Byte.of_to_N.
Qed.

Lemma map_byte_of_to_N (b : bytes) : map byte_of_N (map Byte.to_N b) = b.
Proof.
  induction b as [|x b IH]; simpl; [reflexivity|].
  now rewrite byte_of_to_N, IH.
Qed.

(** ** base64 *)

Module Base64Facts.
Import Base64.
Local Open Scope N_scope.

Ltac case_cond :=
  first
    [ match goal with
      | |- context [?a <? ?b] => is_var a; destruct (N.ltb_spec a b)
      | |- context [?a =? ?b] => is_var a; destruct (N.eqb_spec a b)
      end
    | match goal with
      | |- context [?a <=? ?b] => destruct (N.leb_spec a b)
      | |- context [?a =? ?b] => destruct (N.eqb_spec a b)
      end ];
  cbv beta iota delta [andb orb].

Lemma b64_index_char (n : N) : n < 64 -> b64_index (b64_char n) = Some n.
Proof.
  intro Hn. unfold b64_char, b64_index.
  repeat case_cond; try (f_equal; lia); exfalso; lia.
Qed.

Lemma b64_char_not_equals (n : N) : (b64_char n =? equals_sign) = false.
Proof.
  unfold b64_char, equals_sign. apply N.eqb_neq.
  repeat case_cond; lia.
Qed.

Lemma b64_char_not_whitespace (n : N) : is_ascii_whitespace (b64_char n) = false.
Proof.
  unfold is_ascii_whitespace, b64_char.
  repeat case_cond; try reflexivity; exfalso; lia.
Qed.

Lemma decode_encode_sextets (l : list N) :
  Forall (fun x => x < 256) l -> decode_sextets (encode_sextets l) = l.
Proof.
  induction l as [| a | a b | a b c l IH] using list_ind3; intro H.
  - reflexivity.
  - inversion H; subst. simpl. f_equal. lia.
  - inversion H as [|? ? Ha H']; subst. inversion H' as [|? ? Hb _]; subst.
    simpl. f_equal; [lia|]. f_equal. lia.
  - inversion H as [|? ? Ha H']; subst. inversion H' as [|? ? Hb H'']; subst.
    inversion H'' as [|? ? Hc H''']; subst.
    cbn [encode_sextets decode_sextets]. rewrite IH by assumption.
    f_equal; [lia|]. f_equal; [lia|]. f_equal. lia.
Qed.

Lemma encode_sextets_lt (l : list N) :
  Forall (fun x => x < 256) l -> Forall (fun s => s < 64) (encode_sextets l).
Proof.
  induction l as [| a | a b | a b c l IH] using list_ind3; intro H.
  - constructor.
  - inversion H; subst. simpl. repeat constructor; lia.
  - inversion H as [|? ? Ha H']; subst. inversion H' as [|? ? Hb _]; subst.
    simpl. repeat constructor; lia.
  - inversion H as [|? ? Ha H']; subst. inversion H' as [|? ? Hb H'']; subst.
    inversion H'' as [|? ? Hc H''']; subst.
    cbn [encode_sextets]. repeat (constructor; [lia|]). auto.
Qed.

Lemma indices_map_char (six : list N) :
  Forall (fun s => s < 64) six -> indices (map b64_char six) = Some six.
Proof.
  induction 1 as [|s six Hs _ IH]; simpl; [reflexivity|].
  now rewrite b64_index_char, IH.
Qed.

(** The sextets of [n] octets: a multiple of four, plus two or three for
    a rest of one or two octets. *)
Lemma encode_sextets_length (l : list N) :
  (Nat.modulo (length l) 3 = 0 /\ Nat.modulo (length (encode_sextets l)) 4 = 0 \/
   Nat.modulo (length l) 3 = 1 /\ Nat.modulo (length (encode_sextets l)) 4 = 2 \/
   Nat.modulo (length l) 3 = 2 /\ Nat.modulo (length (encode_sextets l)) 4 = 3)%nat.
Proof.
  induction l as [| a | a b | a b c l IH] using list_ind3.
  - left. split; reflexivity.
  - right; left. split; reflexivity.
  - right; right. split; reflexivity.
  - cbn [encode_sextets length]. lia.
Qed.

Lemma padding_cases (n : nat) :
  (Nat.modulo n 3 = 0 /\ padding n = [] \/
   Nat.modulo n 3 = 1 /\ padding n = [equals_sign; equals_sign] \/
   Nat.modulo n 3 = 2 /\ padding n = [equals_sign])%nat.
Proof.
  unfold padding.
  assert (H : (Nat.modulo n 3 < 3)%nat) by lia.
  destruct (Nat.modulo n 3) as [|[|[|k]]]; auto; lia.
Qed.

Lemma filter_whitespace_encoded (six : list N) (n : nat) :
  filter (fun c => negb (is_ascii_whitespace c)) (map b64_char six ++ padding n)
  = map b64_char six ++ padding n.
Proof.
  rewrite filter_app. f_equal.
  - induction six as [|s six IH]; simpl; [reflexivity|].
    now rewrite b64_char_not_whitespace, IH.
  - destruct (padding_cases n) as [[_ ->] | [[_ ->] | [_ ->]]]; reflexivity.
Qed.

Lemma ends_with_equals_rev_chars (six : list N) :
  ends_with_equals (rev (map b64_char six)) = false.
Proof.
  destruct (rev (map b64_char six)) as [|c r] eqn:E; [reflexivity|].
  assert (Hin : In c (map b64_char six)).
  { apply in_rev. rewrite E. now left. }
  apply in_map_iff in Hin. destruct Hin as (s & <- & _).
  simpl. apply b64_char_not_equals.
Qed.

Lemma strip_padding_encoded (l : list N) :
  strip_padding (map b64_char (encode_sextets l) ++ padding (length l))
  = map b64_char (encode_sextets l).
Proof.
  unfold strip_padding.
  pose proof (encode_sextets_length l) as Hlen.
  set (six := encode_sextets l) in *.
  pose proof (ends_with_equals_rev_chars six) as Hrev.
  destruct (padding_cases (length l)) as [[Hm ->] | [[Hm ->] | [Hm ->]]].
  - rewrite app_nil_r, Hrev. now destruct (Nat.eqb _ 0).
  - replace (Nat.eqb _ 0) with true.
    2:{ symmetry. apply Nat.eqb_eq. rewrite length_app, length_map. cbn [length]. lia. }
    rewrite rev_app_distr. simpl. rewrite rev_involutive. reflexivity.
  - replace (Nat.eqb _ 0) with true.
    2:{ symmetry. apply Nat.eqb_eq. rewrite length_app, length_map. cbn [length]. lia. }
    rewrite rev_app_distr. simpl. rewrite Hrev, rev_involutive. reflexivity.
Qed.

(** [atob] undoes [btoa] on every string of octets. *)
Lemma atob_btoa (l : jsstring) :
  Forall (fun x => x < 256) l ->
  exists s, btoa l = Ok s /\ atob s = Ok l.
Proof.
  intro H.
  exists (map b64_char (encode_sextets l) ++ padding (length l)). split.
  - unfold btoa. replace (forallb _ l) with true; [reflexivity|].
    symmetry. apply forallb_forall. intros x Hx.
    rewrite Forall_forall in H. apply H in Hx. apply N.leb_le. lia.
  - unfold atob. rewrite filter_whitespace_encoded, strip_padding_encoded.
    rewrite length_map.
    replace (Nat.eqb _ 1) with false.
    2:{ symmetry. apply Nat.eqb_neq. pose proof (encode_sextets_length l). lia. }
    rewrite indices_map_char by now apply encode_sextets_lt.
    now rewrite decode_encode_sextets.
Qed.

End Base64Facts.

(** The test vectors of RFC 4648, and what [atob] forgives. *)
Module Base64Vectors.
Import Base64 Examples.
Import Stdlib.Strings.String.
Local Open Scope string_scope.

Example btoa_empty : btoa (js_of_string "") = Ok (js_of_string "").
Proof. reflexivity. Qed.

Example btoa_f : btoa (js_of_string "f") = Ok (js_of_string "Zg==").
Proof. reflexivity. Qed.

Example btoa_fo : btoa (js_of_string "fo") = Ok (js_of_string "Zm8=").
Proof. reflexivity. Qed.

Example btoa_foo : btoa (js_of_string "foo") = Ok (js_of_string "Zm9v").
Proof. reflexivity. Qed.

Example btoa_foobar : btoa (js_of_string "foobar") = Ok (js_of_string "Zm9vYmFy").
Proof. reflexivity. Qed.

Example btoa_not_latin1 : btoa [0x20AC%N] = Err InvalidCharacterError.
Proof. reflexivity. Qed.

Example atob_fooba : atob (js_of_string "Zm9vYmE=") = Ok (js_of_string "fooba").
Proof. reflexivity. Qed.

Example atob_without_padding : atob (js_of_string "Zg") = Ok (js_of_string "f").
Proof. reflexivity. Qed.

Example atob_with_spaces : atob (js_of_string " Z g = = ") = Ok (js_of_string "f").
Proof. reflexivity. Qed.

Example atob_leftover_bits : atob (js_of_string "Zh==") = Ok (js_of_string "f").
Proof. reflexivity. Qed.

Example atob_one_character : atob (js_of_string "Z") = Err InvalidCharacterError.
Proof. reflexivity. Qed.

Example atob_short_padding : atob (js_of_string "Zg=") = Err InvalidCharacterError.
Proof. reflexivity. Qed.

Example atob_bad_character : atob (js_of_string "Zm9!") = Err InvalidCharacterError.
Proof. reflexivity. Qed.

End Base64Vectors.

(** ** crypto-helper.js: the encoding utilities *)

Module CryptoHelperFacts.
Import CryptoHelper.

Lemma chunkSize_pos : (0 < chunkSize)%nat.
Proof. unfold chunkSize. lia. Qed.

Lemma firstn_add_skipn (A : Type) (l : list A) (i c : nat) :
  firstn i l ++ firstn c (skipn i l) = firstn (i + c) l.
Proof.
  revert l. induction i as [|i IH]; intros [|x l]; simpl; try reflexivity.
  - now destruct c.
  - now rewrite IH.
Qed.

(** [TextEncoder.encode] on one, two, three and four byte code points, and
    on surrogates that stand alone. *)
Example str2ab_ascii : str2ab [0x41%N] = [x41].
Proof. reflexivity. Qed.

Example str2ab_e_acute : str2ab [0xE9%N] = [xc3; xa9].
Proof. reflexivity. Qed.

Example str2ab_euro : str2ab [0x20AC%N] = [xe2; x82; xac].
Proof. reflexivity. Qed.

Example str2ab_surrogate_pair : str2ab [0xD83D%N; 0xDE00%N] = [xf0; x9f; x98; x80].
Proof. reflexivity. Qed.

Example str2ab_lone_high : str2ab [0xD800%N; 0x41%N] = [xef; xbf; xbd; x41].
Proof. reflexivity. Qed.

Example str2ab_lone_low : str2ab [0xDC00%N] = [xef; xbf; xbd].
Proof. reflexivity. Qed.

(** The loop of [ab2base64] spells the whole buffer, chunk after chunk. *)
Lemma ab2base64_loop_collects (fuel : nat) (b : bytes) (i : nat) :
  (length b <= i + fuel * chunkSize)%nat ->
  ab2base64_loop fuel b i (fromCharCode (firstn i b)) = fromCharCode b.
Proof.
  revert i. induction fuel as [|fuel IH]; intros i H; cbn [ab2base64_loop].
  - rewrite firstn_all2 by lia. reflexivity.
  - destruct (Nat.ltb_spec i (length b)) as [Hlt|Hge].
    + unfold subarray. replace (i + chunkSize - i)%nat with chunkSize by lia.
      unfold fromCharCode at 1 2. rewrite <- map_app, firstn_add_skipn.
      apply IH. lia.
    + rewrite firstn_all2 by lia. reflexivity.
Qed.

Lemma fromCharCode_octets (b : bytes) : Forall (fun x => x < 256)%N (fromCharCode b).
Proof.
  unfold fromCharCode. apply Forall_forall. intros x Hx.
  apply in_map_iff in Hx. destruct Hx as (y & <- & _).
  pose proof (Byte.to_N_bounded y). lia.
Qed.

(** Every buffer has a base64 text, and the text decodes to the buffer. *)
Lemma ab2base64_base642ab (x : bytes) :
  exists s, ab2base64 x = Ok s /\ base642ab s = Ok x.
Proof.
  assert (Hloop : ab2base64_loop (length x) x 0 [] = fromCharCode x).
  { apply (ab2base64_loop_collects (length x) x 0). pose proof chunkSize_pos. nia. }
  unfold ab2base64, base642ab. rewrite Hloop.
  destruct (Base64Facts.atob_btoa (fromCharCode_octets x)) as (s & Hs & Hd).
  exists s. split; [exact Hs|].
  rewrite Hd. cbn [rbind]. unfold fromCharCode. now rewrite map_byte_of_to_N.
Qed.

(** C8. The transcoding of the record fields is an exact round trip: for
    every byte sequence [x], the empty one included, [ab2base64 x] is a text
    and [base642ab] of that text is [x]. *)
Theorem base64_round_trip (x : bytes) :
  rbind (ab2base64 x) base642ab = Ok x.
Proof.
  destruct (ab2base64_base642ab x) as (s & Hs & Hd).
  rewrite Hs. exact Hd.
Qed.

End CryptoHelperFacts.

(** ** crypto-helper.js: running [encryptBuffer] and [decryptBuffer] *)

Module CryptoRun.
Import CryptoHelper CryptoHelperFacts.

Lemma jsstring_eqb_refl (s : jsstring) : jsstring_eqb s s = true.
Proof.
  induction s as [|c s IH]; simpl; [reflexivity|].
  now rewrite N.eqb_refl.
Qed.

Lemma jsstring_eqb_eq (a b : jsstring) : jsstring_eqb a b = true <-> a = b.
Proof.
  split.
  - revert b. induction a as [|x a IH]; intros [|y b] H; simpl in H;
      try reflexivity; try discriminate.
    apply andb_true_iff in H. destruct H as [Hxy Hab].
    apply N.eqb_eq in Hxy. apply IH in Hab. congruence.
  - intros ->. apply jsstring_eqb_refl.
Qed.

Lemma in_range_true (it : Z) :
  (0 < it < 2 ^ 32)%Z -> ((0 <? it) && (it <? 2 ^ 32))%Z = true.
Proof.
  intros [H1 H2]. apply andb_true_iff. split; apply Z.ltb_lt; assumption.
Qed.

Lemma default_iterations_in_range : (0 < PBKDF2_ITERATIONS < 2 ^ 32)%Z.
Proof. unfold PBKDF2_ITERATIONS. lia. Qed.

Ltac run_monad :=
  unfold bind, try_catch, deriveKeyFromPassword, hashBufferToBase64,
    subtle_importKey, subtle_deriveKey, subtle_digest, subtle_encrypt,
    subtle_decrypt, log_call, modify, ret, lift, throw, bind;
  cbv beta iota.

Ltac same_world :=
  unfold logged, set_crypto_log, set_entropy_pos; cbn;
  rewrite <- ?app_assoc; reflexivity.

Section Run.
Context {W : WebCrypto}.

(** The bytes [randomBytes] draws at a cursor. *)
Lemma randomBytes_length (n : nat) (w : World) (b : bytes) (w' : World) :
  randomBytes n w = (Ok b, w') -> length b = n.
Proof.
  unfold randomBytes, getRandomValues. intro H. inversion H.
  now rewrite length_map, length_seq.
Qed.

(** [encryptBuffer] on a buffer and a non-empty password: the salt and the
    nonce are the next 16 and 12 bytes of the random source. *)
Lemma encryptBuffer_run (p : bytes) (pw : jsstring) (w : World) :
  pw <> [] ->
  let saltb := map (entropy w) (seq (entropy_pos w) SALT_LENGTH) in
  let ivb := map (entropy w) (seq (entropy_pos w + SALT_LENGTH) IV_LENGTH) in
  let key := pbkdf2 (str2ab pw) saltb PBKDF2_ITERATIONS in
  exists c64 iv64 s64 h64,
    base642ab c64 = Ok (aes_gcm_seal key ivb p) /\
    base642ab iv64 = Ok ivb /\
    base642ab s64 = Ok saltb /\
    ab2base64 (sha256 p) = Ok h64 /\
    encryptBuffer (val p) (val pw) w =
      (Ok {| ciphertext := val c64; iv := val iv64; salt := val s64;
             iterations := val PBKDF2_ITERATIONS; hash := val h64 |},
       logged [CallImportKey (str2ab pw);
               CallDeriveKey (str2ab pw) saltb PBKDF2_ITERATIONS;
               CallDigest p;
               CallEncrypt ivb p]
         (set_entropy_pos (entropy_pos w + SALT_LENGTH + IV_LENGTH) w)).
Proof.
  intros Hpw saltb ivb key.
  destruct (ab2base64_base642ab (aes_gcm_seal key ivb p)) as (c64 & Hc & Hc').
  destruct (ab2base64_base642ab ivb) as (iv64 & Hi & Hi').
  destruct (ab2base64_base642ab saltb) as (s64 & Hs & Hs').
  destruct (ab2base64_base642ab (sha256 p)) as (h64 & Hh & _).
  exists c64, iv64, s64, h64. repeat (split; [assumption|]).
  unfold encryptBuffer. destruct pw as [|c pw]; [congruence|].
  unfold randomBytes, getRandomValues. run_monad.
  rewrite (in_range_true default_iterations_in_range). cbv beta iota.
  rewrite Hh. cbv beta iota.
  change (entropy (set_entropy_pos (entropy_pos w + SALT_LENGTH) w)) with (entropy w).
  change (entropy_pos (set_entropy_pos (entropy_pos w + SALT_LENGTH) w))
    with (entropy_pos w + SALT_LENGTH)%nat.
  fold saltb ivb key. rewrite Hc. cbv beta iota. rewrite Hi. cbv beta iota.
  rewrite Hs. cbv beta iota.
  f_equal. same_world.
Qed.

(** [decryptBuffer] when the cipher rejects. *)
Lemma decryptBuffer_rejected (pkg : Package) (pw c64 : jsstring) (cb ivb sb : bytes)
    (w : World) :
  ciphertext pkg = val c64 -> pw <> [] ->
  base642ab c64 = Ok cb ->
  base642ab (to_string (iv pkg)) = Ok ivb ->
  base642ab (to_string (salt pkg)) = Ok sb ->
  (0 < number_or (iterations pkg) PBKDF2_ITERATIONS < 2 ^ 32)%Z ->
  aes_gcm_open
    (pbkdf2 (str2ab pw) sb (number_or (iterations pkg) PBKDF2_ITERATIONS)) ivb cb
  = None ->
  decryptBuffer (val pkg) (val pw) w =
    (Err DecryptionFailed,
     logged [CallImportKey (str2ab pw);
             CallDeriveKey (str2ab pw) sb (number_or (iterations pkg) PBKDF2_ITERATIONS);
             CallDecrypt ivb cb] w).
Proof.
  intros Hc Hpw Hcb Hiv Hsalt Hit Hopen.
  unfold decryptBuffer. rewrite Hc. destruct pw as [|c pw]; [congruence|].
  run_monad. rewrite Hcb, Hiv, Hsalt. cbv beta iota.
  rewrite (in_range_true Hit). cbv beta iota. rewrite Hopen.
  same_world.
Qed.

(** [decryptBuffer] when [deriveKey] refuses the iteration count. *)
Lemma decryptBuffer_bad_iterations (pkg : Package) (pw c64 : jsstring)
    (cb ivb sb : bytes) (w : World) :
  ciphertext pkg = val c64 -> pw <> [] ->
  base642ab c64 = Ok cb ->
  base642ab (to_string (iv pkg)) = Ok ivb ->
  base642ab (to_string (salt pkg)) = Ok sb ->
  ~ (0 < number_or (iterations pkg) PBKDF2_ITERATIONS < 2 ^ 32)%Z ->
  decryptBuffer (val pkg) (val pw) w =
    (Err PlatformError,
     logged [CallImportKey (str2ab pw);
             CallDeriveKey (str2ab pw) sb (number_or (iterations pkg) PBKDF2_ITERATIONS)]
       w).
Proof.
  intros Hc Hpw Hcb Hiv Hsalt Hit.
  unfold decryptBuffer. rewrite Hc. destruct pw as [|c pw]; [congruence|].
  run_monad. rewrite Hcb, Hiv, Hsalt. cbv beta iota.
  replace ((0 <? number_or (iterations pkg) PBKDF2_ITERATIONS)
           && (number_or (iterations pkg) PBKDF2_ITERATIONS <? 2 ^ 32))%Z with false.
  - cbv beta iota. f_equal. same_world.
  - symmetry. apply andb_false_iff.
    destruct (Z.ltb_spec 0 (number_or (iterations pkg) PBKDF2_ITERATIONS)); [|now left].
    right. apply Z.ltb_ge. lia.
Qed.

(** [decryptBuffer] when the cipher opens the ciphertext. *)
Lemma decryptBuffer_opened (pkg : Package) (pw c64 : jsstring) (cb ivb sb pt : bytes)
    (h : jsstring) (w : World) :
  ciphertext pkg = val c64 -> pw <> [] ->
  base642ab c64 = Ok cb ->
  base642ab (to_string (iv pkg)) = Ok ivb ->
  base642ab (to_string (salt pkg)) = Ok sb ->
  (0 < number_or (iterations pkg) PBKDF2_ITERATIONS < 2 ^ 32)%Z ->
  aes_gcm_open
    (pbkdf2 (str2ab pw) sb (number_or (iterations pkg) PBKDF2_ITERATIONS)) ivb cb
  = Some pt ->
  ab2base64 (sha256 pt) = Ok h ->
  decryptBuffer (val pkg) (val pw) w =
    (Ok {| arrayBuffer := pt;
           ok := if truthy_string (hash pkg) then strict_eq h (hash pkg) else true;
           expectedHash := if truthy_string (hash pkg) then hash pkg else null;
           computedHash := h |},
     logged [CallImportKey (str2ab pw);
             CallDeriveKey (str2ab pw) sb (number_or (iterations pkg) PBKDF2_ITERATIONS);
             CallDecrypt ivb cb;
             CallDigest pt] w).
Proof.
  intros Hc Hpw Hcb Hiv Hsalt Hit Hopen Hh.
  unfold decryptBuffer. rewrite Hc. destruct pw as [|c pw]; [congruence|].
  run_monad. rewrite Hcb, Hiv, Hsalt. cbv beta iota.
  rewrite (in_range_true Hit). cbv beta iota. rewrite Hopen.
  cbv beta iota. rewrite Hh.
  f_equal; [|same_world].
  f_equal. f_equal. destruct (truthy_string (hash pkg)) eqn:E; [rewrite E|]; reflexivity.
Qed.

End Run.
End CryptoRun.

(** ** The symbolic instance meets the contracts *)

Module SymbolicFacts.
Import Symbolic.

Lemma bytes_eqb_eq (a b : bytes) : bytes_eqb a b = true <-> a = b.
Proof.
  split.
  - revert b. induction a as [|x a IH]; intros [|y b] H; simpl in H;
      try reflexivity; try discriminate.
    apply andb_true_iff in H. destruct H as [Hxy Hab].
    apply Byte.byte_dec_bl in Hxy. apply IH in Hab. congruence.
  - intros <-. induction a as [|x a IH]; simpl; [reflexivity|].
    rewrite IH. now rewrite (Byte.byte_dec_lb (eq_refl x)).
Qed.

Lemma frame_prefix_free (a b x y : bytes) :
  frame a ++ x = frame b ++ y -> a = b /\ x = y.
Proof.
  revert b. induction a as [|c a IH]; intros [|d b] H; simpl in H.
  - inversion H. auto.
  - discriminate.
  - discriminate.
  - inversion H; subst. destruct (IH b H2) as [-> ->]. auto.
Qed.


Lemma div2_double (n : nat) : Nat.div2 (n + n) = n.
Proof.
  induction n as [|n IH]; [reflexivity|].
  replace (S n + S n)%nat with (S (S (n + n))) by lia. simpl. now rewrite IH.
Qed.

Lemma open_seal (key iv plaintext : bytes) :
  open key iv (seal key iv plaintext) = Some plaintext.
Proof.
  unfold open, seal. cbv zeta.
  rewrite app_assoc.
  rewrite firstn_app, Nat.sub_diag, firstn_all, firstn_O, app_nil_r.
  rewrite (proj2 (bytes_eqb_eq _ _) eq_refl).
  rewrite skipn_app, Nat.sub_diag, skipn_all, skipn_O, app_nil_l.
  rewrite length_app, div2_double.
  rewrite firstn_app, Nat.sub_diag, firstn_all, firstn_O, app_nil_r.
  rewrite skipn_app, Nat.sub_diag, skipn_all, skipn_O, app_nil_l.
  now rewrite (proj2 (bytes_eqb_eq _ _) eq_refl).
Qed.

(** What opens was sealed: an accepted ciphertext is the frame of the key
    and the nonce followed by the plaintext twice. *)
Lemma open_sound (key iv ciphertext plaintext : bytes) :
  open key iv ciphertext = Some plaintext ->
  ciphertext = seal key iv plaintext.
Proof.
  unfold open, seal. cbv zeta.
  set (header := frame key ++ frame iv).
  destruct (bytes_eqb (firstn (length header) ciphertext) header) eqn:Hh;
    [|discriminate].
  set (body := skipn (length header) ciphertext).
  destruct (bytes_eqb (firstn (Nat.div2 (length body)) body)
              (skipn (Nat.div2 (length body)) body)) eqn:Hb; [|discriminate].
  intro H. inversion H as [Hp]. clear H.
  apply bytes_eqb_eq in Hh, Hb.
  rewrite <- (firstn_skipn (length header) ciphertext), Hh.
  fold body. rewrite <- (firstn_skipn (Nat.div2 (length body)) body) at 1.
  rewrite <- Hb. unfold header. now rewrite <- app_assoc.
Qed.

Lemma symbolic_correct : aead_correct crypto.
Proof. intros key iv plaintext. apply open_seal. Qed.

Lemma symbolic_binds : aead_binds_key_and_nonce crypto.
Proof.
  intros key iv plaintext key' iv' H. cbn in *.
  destruct (open key' iv' (seal key iv plaintext)) as [q|] eqn:E; [|congruence].
  apply open_sound in E. unfold seal in E.
  apply frame_prefix_free in E. destruct E as [-> E].
  apply frame_prefix_free in E. destruct E as [-> _]. auto.
Qed.





(** The instance whose derivation pads the password meets the contracts of
    the cipher as well, and gives two salts two keys. *)
Lemma padded_correct : aead_correct Padded.crypto.
Proof. exact symbolic_correct. Qed.

Lemma padded_binds : aead_binds_key_and_nonce Padded.crypto.
Proof. exact symbolic_binds. Qed.

Lemma padded_kdf_salt_collision_free : kdf_salt_collision_free Padded.crypto.
Proof.
  intros password salt salt' it H. cbn in H.
  unfold Padded.derive, derive in H.
  apply app_inv_head in H.
  apply frame_prefix_free in H. apply H.
Qed.

End SymbolicFacts.

(** ** The engine: round trip, wrong password, tampering *)

Module EngineClaims.
Import CryptoHelper CryptoHelperFacts CryptoRun.

(** Decrypting what [encryptBuffer] made, under a password whose UTF-8
    encoding is that of the encrypting password. *)
Lemma decrypt_same_encoding (W : WebCrypto) (p : bytes) (pw pw' : jsstring) (w : World) :
  aead_correct W -> pw <> [] -> pw' <> [] -> str2ab pw' = str2ab pw ->
  exists pkg w',
    encryptBuffer (val p) (val pw) w = (Ok pkg, w')
    /\ forall w'', exists r,
         fst (decryptBuffer (val pkg) (val pw') w'') = Ok r
         /\ arrayBuffer r = p /\ ok r = true.
Proof.
  intros Hcorrect Hpw Hpw' Hsame.
  destruct (encryptBuffer_run p w Hpw) as (c64 & iv64 & s64 & h64 & Hc & Hi & Hs & Hh & Henc).
  eexists. eexists. split; [exact Henc|]. intro w''.
  set (saltb := map (entropy w) (seq (entropy_pos w) SALT_LENGTH)) in *.
  set (ivb := map (entropy w) (seq (entropy_pos w + SALT_LENGTH) IV_LENGTH)) in *.
  set (pkg := {| ciphertext := val c64; iv := val iv64; salt := val s64;
                 iterations := val PBKDF2_ITERATIONS; hash := val h64 |}).
  assert (Hopen : aes_gcm_open
            (pbkdf2 (str2ab pw') saltb (number_or (iterations pkg) PBKDF2_ITERATIONS))
            ivb (aes_gcm_seal (pbkdf2 (str2ab pw) saltb PBKDF2_ITERATIONS) ivb p)
          = Some p).
  { rewrite Hsame. apply Hcorrect. }
  rewrite (@decryptBuffer_opened W pkg pw' c64 _ ivb saltb p h64 w''
             eq_refl Hpw' Hc Hi Hs default_iterations_in_range Hopen Hh).
  eexists. split; [reflexivity|]. split; [reflexivity|].
  cbn. destruct h64 as [|c h64]; [reflexivity|].
  cbn [truthy_string strict_eq]. apply jsstring_eqb_refl.
Qed.

(** Decrypting what [encryptBuffer] made, under a password from which the
    salt of the package derives the key of the encrypting password. *)
Lemma decrypt_same_key (W : WebCrypto) (p : bytes) (pw pw' : jsstring) (w : World) :
  aead_correct W -> pw <> [] -> pw' <> [] ->
  pbkdf2 (str2ab pw') (map (entropy w) (seq (entropy_pos w) SALT_LENGTH))
    PBKDF2_ITERATIONS
  = pbkdf2 (str2ab pw) (map (entropy w) (seq (entropy_pos w) SALT_LENGTH))
      PBKDF2_ITERATIONS ->
  exists pkg w',
    encryptBuffer (val p) (val pw) w = (Ok pkg, w')
    /\ forall w'', exists r,
         fst (decryptBuffer (val pkg) (val pw') w'') = Ok r
         /\ arrayBuffer r = p /\ ok r = true.
Proof.
  intros Hcorrect Hpw Hpw' Hsame.
  destruct (encryptBuffer_run p w Hpw) as (c64 & iv64 & s64 & h64 & Hc & Hi & Hs & Hh & Henc).
  eexists. eexists. split; [exact Henc|]. intro w''.
  set (saltb := map (entropy w) (seq (entropy_pos w) SALT_LENGTH)) in *.
  set (ivb := map (entropy w) (seq (entropy_pos w + SALT_LENGTH) IV_LENGTH)) in *.
  set (pkg := {| ciphertext := val c64; iv := val iv64; salt := val s64;
                 iterations := val PBKDF2_ITERATIONS; hash := val h64 |}).
  assert (Hopen : aes_gcm_open
            (pbkdf2 (str2ab pw') saltb (number_or (iterations pkg) PBKDF2_ITERATIONS))
            ivb (aes_gcm_seal (pbkdf2 (str2ab pw) saltb PBKDF2_ITERATIONS) ivb p)
          = Some p).
  { change (number_or (iterations pkg) PBKDF2_ITERATIONS) with PBKDF2_ITERATIONS.
    fold saltb in Hsame. rewrite Hsame. apply Hcorrect. }
  rewrite (@decryptBuffer_opened W pkg pw' c64 _ ivb saltb p h64 w''
             eq_refl Hpw' Hc Hi Hs default_iterations_in_range Hopen Hh).
  eexists. split; [reflexivity|]. split; [reflexivity|].
  cbn. destruct h64 as [|c h64]; [reflexivity|].
  cbn [truthy_string strict_eq]. apply jsstring_eqb_refl.
Qed.

(** C1. Round trip: for every plaintext buffer [p] and every non-empty
    password [pw], [encryptBuffer] produces a package, and decrypting that
    package with the same password, in whatever world, returns [p] with the
    integrity flag [ok] true; the cipher is assumed to open what it sealed. *)
Theorem encrypt_decrypt_round_trip (W : WebCrypto) (p : bytes) (pw : jsstring) (w : World) :
  aead_correct W -> pw <> [] ->
  exists pkg w',
    encryptBuffer (val p) (val pw) w = (Ok pkg, w')
    /\ forall w'', exists r,
         fst (decryptBuffer (val pkg) (val pw) w'') = Ok r
         /\ arrayBuffer r = p /\ ok r = true.
Proof.
  intros Hcorrect Hpw. now apply decrypt_same_encoding.
Qed.

(** The scenario of the specification: "hello, world!" under "correct horse". *)
Lemma encrypt_decrypt_round_trip_witness :
  aead_correct Symbolic.crypto /\ Examples.correct_horse <> [] /\
  exists pkg w',
    encryptBuffer (W := Symbolic.crypto) (val Examples.hello)
      (val Examples.correct_horse) Examples.world0 = (Ok pkg, w')
    /\ forall w'', exists r,
         fst (decryptBuffer (W := Symbolic.crypto) (val pkg)
                (val Examples.correct_horse) w'') = Ok r
         /\ arrayBuffer r = Examples.hello /\ ok r = true.
Proof.
  split; [exact SymbolicFacts.symbolic_correct|].
  split; [discriminate|].
  apply (@encrypt_decrypt_round_trip Symbolic.crypto Examples.hello
           Examples.correct_horse Examples.world0).
  - exact SymbolicFacts.symbolic_correct.
  - discriminate.
Defined.


(** A password and the same password followed by U+0000 have two UTF-8
    encodings and, where the derivation pads its key as HMAC does, one key:
    the package made under "correct horse" opens under the longer one. *)
Lemma padded_password_same_key :
  Examples.correct_horse_nul <> Examples.correct_horse
  /\ str2ab Examples.correct_horse_nul <> str2ab Examples.correct_horse
  /\ exists pkg w',
       encryptBuffer (W := Padded.crypto) (val Examples.hello)
         (val Examples.correct_horse) Examples.world0 = (Ok pkg, w')
       /\ forall w'', exists r,
            fst (decryptBuffer (W := Padded.crypto) (val pkg)
                   (val Examples.correct_horse_nul) w'') = Ok r
            /\ arrayBuffer r = Examples.hello /\ ok r = true.
Proof.
  split; [vm_compute; discriminate|]. split; [vm_compute; discriminate|].
  apply (@decrypt_same_key Padded.crypto).
  - exact SymbolicFacts.padded_correct.
  - discriminate.
  - discriminate.
  - vm_compute. reflexivity.
Qed.



(** A field whose text is replaced by another text of the same bytes: the
    package decrypts as before. *)
Lemma reencoded_field_still_decrypts (W : WebCrypto) (p : bytes) (pw : jsstring)
    (w w' w'' : World) (pkg : Package) (f : binary_field) (s s' : jsstring) (b : bytes) :
  aead_correct W -> pw <> [] ->
  encryptBuffer (val p) (val pw) w = (Ok pkg, w') ->
  get_field f pkg = val s -> base642ab s = Ok b -> base642ab s' = Ok b ->
  exists r,
    fst (decryptBuffer (val (set_field f (val s') pkg)) (val pw) w'') = Ok r
    /\ arrayBuffer r = p.
Proof.
  intros Hcorrect Hpw H Hf Hb Hb'.
  destruct (encryptBuffer_run p w Hpw) as (c64 & iv64 & s64 & h64 & Hc & Hi & Hs & Hh & Henc).
  set (saltb := map (entropy w) (seq (entropy_pos w) SALT_LENGTH)) in *.
  set (ivb := map (entropy w) (seq (entropy_pos w + SALT_LENGTH) IV_LENGTH)) in *.
  set (key := pbkdf2 (str2ab pw) saltb PBKDF2_ITERATIONS) in *.
  set (pkg0 := {| ciphertext := val c64; iv := val iv64; salt := val s64;
                  iterations := val PBKDF2_ITERATIONS; hash := val h64 |}) in *.
  assert (Hpkg : pkg = pkg0) by congruence. subst pkg. clear H.
  assert (Hopen : aes_gcm_open key ivb (aes_gcm_seal key ivb p) = Some p)
    by apply Hcorrect.
  destruct f; cbn in Hf; injection Hf as <-; eexists.
  - rewrite Hc in Hb. injection Hb as <-.
    rewrite (@decryptBuffer_opened W (set_field Ciphertext (val s') pkg0) pw s' _
               ivb saltb p h64 w''
               eq_refl Hpw Hb' Hi Hs default_iterations_in_range Hopen Hh).
    split; reflexivity.
  - rewrite Hi in Hb. injection Hb as <-.
    rewrite (@decryptBuffer_opened W (set_field Nonce (val s') pkg0) pw c64 _
               ivb saltb p h64 w''
               eq_refl Hpw Hc Hb' Hs default_iterations_in_range Hopen Hh).
    split; reflexivity.
  - rewrite Hs in Hb. injection Hb as <-.
    rewrite (@decryptBuffer_opened W (set_field Salt (val s') pkg0) pw c64 _
               ivb saltb p h64 w''
               eq_refl Hpw Hc Hi Hb' default_iterations_in_range Hopen Hh).
    split; reflexivity.
Qed.


(** A ciphertext replaced by a sealing of another plaintext under the key
    and the nonce of the package is not rejected: that plaintext comes
    out. *)
Lemma resealed_ciphertext_not_rejected (W : WebCrypto) (p q : bytes) (pw : jsstring)
    (w w' w'' : World) (pkg : Package) (s' : jsstring) :
  aead_correct W -> pw <> [] ->
  encryptBuffer (val p) (val pw) w = (Ok pkg, w') ->
  base642ab s'
  = Ok (aes_gcm_seal
          (pbkdf2 (str2ab pw) (map (entropy w) (seq (entropy_pos w) SALT_LENGTH))
             PBKDF2_ITERATIONS)
          (map (entropy w) (seq (entropy_pos w + SALT_LENGTH) IV_LENGTH)) q) ->
  exists r,
    fst (decryptBuffer (val (set_field Ciphertext (val s') pkg)) (val pw) w'') = Ok r
    /\ arrayBuffer r = q.
Proof.
  intros Hcorrect Hpw H Hb'.
  destruct (encryptBuffer_run p w Hpw) as (c64 & iv64 & s64 & h64 & Hc & Hi & Hs & Hh & Henc).
  set (saltb := map (entropy w) (seq (entropy_pos w) SALT_LENGTH)) in *.
  set (ivb := map (entropy w) (seq (entropy_pos w + SALT_LENGTH) IV_LENGTH)) in *.
  set (key := pbkdf2 (str2ab pw) saltb PBKDF2_ITERATIONS) in *.
  set (pkg0 := {| ciphertext := val c64; iv := val iv64; salt := val s64;
                  iterations := val PBKDF2_ITERATIONS; hash := val h64 |}) in *.
  assert (Hpkg : pkg = pkg0) by congruence. subst pkg. clear H.
  assert (Hopen : aes_gcm_open key ivb (aes_gcm_seal key ivb q) = Some q)
    by apply Hcorrect.
  destruct (ab2base64_base642ab (sha256 q)) as (hq & Hhq & _).
  eexists.
  rewrite (@decryptBuffer_opened W (set_field Ciphertext (val s') pkg0) pw s' _
             ivb saltb q hq w''
             eq_refl Hpw Hb' Hi Hs default_iterations_in_range Hopen Hhq).
  split; reflexivity.
Qed.



(** [deriveKeyFromPassword] on the empty password: a key comes out. *)
Lemma derive_accepts_empty_password :
  deriveKeyFromPassword (W := Symbolic.crypto) (val [])
    (map (entropy Examples.world0) (seq 0 SALT_LENGTH)) PBKDF2_ITERATIONS Examples.world0
  = (Ok (Symbolic.derive [] (map (entropy Examples.world0) (seq 0 SALT_LENGTH))
           PBKDF2_ITERATIONS),
     logged [CallImportKey [];
             CallDeriveKey [] (map (entropy Examples.world0) (seq 0 SALT_LENGTH))
               PBKDF2_ITERATIONS] Examples.world0).
Proof. vm_compute. reflexivity. Qed.

(** C4, amended. The empty password is refused with 'password must be a
    non-empty string' by [encryptBuffer] and by [decryptBuffer], for every
    buffer and every package, before any key is derived: the world, its log
    of [crypto.subtle] calls included, is left as it was.
    [deriveKeyFromPassword] itself refuses only a password that is not a
    string: for the empty string, every salt and every iteration count of
    an unsigned long but zero, it derives a key. *)
Theorem empty_password_refused_by_callers (W : WebCrypto) (w : World) :
  (forall p : bytes, encryptBuffer (val p) (val []) w = (Err PasswordEmpty, w)) /\
  (forall (pkg : Package) (c64 : jsstring),
     ciphertext pkg = val c64 ->
     decryptBuffer (val pkg) (val []) w = (Err PasswordEmpty, w)) /\
  (forall (saltb : bytes) (n : Z),
     (0 < n < 2 ^ 32)%Z ->
     deriveKeyFromPassword (val []) saltb n w
     = (Ok (pbkdf2 [] saltb n),
        logged [CallImportKey []; CallDeriveKey [] saltb n] w)) /\
  (forall (saltb : bytes) (n : Z),
     deriveKeyFromPassword undefined saltb n w = (Err PasswordMustBeString, w) /\
     deriveKeyFromPassword null saltb n w = (Err PasswordMustBeString, w)).
Proof.
  split; [|split; [|split]].
  - intro p. reflexivity.
  - intros pkg c64 Hc. unfold decryptBuffer. rewrite Hc. reflexivity.
  - intros saltb n Hn. unfold deriveKeyFromPassword. run_monad.
    change (str2ab []) with (@nil byte).
    rewrite (in_range_true Hn). f_equal. same_world.
  - intros saltb n. split; reflexivity.
Qed.

Lemma empty_password_refused_by_callers_witness :
  encryptBuffer (W := Symbolic.crypto) (val Examples.hello) (val []) Examples.world0
  = (Err PasswordEmpty, Examples.world0)
  /\ deriveKeyFromPassword (W := Symbolic.crypto) (val []) [] 1 Examples.world0
     = (Ok (Symbolic.derive [] [] 1),
        logged [CallImportKey []; CallDeriveKey [] [] 1%Z] Examples.world0).
Proof.
  destruct (@empty_password_refused_by_callers Symbolic.crypto Examples.world0)
    as (Henc & _ & Hderive & _).
  split.
  - apply Henc.
  - apply Hderive. lia.
Defined.

Lemma strict_eq_true (h : jsstring) (v : js jsstring) :
  strict_eq h v = true <-> v = val h.
Proof.
  destruct v as [| |e]; cbn; try (split; [discriminate|congruence]).
  rewrite jsstring_eqb_eq. split; congruence.
Qed.

(** C7. Whenever the cipher opens the ciphertext of a package,
    [decryptBuffer] returns (it does not raise) the plaintext with the
    fingerprint recomputed over it, and [ok] tells whether the stored
    fingerprint is that one; a package with no fingerprint ([undefined],
    [null] or the empty text) gets [ok] true. *)
Theorem integrity_flag_reported (W : WebCrypto) (pkg : Package) (pw c64 : jsstring)
    (cb ivb sb pt : bytes) (w : World) :
  ciphertext pkg = val c64 -> pw <> [] ->
  base642ab c64 = Ok cb ->
  base642ab (to_string (iv pkg)) = Ok ivb ->
  base642ab (to_string (salt pkg)) = Ok sb ->
  (0 < number_or (iterations pkg) PBKDF2_ITERATIONS < 2 ^ 32)%Z ->
  aes_gcm_open
    (pbkdf2 (str2ab pw) sb (number_or (iterations pkg) PBKDF2_ITERATIONS)) ivb cb
  = Some pt ->
  exists r w',
    decryptBuffer (val pkg) (val pw) w = (Ok r, w')
    /\ arrayBuffer r = pt
    /\ ab2base64 (sha256 pt) = Ok (computedHash r)
    /\ (truthy_string (hash pkg) = true ->
        (ok r = true <-> hash pkg = val (computedHash r)))
    /\ (hash pkg = undefined \/ hash pkg = null \/ hash pkg = val [] -> ok r = true).
Proof.
  intros Hc Hpw Hcb Hiv Hsalt Hit Hopen.
  destruct (ab2base64_base642ab (sha256 pt)) as (h & Hh & _).
  eexists. eexists. split.
  { apply (decryptBuffer_opened pkg w Hc Hpw Hcb Hiv Hsalt Hit Hopen Hh). }
  cbn [arrayBuffer ok computedHash].
  split; [reflexivity|]. split; [exact Hh|]. split.
  - intros ->. apply strict_eq_true.
  - intros [-> | [-> | ->]]; reflexivity.
Qed.

(** A package whose stored fingerprint is not that of its plaintext:
    [decryptBuffer] returns the plaintext with [ok] false. *)
Lemma integrity_flag_reported_witness :
  exists r w',
    decryptBuffer (W := Symbolic.crypto)
      (val (set_hash (val Examples.other_fingerprint) Examples.package0))
      (val Examples.correct_horse) Examples.world1 = (Ok r, w')
    /\ arrayBuffer r = Examples.hello
    /\ ok r = false.
Proof.
  edestruct (@integrity_flag_reported Symbolic.crypto
               (set_hash (val Examples.other_fingerprint) Examples.package0)
               Examples.correct_horse)
    as (r & w' & Hrun & Harr & Hh & Hiff & _).
  - vm_compute. reflexivity.
  - discriminate.
  - vm_compute. reflexivity.
  - vm_compute. reflexivity.
  - vm_compute. reflexivity.
  - vm_compute. split; reflexivity.
  - vm_compute. reflexivity.
  - exists r, w'. split; [exact Hrun|]. split; [exact Harr|].
    destruct (ok r) eqn:E; [|reflexivity].
    exfalso.
    assert (Hhash : hash (set_hash (val Examples.other_fingerprint) Examples.package0)
                    = val (computedHash r)) by (apply Hiff; reflexivity).
    cbn [hash set_hash] in Hhash. injection Hhash as Hhash.
    rewrite <- Hhash in Hh. vm_compute in Hh. discriminate.
Defined.

Lemma crypto_log_logged (calls : list crypto_call) (w : World) :
  crypto_log (logged calls w) = crypto_log w ++ calls.
Proof. reflexivity. Qed.

(** C10. A package whose [iterations] field is absent, [null] or zero is
    decrypted with the key derived under the default count 200000: the
    field does not make [decryptBuffer] fail, and a stored count is the one
    used only when it is a number other than zero. The count shows in the
    [deriveKey] call, and it is under the key of that count that the cipher
    decides between the plaintext and 'Decryption failed'. *)
Theorem absent_iterations_use_default (W : WebCrypto) (pkg : Package)
    (pw c64 : jsstring) (cb ivb sb : bytes) (w : World) :
  ciphertext pkg = val c64 -> pw <> [] ->
  base642ab c64 = Ok cb ->
  base642ab (to_string (iv pkg)) = Ok ivb ->
  base642ab (to_string (salt pkg)) = Ok sb ->
  let used := match iterations pkg with
              | undefined | null => 200000%Z
              | val n => if (n =? 0)%Z then 200000%Z else n
              end in
  (exists rest,
     crypto_log (snd (decryptBuffer (val pkg) (val pw) w))
     = crypto_log w
         ++ CallImportKey (str2ab pw) :: CallDeriveKey (str2ab pw) sb used :: rest)
  /\ ((0 < used < 2 ^ 32)%Z ->
      (fst (decryptBuffer (val pkg) (val pw) w) = Err DecryptionFailed
       <-> aes_gcm_open (pbkdf2 (str2ab pw) sb used) ivb cb = None)).
Proof.
  intros Hc Hpw Hcb Hiv Hsalt used.
  assert (Hused : number_or (iterations pkg) PBKDF2_ITERATIONS = used).
  { unfold used, number_or, truthy_number.
    destruct (iterations pkg) as [| |n]; try reflexivity.
    now destruct (n =? 0)%Z. }
  destruct (Z_lt_dec 0 used) as [H0|H0];
    [destruct (Z_lt_dec used (2 ^ 32)) as [H1|H1]|].
  - assert (Hit : (0 < number_or (iterations pkg) PBKDF2_ITERATIONS < 2 ^ 32)%Z)
      by (rewrite Hused; lia).
    destruct (aes_gcm_open (pbkdf2 (str2ab pw) sb used) ivb cb) as [pt|] eqn:E.
    + destruct (ab2base64_base642ab (sha256 pt)) as (h & Hh & _).
      rewrite <- Hused in E.
      rewrite (decryptBuffer_opened pkg w Hc Hpw Hcb Hiv Hsalt Hit E Hh).
      cbn [fst snd]. rewrite crypto_log_logged, Hused. split.
      * eexists. reflexivity.
      * intros _. split; discriminate.
    + rewrite <- Hused in E.
      rewrite (decryptBuffer_rejected pkg w Hc Hpw Hcb Hiv Hsalt Hit E).
      cbn [fst snd]. rewrite crypto_log_logged, Hused. split.
      * eexists. reflexivity.
      * intros _. split; reflexivity.
  - assert (Hit : ~ (0 < number_or (iterations pkg) PBKDF2_ITERATIONS < 2 ^ 32)%Z)
      by (rewrite Hused; lia).
    rewrite (decryptBuffer_bad_iterations pkg w Hc Hpw Hcb Hiv Hsalt Hit).
    cbn [fst snd]. rewrite crypto_log_logged, Hused. split.
    + eexists. reflexivity.
    + intros [_ Hlt]. contradiction.
  - assert (Hit : ~ (0 < number_or (iterations pkg) PBKDF2_ITERATIONS < 2 ^ 32)%Z)
      by (rewrite Hused; lia).
    rewrite (decryptBuffer_bad_iterations pkg w Hc Hpw Hcb Hiv Hsalt Hit).
    cbn [fst snd]. rewrite crypto_log_logged, Hused. split.
    + eexists. reflexivity.
    + intros [Hgt _]. contradiction.
Qed.

(** The package of [hello] with its [iterations] field taken away: the key
    is derived with 200000 and the plaintext comes back. *)
Lemma absent_iterations_use_default_witness :
  (exists rest,
     crypto_log (snd (decryptBuffer (W := Symbolic.crypto)
                        (val (set_iterations undefined Examples.package0))
                        (val Examples.correct_horse) Examples.world0))
     = CallImportKey (str2ab Examples.correct_horse)
         :: CallDeriveKey (str2ab Examples.correct_horse)
              (map (entropy Examples.world0) (seq 0 SALT_LENGTH)) 200000%Z
         :: rest)
  /\ fst (decryptBuffer (W := Symbolic.crypto)
            (val (set_iterations undefined Examples.package0))
            (val Examples.correct_horse) Examples.world0) <> Err DecryptionFailed.
Proof.
  edestruct (@absent_iterations_use_default Symbolic.crypto
               (set_iterations undefined Examples.package0)
               Examples.correct_horse) as [Hlog Hiff].
  - vm_compute. reflexivity.
  - discriminate.
  - vm_compute. reflexivity.
  - vm_compute. reflexivity.
  - vm_compute. reflexivity.
  - split.
    + exact Hlog.
    + intro H. apply Hiff in H; [|cbn; lia]. vm_compute in H. discriminate.
Defined.

End EngineClaims.

(** ** script.js: what leaves the session alone *)

Module SessionFrame.
Import CryptoHelper.

Create HintDb session.

Lemma keeps_ret (A : Type) (a : A) : keeps_session (ret a).
Proof. intro w. split; reflexivity. Qed.

Lemma keeps_throw (A : Type) (e : error) : keeps_session (@throw A e).
Proof. intro w. split; reflexivity. Qed.

Lemma keeps_lift (A : Type) (r : result A) : keeps_session (lift r).
Proof. intro w. split; reflexivity. Qed.

Lemma keeps_gets (A : Type) (f : World -> A) : keeps_session (gets f).
Proof. intro w. split; reflexivity. Qed.

Lemma keeps_bind (A B : Type) (m : M A) (f : A -> M B) :
  keeps_session m -> (forall a, keeps_session (f a)) -> keeps_session (bind m f).
Proof.
  intros Hm Hf w. unfold bind. destruct (Hm w) as [Hm1 Hm2].
  destruct (m w) as [[a|e] w1]; cbn [snd] in *.
  - destruct (Hf a w1) as [H1 H2]. split; congruence.
  - split; assumption.
Qed.

Lemma keeps_try_catch (A : Type) (m : M A) (h : error -> M A) :
  keeps_session m -> (forall e, keeps_session (h e)) -> keeps_session (try_catch m h).
Proof.
  intros Hm Hh w. unfold try_catch. destruct (Hm w) as [Hm1 Hm2].
  destruct (m w) as [[a|e] w1]; cbn [snd] in *.
  - split; assumption.
  - destruct (Hh e w1) as [H1 H2]. split; congruence.
Qed.

Lemma keeps_log_call (c : crypto_call) : keeps_session (log_call c).
Proof. intro w. split; reflexivity. Qed.

Lemma keeps_getRandomValues (n : nat) : keeps_session (getRandomValues n).
Proof. intro w. split; reflexivity. Qed.

Lemma keeps_showMessage (msg : message) (type : level) :
  keeps_session (Script.showMessage msg type).
Proof. intro w. split; reflexivity. Qed.

Lemma keeps_confirm : keeps_session Script.confirm.
Proof. intro w. split; reflexivity. Qed.

Lemma keeps_refreshFileList : keeps_session Script.refreshFileList.
Proof. intro w. split; reflexivity. Qed.

Lemma keeps_saveFile (r : FileRecord) : keeps_session (DB.saveFile r).
Proof. intro w. unfold DB.saveFile. destruct (name r); split; reflexivity. Qed.

Lemma keeps_getFile (n : jsstring) : keeps_session (DB.getFile n).
Proof. intro w. split; reflexivity. Qed.

Lemma keeps_deleteFile (n : jsstring) : keeps_session (DB.deleteFile n).
Proof. intro w. split; reflexivity. Qed.

Lemma keeps_getAllFiles : keeps_session DB.getAllFiles.
Proof. intro w. split; reflexivity. Qed.

#[export] Hint Resolve keeps_ret keeps_throw keeps_lift keeps_gets keeps_bind
  keeps_try_catch keeps_log_call keeps_getRandomValues keeps_showMessage
  keeps_confirm keeps_refreshFileList keeps_saveFile keeps_getFile
  keeps_deleteFile keeps_getAllFiles : session.

(** Splits a computation along its binds and its case distinctions. *)
Ltac frame :=
  repeat first
    [ progress auto with session
    | apply keeps_bind; [|intro]
    | apply keeps_try_catch; [|intro]
    | match goal with
      | |- keeps_session (match ?x with _ => _ end) => destruct x
      | |- keeps_session (if ?b then _ else _) => destruct b
      end ].

Section WithCrypto.
Context {W : WebCrypto}.

Lemma keeps_subtle_importKey (k : bytes) : keeps_session (subtle_importKey k).
Proof. unfold subtle_importKey. frame. Qed.

Lemma keeps_subtle_deriveKey (k s : bytes) (n : Z) : keeps_session (subtle_deriveKey k s n).
Proof. unfold subtle_deriveKey. frame. Qed.

Lemma keeps_subtle_digest (d : bytes) : keeps_session (subtle_digest d).
Proof. unfold subtle_digest. frame. Qed.

Lemma keeps_subtle_encrypt (k : CryptoKey) (i p : bytes) : keeps_session (subtle_encrypt k i p).
Proof. unfold subtle_encrypt. frame. Qed.

Lemma keeps_subtle_decrypt (k : CryptoKey) (i c : bytes) : keeps_session (subtle_decrypt k i c).
Proof. unfold subtle_decrypt. frame. Qed.

Hint Resolve keeps_subtle_importKey keeps_subtle_deriveKey keeps_subtle_digest
  keeps_subtle_encrypt keeps_subtle_decrypt : session.

Lemma keeps_deriveKeyFromPassword (pw : js jsstring) (s : bytes) (n : Z) :
  keeps_session (deriveKeyFromPassword pw s n).
Proof. unfold deriveKeyFromPassword. frame. Qed.

Lemma keeps_hashBufferToBase64 (b : bytes) : keeps_session (hashBufferToBase64 b).
Proof. unfold hashBufferToBase64. frame. Qed.

Hint Resolve keeps_deriveKeyFromPassword keeps_hashBufferToBase64 : session.

Lemma keeps_encryptBuffer (buffer : js bytes) (pw : js jsstring) :
  keeps_session (encryptBuffer buffer pw).
Proof. unfold encryptBuffer, randomBytes. frame. Qed.

Lemma keeps_decryptBuffer (pkg : js Package) (pw : js jsstring) :
  keeps_session (decryptBuffer pkg pw).
Proof. unfold decryptBuffer. frame. Qed.

Hint Resolve keeps_encryptBuffer keeps_decryptBuffer : session.

Lemma keeps_createEncryptedFileRecord (n : jsstring) (b : js bytes) (pw : js jsstring) :
  keeps_session (createEncryptedFileRecord n b pw).
Proof. unfold createEncryptedFileRecord. frame. Qed.

Hint Resolve keeps_createEncryptedFileRecord : session.

Lemma keeps_add_files (fileList : list File) : keeps_session (Script.add_files fileList).
Proof.
  induction fileList as [|file rest IH]; cbn [Script.add_files]; frame.
Qed.

Lemma keeps_downloadFile (n : jsstring) : keeps_session (Script.downloadFile n).
Proof.
  unfold Script.downloadFile. frame.
Qed.

Hint Resolve keeps_add_files keeps_downloadFile : session.

Lemma keeps_download_each (checked : list jsstring) :
  keeps_session (Script.download_each checked).
Proof.
  induction checked as [|n rest IH]; cbn [Script.download_each]; frame.
Qed.

Lemma keeps_delete_each (checked : list jsstring) :
  keeps_session (Script.delete_each checked).
Proof.
  induction checked as [|n rest IH]; cbn [Script.delete_each]; frame.
Qed.

Lemma keeps_delete_all (files : list FileRecord) :
  keeps_session (Script.delete_all files).
Proof.
  induction files as [|file rest IH]; cbn [Script.delete_all]; frame.
Qed.

Hint Resolve keeps_download_each keeps_delete_each keeps_delete_all : session.

Lemma keeps_handleFilesAdded (fileList : list File) :
  keeps_session (Script.handleFilesAdded fileList).
Proof. unfold Script.handleFilesAdded. frame. Qed.

Lemma keeps_filesChosen (files : list File) : keeps_session (Script.filesChosen files).
Proof.
  destruct files; cbn [Script.filesChosen]; auto using keeps_handleFilesAdded with session.
Qed.

Lemma keeps_fileActionClick (n : jsstring) : keeps_session (Script.fileActionClick n).
Proof. unfold Script.fileActionClick. frame. Qed.

Lemma keeps_downloadBtnClick (checked : list jsstring) :
  keeps_session (Script.downloadBtnClick checked).
Proof. unfold Script.downloadBtnClick, Script.downloadSelected. frame. Qed.

Lemma keeps_deleteBtnClick (checked : list jsstring) :
  keeps_session (Script.deleteBtnClick checked).
Proof. unfold Script.deleteBtnClick, Script.deleteSelected. frame. Qed.

End WithCrypto.
End SessionFrame.

(** ** script.js: the unlock protocol *)

(** ** An add in flight *)
Module InFlightFacts.
Import CryptoHelper CryptoHelperFacts CryptoRun Script InFlight.

Section WithCrypto.
Context {W : WebCrypto}.

(** With nothing in between, the two halves are [handleFilesAdded]. *)
Lemma handleFilesAdded_around_nothing (file : File) (w : World) :
  handleFilesAdded_around file (ret tt) w = handleFilesAdded [file] w.
Proof.
  unfold handleFilesAdded_around, handleFilesAdded, handleFilesAdded_to_key,
    handleFilesAdded_from_key.
  cbn [add_files].
  unfold createEncryptedFileRecord, encryptBuffer, hashBufferToBase64,
    deriveKeyFromPassword, subtle_importKey, subtle_deriveKey, subtle_digest,
    subtle_encrypt, log_call, randomBytes, getRandomValues, DB.getFile, DB.saveFile,
    showMessage, refreshFileList, confirm, try_catch, bind, gets, modify, lift, ret,
    throw.
  cbv beta iota.
  change ((0 <? PBKDF2_ITERATIONS)%Z && (PBKDF2_ITERATIONS <? 2 ^ 32)%Z) with true.
  cbv beta iota.
  destruct (unlocked w); cbn [negb orb]; [|reflexivity].
  destruct (sessionPassword w) as [| |[|c pw]] eqn:Hs; cbn [truthy_string negb];
    try reflexivity.
  destruct (DB.get (file_name file) (db w)) as [old|]; cbv beta iota.
  - destruct (confirm_answers w (confirm_pos w)); cbv beta iota; [|reflexivity].
    cbn [sessionPassword set_confirm_pos]. rewrite Hs. cbv beta iota.
    cbn [pending_file pending_salt pending_iv pending_key].
    repeat match goal with
           | |- context [match ab2base64 ?x with _ => _ end] =>
               destruct (ab2base64 x); [|reflexivity]
           end.
    cbn [name]. destruct (file_name file); reflexivity.
  - rewrite Hs. cbv beta iota.
    cbn [pending_file pending_salt pending_iv pending_key].
    repeat match goal with
           | |- context [match ab2base64 ?x with _ => _ end] =>
               destruct (ab2base64 x); [|reflexivity]
           end.
    cbn [name]. destruct (file_name file); reflexivity.
Qed.



End WithCrypto.

(** An add in flight across a reset. notes.txt is dropped on an unlocked
    page; while its key is awaited the reset is confirmed, which empties
    the store and locks the session; then the add goes on: on a locked page
    that holds no password it digests and seals the file and puts the
    record into the store. *)
Lemma add_in_flight_runs_while_locked :
  exists held w1 w2 w3,
    handleFilesAdded_to_key (W := Symbolic.crypto) Examples.notes_file
      (Scenes.session_over []) = (Ok (Some held), w1)
    /\ unlocked w1 = true
    /\ resetYesClick w1 = (Ok tt, w2)
    /\ unlocked w2 = false /\ sessionPassword w2 = null /\ db w2 = []
    /\ handleFilesAdded_from_key (W := Symbolic.crypto) held w2 = (Ok tt, w3)
    /\ unlocked w3 = false /\ sessionPassword w3 = null
    /\ crypto_log w3
       = crypto_log w2
         ++ [CallDigest Examples.hello; CallEncrypt (pending_iv held) Examples.hello]
    /\ db w3 = [Examples.record0]
    /\ handleFilesAdded_around (W := Symbolic.crypto) Examples.notes_file
         resetYesClick (Scenes.session_over []) = (Ok tt, w3).
Proof.
  eexists. eexists. eexists. eexists.
  split; [vm_compute; reflexivity|].
  split; [reflexivity|].
  split; [vm_compute; reflexivity|].
  split; [reflexivity|]. split; [reflexivity|]. split; [reflexivity|].
  split; [vm_compute; reflexivity|].
  split; [reflexivity|]. split; [reflexivity|].
  split; [vm_compute; reflexivity|].
  split; [vm_compute; reflexivity|].
  vm_compute. reflexivity.
Qed.

End InFlightFacts.

Module SessionClaims.
Import CryptoHelper Script SessionFrame.

Ltac run_script :=
  unfold tryUnlock, resetYesClick, lockClick, init, setUnlockedState, showMessage,
    refreshFileList, DB.getAllFiles, page_load, bind, try_catch, gets, modify, ret;
  cbv beta iota.

Section WithCrypto.
Context {W : WebCrypto}.

(** [tryUnlock] over an empty store. *)
Lemma tryUnlock_empty_store (password : jsstring) (w : World) :
  db w = [] ->
  tryUnlock password w =
    (Ok true,
     shown MsgUnlockedNoFiles info
       (set_unlocked true (set_sessionPassword (val password) w))).
Proof.
  intro Hdb. run_script. cbn [db]. rewrite Hdb. reflexivity.
Qed.

(** [tryUnlock] over a store whose first record decrypts. *)
Lemma tryUnlock_sample_decrypts (password : jsstring) (w w1 : World)
    (sample : FileRecord) (rest : list FileRecord) (r : Decrypted) :
  db w = sample :: rest ->
  decryptBuffer (val (package_of sample)) (val password) w = (Ok r, w1) ->
  tryUnlock password w =
    (Ok true,
     shown MsgUnlocked info
       (set_unlocked true (set_sessionPassword (val password) w1))).
Proof.
  intros Hdb Hdec. run_script. cbn [db]. rewrite Hdb, Hdec. reflexivity.
Qed.

(** [tryUnlock] over a store whose first record raises, whatever the error. *)
Lemma tryUnlock_sample_raises (password : jsstring) (w w1 : World)
    (sample : FileRecord) (rest : list FileRecord) (e : error) :
  db w = sample :: rest ->
  decryptBuffer (val (package_of sample)) (val password) w = (Err e, w1) ->
  tryUnlock password w =
    (Ok false,
     shown MsgWrongPassword error_level
       (set_sessionPassword null (set_unlocked false w1))).
Proof.
  intros Hdb Hdec. run_script. cbn [db]. rewrite Hdb, Hdec. reflexivity.
Qed.

(** After [tryUnlock], a locked session holds no password. *)
Lemma tryUnlock_locked_without_password (password : jsstring) (w : World) :
  unlocked (snd (tryUnlock password w)) = false ->
  sessionPassword (snd (tryUnlock password w)) = null.
Proof.
  destruct (db w) as [|sample rest] eqn:Hdb.
  - rewrite (tryUnlock_empty_store password w Hdb). discriminate.
  - destruct (decryptBuffer (val (package_of sample)) (val password) w)
      as [[r|e] w1] eqn:Hdec.
    + rewrite (tryUnlock_sample_decrypts password w Hdb Hdec). discriminate.
    + rewrite (tryUnlock_sample_raises password w Hdb Hdec). reflexivity.
Qed.

Lemma resetYesClick_clears (w : World) :
  sessionPassword (snd (resetYesClick w)) = null.
Proof.
  unfold resetYesClick, DB.getAllFiles, gets. unfold bind at 1.
  unfold bind at 1.
  destruct (delete_all (db w) w) as [[u|e] w1] eqn:E.
  - reflexivity.
  - exfalso. revert E. generalize (db w) at 1. intro files. revert w.
    induction files as [|file rest IH]; intros w E; cbn in E; [discriminate|].
    unfold bind, DB.deleteFile, modify, ret in E. cbn in E.
    apply IH in E. exact E.
Qed.

Lemma lockClick_clears (w : World) : sessionPassword (snd (lockClick w)) = null.
Proof. reflexivity. Qed.

(** Every event leaves a locked session without a password, if the session
    it found was so. *)
Lemma handle_locked_without_password (e : event) (w : World) :
  (unlocked w = false -> sessionPassword w = null) ->
  unlocked (snd (handle e w)) = false ->
  sessionPassword (snd (handle e w)) = null.
Proof.
  intros Hinv.
  assert (Hkeep : forall m : M unit,
             keeps_session m ->
             unlocked (snd (m w)) = false -> sessionPassword (snd (m w)) = null).
  { intros m Hm Hu. destruct (Hm w) as [H1 H2]. rewrite H1. apply Hinv. congruence. }
  destruct e as [files|n|checked|checked|pwd| |]; cbn [handle].
  - apply Hkeep, keeps_filesChosen.
  - apply Hkeep, keeps_fileActionClick.
  - apply Hkeep, keeps_downloadBtnClick.
  - apply Hkeep, keeps_deleteBtnClick.
  - destruct pwd as [|c pwd].
    + apply Hkeep. apply keeps_showMessage.
    + unfold unlockClick.
      assert (Hsnd : snd ((tryUnlock (c :: pwd) ;;; ret tt) w)
                     = snd (tryUnlock (c :: pwd) w)).
      { unfold bind. destruct (tryUnlock (c :: pwd) w) as [[b|err] w1]; reflexivity. }
      rewrite Hsnd. apply tryUnlock_locked_without_password.
  - intros _. apply resetYesClick_clears.
  - intros _. apply lockClick_clears.
Qed.

Lemma reachable_locked_without_password (w : World) :
  reachable w -> unlocked w = false -> sessionPassword w = null.
Proof.
  induction 1 as [w0|w e Hreach IH].
  - reflexivity.
  - now apply handle_locked_without_password.
Qed.

End WithCrypto.

(** A first record that raises an error other than 'Decryption failed':
    [tryUnlock] refuses the password all the same. *)
Lemma tryUnlock_refuses_on_other_error :
  fst (decryptBuffer (W := Symbolic.crypto)
         (val (package_of Examples.record_without_ciphertext))
         (val Examples.correct_horse) Examples.world_with_bad_record)
  = Err InvalidPackage
  /\ InvalidPackage <> DecryptionFailed
  /\ fst (tryUnlock (W := Symbolic.crypto) Examples.correct_horse
            Examples.world_with_bad_record) = Ok false
  /\ unlocked (snd (tryUnlock (W := Symbolic.crypto) Examples.correct_horse
                      Examples.world_with_bad_record)) = false
  /\ sessionPassword (snd (tryUnlock (W := Symbolic.crypto) Examples.correct_horse
                             Examples.world_with_bad_record)) = null.
Proof.
  split; [reflexivity|]. split; [discriminate|].
  split; [reflexivity|]. split; reflexivity.
Qed.

(** C5, amended. Over an empty store [tryUnlock] accepts: it returns true
    with the session password set to the password given and the session
    unlocked. Over any other store it decrypts the first record of the store
    and no other; when that decryption returns, it accepts in the same way;
    when it raises, whatever the error, it returns false, the session is
    locked with no password, and 'Wrong password. Unlock failed.' is shown
    as an error. *)
Theorem tryUnlock_accepts_iff_sample_decrypts (W : WebCrypto) (password : jsstring)
    (w : World) :
  match db w with
  | [] =>
      tryUnlock password w =
        (Ok true,
         shown MsgUnlockedNoFiles info
           (set_unlocked true (set_sessionPassword (val password) w)))
  | sample :: _ =>
      match decryptBuffer (val (package_of sample)) (val password) w with
      | (Ok _, w1) =>
          tryUnlock password w =
            (Ok true,
             shown MsgUnlocked info
               (set_unlocked true (set_sessionPassword (val password) w1)))
      | (Err _, w1) =>
          tryUnlock password w =
            (Ok false,
             shown MsgWrongPassword error_level
               (set_sessionPassword null (set_unlocked false w1)))
      end
  end.
Proof.
  destruct (db w) as [|sample rest] eqn:Hdb.
  - now apply tryUnlock_empty_store.
  - destruct (decryptBuffer (val (package_of sample)) (val password) w)
      as [[r|e] w1] eqn:Hdec.
    + now apply (tryUnlock_sample_decrypts password w Hdb Hdec).
    + now apply (tryUnlock_sample_raises password w Hdb Hdec).
Qed.


Lemma delete_all_run (W : WebCrypto) (files : list FileRecord) (w : World) :
  exists w', delete_all files w = (Ok tt, w') /\ crypto_log w' = crypto_log w.
Proof.
  revert w. induction files as [|file rest IH]; intro w; cbn [delete_all].
  - exists w. split; reflexivity.
  - unfold bind at 1. unfold DB.deleteFile, bind, modify, ret. cbv beta iota.
    destruct (IH (set_db (DB.delete (name file) (db w)) w)) as (w' & Hrun & Hlog).
    exists w'. split; [exact Hrun|]. rewrite Hlog. reflexivity.
Qed.



(** C9. In every state the page can be in, a locked session holds no
    password; so after every event that leaves the session locked, and
    after [setUnlockedState(false)], the session password is [null]. *)
Theorem locked_session_holds_no_password (W : WebCrypto) (w : World) :
  reachable w ->
  (unlocked w = false -> sessionPassword w = null)
  /\ (forall e,
        unlocked (snd (handle e w)) = false ->
        sessionPassword (snd (handle e w)) = null)
  /\ (unlocked (snd (setUnlockedState false w)) = false
      /\ sessionPassword (snd (setUnlockedState false w)) = null).
Proof.
  intro Hreach. split; [|split].
  - now apply reachable_locked_without_password.
  - intros e. apply (reachable_locked_without_password (reach_event e Hreach)).
  - split; reflexivity.
Qed.

(** Unlocking the page over the empty store and then locking it. *)
Lemma locked_session_holds_no_password_witness :
  let unlocked0 :=
    snd (handle (W := Symbolic.crypto) (UnlockClick Examples.correct_horse)
           Examples.loaded0) in
  unlocked unlocked0 = true
  /\ sessionPassword unlocked0 = val Examples.correct_horse
  /\ unlocked (snd (handle (W := Symbolic.crypto) LockClick unlocked0)) = false
  /\ sessionPassword (snd (handle (W := Symbolic.crypto) LockClick unlocked0)) = null.
Proof.
  intro unlocked0.
  split; [reflexivity|]. split; [reflexivity|]. split; [reflexivity|].
  destruct (@locked_session_holds_no_password Symbolic.crypto unlocked0)
    as (_ & Hevent & _).
  - unfold unlocked0. apply reach_event. apply reach_load.
  - apply Hevent. reflexivity.
Defined.

End SessionClaims.

(** ** [TextEncoder.encode] on well-formed strings *)
Module Utf8Facts.
Import Utf8.
Local Open Scope N_scope.

Lemma byte_of_N_inj (x y : N) : byte_of_N x = byte_of_N y -> x mod 256 = y mod 256.
Proof.
  unfold byte_of_N. intros H.
  destruct (Byte.of_N (x mod 256)) as [a|] eqn:Ea.
  2:{ apply Byte.of_N_None_iff in Ea. lia. }
  destruct (Byte.of_N (y mod 256)) as [b|] eqn:Eb.
  2:{ apply Byte.of_N_None_iff in Eb. lia. }
  apply Byte.to_of_N in Ea, Eb. subst b. congruence.
Qed.

Lemma cons_eq (A : Type) (x y : A) (l l' : list A) :
  x :: l = y :: l' -> x = y /\ l = l'.
Proof. intros H. now injection H. Qed.

Ltac bytes_equal :=
  repeat match goal with
    | H : _ :: _ = _ :: _ |- _ => apply cons_eq in H; destruct H as [? H]
    | H : [] = _ :: _ |- _ => discriminate H
    | H : _ :: _ = [] |- _ => discriminate H
    | H : byte_of_N _ = byte_of_N _ |- _ => apply byte_of_N_inj in H
    end.

(** The four groups of six bits of a code point. *)
Lemma sextets (cp : N) :
  exists d3 d2 d1 d0,
    d2 < 64 /\ d1 < 64 /\ d0 < 64
    /\ cp = d3 * 262144 + d2 * 4096 + d1 * 64 + d0
    /\ cp mod 64 = d0 /\ (cp / 64) mod 64 = d1 /\ (cp / 4096) mod 64 = d2
    /\ cp / 262144 = d3 /\ cp / 4096 = d3 * 64 + d2
    /\ cp / 64 = d3 * 4096 + d2 * 64 + d1.
Proof.
  assert (E1 : cp / 4096 = cp / 64 / 64) by now rewrite N.Div0.div_div.
  assert (E2 : cp / 262144 = cp / 64 / 64 / 64) by now rewrite !N.Div0.div_div.
  rewrite E1, E2.
  exists (cp / 64 / 64 / 64), ((cp / 64 / 64) mod 64), ((cp / 64) mod 64), (cp mod 64).
  repeat split; try reflexivity; try (apply N.mod_lt; discriminate); lia.
Qed.

(** The encodings of two scalar values are equal or neither is a prefix
    of the other. *)
Lemma encode_code_point_prefix_free (cp1 cp2 : N) (r1 r2 : bytes) :
  scalar cp1 -> scalar cp2 ->
  encode_code_point cp1 ++ r1 = encode_code_point cp2 ++ r2 ->
  cp1 = cp2 /\ r1 = r2.
Proof.
  unfold scalar, encode_code_point. intros H1 H2.
  destruct (sextets cp1) as (a3 & a2 & a1 & a0 & Ha2 & Ha1 & Ha0 & Ea & Ea0 & Ea1 & Ea2
                             & Ea3 & Ea4 & Ea5).
  destruct (sextets cp2) as (b3 & b2 & b1 & b0 & Hb2 & Hb1 & Hb0 & Eb & Eb0 & Eb1 & Eb2
                             & Eb3 & Eb4 & Eb5).
  rewrite Ea0, Ea1, Ea2, Ea3, Ea4, Ea5, Eb0, Eb1, Eb2, Eb3, Eb4, Eb5.
  clear Ea0 Ea1 Ea2 Ea3 Ea4 Ea5 Eb0 Eb1 Eb2 Eb3 Eb4 Eb5.
  destruct (N.ltb_spec cp1 0x80); [|destruct (N.ltb_spec cp1 0x800);
    [|destruct (N.ltb_spec cp1 0x10000)]];
  (destruct (N.ltb_spec cp2 0x80); [|destruct (N.ltb_spec cp2 0x800);
    [|destruct (N.ltb_spec cp2 0x10000)]]);
  cbn [app]; intros E; bytes_equal; try (split; [lia|assumption]); exfalso; lia.
Qed.

Lemma encode_cons_nonempty (c : code_unit) (s : jsstring) : encode (c :: s) <> [].
Proof.
  assert (Hcp : forall cp rest, encode_code_point cp ++ rest <> []).
  { intros cp rest E. apply app_eq_nil in E. destruct E as [E _]. revert E.
    unfold encode_code_point.
    destruct (cp <? 128); [discriminate|].
    destruct (cp <? 2048); [discriminate|].
    destruct (cp <? 65536); discriminate. }
  cbn [encode]. destruct (is_high_surrogate c).
  - destruct s as [|d s']; [|destruct (is_low_surrogate d); apply Hcp].
    rewrite <- (app_nil_r (encode_code_point replacement)). apply Hcp.
  - destruct (is_low_surrogate c); apply Hcp.
Qed.

(** The first scalar value of a well-formed string and what follows it. *)
Lemma well_formed_step (c : code_unit) (s : jsstring) :
  well_formed (c :: s) = true ->
  exists cp rest,
    encode (c :: s) = encode_code_point cp ++ encode rest
    /\ well_formed rest = true
    /\ (length rest < length (c :: s))%nat
    /\ scalar cp
    /\ ((cp < 0x10000 /\ c :: s = cp :: rest)
        \/ (0x10000 <= cp
            /\ exists h l,
                 c :: s = h :: l :: rest
                 /\ 0xD800 <= h <= 0xDBFF /\ 0xDC00 <= l <= 0xDFFF
                 /\ cp = 0x10000 + (h - 0xD800) * 1024 + (l - 0xDC00))).
Proof.
  cbn [well_formed encode]. unfold is_high_surrogate, is_low_surrogate.
  destruct (N.leb_spec 0xD800 c) as [Hh1|Hh1];
    [destruct (N.leb_spec c 0xDBFF) as [Hh2|Hh2]|]; cbn [andb].
  - destruct s as [|d s']; [discriminate|].
    destruct (N.leb_spec 0xDC00 d) as [Hl1|Hl1];
      [destruct (N.leb_spec d 0xDFFF) as [Hl2|Hl2]|]; cbn [andb]; try discriminate.
    intros Hwf.
    exists (0x10000 + (c - 0xD800) * 1024 + (d - 0xDC00)), s'.
    split; [reflexivity|]. split; [exact Hwf|]. split; [cbn [length]; lia|].
    split; [unfold scalar; lia|]. right. split; [lia|].
    exists c, d. repeat split; lia.
  - destruct (N.leb_spec 0xDC00 c) as [Hl1|Hl1]; [|lia].
    destruct (N.leb_spec c 0xDFFF) as [Hl2|Hl2]; cbn [andb]; [discriminate|].
    destruct (N.ltb_spec c 0x10000) as [Hc|Hc]; cbn [andb]; [|discriminate].
    intros Hwf. exists c, s.
    split; [reflexivity|]. split; [exact Hwf|]. split; [cbn [length]; lia|].
    split; [unfold scalar; lia|]. left. split; [lia|reflexivity].
  - destruct (N.leb_spec 0xDC00 c) as [Hl1|Hl1]; [lia|]. cbn [andb].
    destruct (N.ltb_spec c 0x10000) as [Hc|Hc]; cbn [andb]; [|discriminate].
    intros Hwf. exists c, s.
    split; [reflexivity|]. split; [exact Hwf|]. split; [cbn [length]; lia|].
    split; [unfold scalar; lia|]. left. split; [lia|reflexivity].
Qed.

Lemma encode_injective (n : nat) (a b : jsstring) :
  (length a <= n)%nat ->
  well_formed a = true -> well_formed b = true ->
  encode a = encode b -> a = b.
Proof.
  revert a b. induction n as [|n IH]; intros a b Hn Ha Hb E.
  - destruct a; [|cbn [length] in Hn; lia].
    destruct b as [|d b]; [reflexivity|].
    symmetry in E. now apply encode_cons_nonempty in E.
  - destruct a as [|c a].
    { destruct b as [|d b]; [reflexivity|].
      symmetry in E. now apply encode_cons_nonempty in E. }
    destruct b as [|d b]; [now apply encode_cons_nonempty in E|].
    destruct (well_formed_step _ _ Ha) as (cp1 & r1 & E1 & W1 & L1 & S1 & C1).
    destruct (well_formed_step _ _ Hb) as (cp2 & r2 & E2 & W2 & L2 & S2 & C2).
    rewrite E1, E2 in E.
    destruct (encode_code_point_prefix_free _ _ S1 S2 E) as [Hcp Hr].
    assert (Hrest : r1 = r2).
    { apply IH; try assumption. cbn [length] in *. lia. }
    subst cp2 r2.
    destruct C1 as [[Hlt1 ->]|(Hge1 & h1 & l1 & -> & Hh1 & Hl1 & Hcp1)];
      destruct C2 as [[Hlt2 ->]|(Hge2 & h2 & l2 & -> & Hh2 & Hl2 & Hcp2)];
      try lia; try reflexivity.
    assert (h1 = h2 /\ l1 = l2) as [-> ->] by lia.
    reflexivity.
Qed.

(** X1. Two well-formed strings that differ have different UTF-8
    encodings: [str2ab] gives two passwords in which every surrogate is part
    of a pair two different inputs of the key derivation. *)
Theorem str2ab_injective_on_well_formed (a b : jsstring) :
  well_formed a = true -> well_formed b = true -> a <> b ->
  CryptoHelper.str2ab a <> CryptoHelper.str2ab b.
Proof.
  intros Ha Hb Hne E. apply Hne.
  apply (encode_injective (n := length a)); auto.
Qed.

(** "correct horse" and "wrong password". *)
Lemma str2ab_injective_on_well_formed_witness :
  well_formed Examples.correct_horse = true
  /\ well_formed Examples.wrong_password = true
  /\ CryptoHelper.str2ab Examples.correct_horse
     <> CryptoHelper.str2ab Examples.wrong_password.
Proof.
  split; [reflexivity|]. split; [reflexivity|].
  apply (@str2ab_injective_on_well_formed Examples.correct_horse
           Examples.wrong_password).
  - reflexivity.
  - reflexivity.
  - discriminate.
Defined.

End Utf8Facts.

(** ** crypto-helper.js: further properties of the engine *)
Module EngineProperties.
Import CryptoHelper CryptoHelperFacts CryptoRun.

Lemma logged_nil (w : World) : logged [] w = w.
Proof. destruct w. unfold logged, set_crypto_log. cbn. now rewrite app_nil_r. Qed.

Lemma base642ab_error (s : jsstring) (e : error) :
  base642ab s = Err e -> e = InvalidCharacterError.
Proof.
  unfold base642ab, Base64.atob.
  destruct (Nat.eqb _ 1); cbn [rbind]; [congruence|].
  destruct (Base64.indices _); cbn [rbind]; congruence.
Qed.

(** X2. Two buffers have the same base64 text only when they are the same
    buffer: no two ciphertexts, nonces or salts are stored as one text. *)
Theorem ab2base64_injective (x y : bytes) :
  ab2base64 x = ab2base64 y <-> x = y.
Proof.
  split; [|intros ->; reflexivity].
  destruct (ab2base64_base642ab x) as (s & Hs & Hd).
  destruct (ab2base64_base642ab y) as (t & Ht & Hd').
  rewrite Hs, Ht. intros E. congruence.
Qed.

Lemma padding_add_3 (n : nat) : Base64.padding (3 + n) = Base64.padding n.
Proof.
  unfold Base64.padding. replace (Nat.modulo (3 + n) 3) with (Nat.modulo n 3); [reflexivity|].
  lia.
Qed.

Lemma encoded_length (l : list N) :
  (length (Base64.encode_sextets l) + length (Base64.padding (length l))
   = 4 * ((length l + 2) / 3))%nat.
Proof.
  induction l as [| a | a b | a b c l IH] using list_ind3; try reflexivity.
  cbn [Base64.encode_sextets length].
  change (S (S (S (length l)))) with (3 + length l)%nat.
  rewrite padding_add_3. lia.
Qed.

(** X3. The base64 text of a buffer of [n] bytes has [4 * ceil(n / 3)]
    characters, however many chunks of 32768 bytes the loop of [ab2base64]
    took to spell the buffer. *)
Theorem ab2base64_length (x : bytes) :
  exists s, ab2base64 x = Ok s /\ length s = (4 * ((length x + 2) / 3))%nat.
Proof.
  assert (Hloop : ab2base64_loop (length x) x 0 [] = fromCharCode x).
  { apply (ab2base64_loop_collects (length x) x 0). pose proof chunkSize_pos. nia. }
  unfold ab2base64. rewrite Hloop. unfold Base64.btoa.
  replace (forallb _ (fromCharCode x)) with true.
  - eexists. split; [reflexivity|].
    rewrite length_app, length_map, encoded_length.
    unfold fromCharCode. now rewrite length_map.
  - symmetry. apply forallb_forall. intros c Hc.
    pose proof (fromCharCode_octets x) as H. rewrite Forall_forall in H.
    apply H in Hc. apply N.leb_le. lia.
Qed.

Section WithCrypto.
Context {W : WebCrypto}.

(** [encryptBuffer] succeeds on a buffer and a non-empty password only. *)
Lemma encryptBuffer_ok_inputs (b : js bytes) (pw : js jsstring) (w w' : World)
    (pkg : Package) :
  encryptBuffer b pw w = (Ok pkg, w') ->
  exists p c s, b = val p /\ pw = val (c :: s).
Proof.
  destruct b as [| |p]; try discriminate.
  destruct pw as [| |[|c s]]; try discriminate.
  intros _. now exists p, c, s.
Qed.

End WithCrypto.

(** X4. [encryptBuffer] returns a package exactly when it is given a buffer
    and a non-empty string as password. Otherwise it raises before it draws
    random bytes or calls [crypto.subtle], and it looks at the buffer first:
    what is no buffer is refused as such whatever the password is. *)
Theorem encryptBuffer_succeeds_iff (W : WebCrypto) (b : js bytes) (pw : js jsstring)
    (w : World) :
  ((exists pkg w', encryptBuffer b pw w = (Ok pkg, w'))
   <-> exists p c s, b = val p /\ pw = val (c :: s))
  /\ (forall e w',
        encryptBuffer b pw w = (Err e, w') ->
        w' = w
        /\ (e = NotAnArrayBuffer <-> forall p, b <> val p)
        /\ (e = PasswordEmpty <-> exists p, b = val p)).
Proof.
  split; [split|].
  - intros (pkg & w' & H). eapply encryptBuffer_ok_inputs, H.
  - intros (p & c & s & -> & ->).
    destruct (@encryptBuffer_run W p (c :: s) w) as (c64 & i64 & s64 & h64 & _ & _ & _ & _ & H);
      [discriminate|].
    eexists _, _. exact H.
  - intros e w' H.
    destruct b as [| |p].
    + inversion H; subst. repeat split; try discriminate; try reflexivity.
      intros [p Hp]. discriminate.
    + inversion H; subst. repeat split; try discriminate; try reflexivity.
      intros [p Hp]. discriminate.
    + destruct pw as [| |[|c s]].
      * inversion H; subst. repeat split; try discriminate; eauto.
        intros Hn. now destruct (Hn p).
      * inversion H; subst. repeat split; try discriminate; eauto.
        intros Hn. now destruct (Hn p).
      * inversion H; subst. repeat split; try discriminate; eauto.
        intros Hn. now destruct (Hn p).
      * destruct (@encryptBuffer_run W p (c :: s) w)
          as (c64 & i64 & s64 & h64 & _ & _ & _ & _ & H'); [discriminate|].
        rewrite H' in H. discriminate.
Qed.

(** X5. A package made by [encryptBuffer] holds a salt of 16 bytes and a
    nonce of 12 bytes, which are the next 28 bytes of the random source in
    this order, the iteration count 200000, the ciphertext sealed under the
    key derived from the password and that salt, and the base64 text of the
    SHA-256 digest of the plaintext. *)
Theorem encryptBuffer_package_fields (W : WebCrypto) (p : bytes) (pw : jsstring)
    (w w' : World) (pkg : Package) :
  encryptBuffer (val p) (val pw) w = (Ok pkg, w') ->
  exists saltb ivb c64 iv64 s64 h64,
    pkg = {| ciphertext := val c64; iv := val iv64; salt := val s64;
             iterations := val 200000%Z; hash := val h64 |}
    /\ base642ab s64 = Ok saltb /\ length saltb = 16
    /\ base642ab iv64 = Ok ivb /\ length ivb = 12
    /\ saltb ++ ivb = map (entropy w) (seq (entropy_pos w) 28)
    /\ base642ab c64 = Ok (aes_gcm_seal (pbkdf2 (str2ab pw) saltb 200000) ivb p)
    /\ ab2base64 (sha256 p) = Ok h64
    /\ entropy_pos w' = entropy_pos w + 28.
Proof.
  intros H.
  destruct (encryptBuffer_ok_inputs _ _ _ H) as (p0 & c & s & Hp & Hpw).
  assert (Hne : pw <> []) by (intros ->; discriminate).
  clear p0 c s Hp Hpw.
  destruct (@encryptBuffer_run W p pw w Hne)
    as (c64 & i64 & s64 & h64 & Hc & Hi & Hs & Hh & H').
  set (saltb := map (entropy w) (seq (entropy_pos w) SALT_LENGTH)) in *.
  set (ivb := map (entropy w) (seq (entropy_pos w + SALT_LENGTH) IV_LENGTH)) in *.
  match type of H' with
  | _ = (Ok ?q, ?x) => set (pkg0 := q) in *; set (w0 := x) in *
  end.
  assert (Hpkg : pkg = pkg0) by congruence.
  assert (Hw : w' = w0) by congruence.
  exists saltb, ivb, c64, i64, s64, h64.
  split; [exact Hpkg|]. split; [exact Hs|].
  split; [unfold saltb; now rewrite length_map, length_seq|].
  split; [exact Hi|].
  split; [unfold ivb; now rewrite length_map, length_seq|].
  split.
  { unfold saltb, ivb. rewrite <- map_app. f_equal. symmetry.
    apply (seq_app SALT_LENGTH IV_LENGTH). }
  split; [exact Hc|]. split; [exact Hh|].
  rewrite Hw. unfold w0, logged.
  cbn [entropy_pos set_crypto_log set_entropy_pos].
  unfold SALT_LENGTH, IV_LENGTH. lia.
Qed.

(** The package of "hello, world!" under "correct horse". *)
Lemma encryptBuffer_package_fields_witness :
  exists saltb ivb c64 iv64 s64 h64,
    Examples.package0
    = {| ciphertext := val c64; iv := val iv64; salt := val s64;
         iterations := val 200000%Z; hash := val h64 |}
    /\ base642ab s64 = Ok saltb /\ length saltb = 16
    /\ base642ab iv64 = Ok ivb /\ length ivb = 12
    /\ saltb ++ ivb
       = map (entropy Examples.world0) (seq (entropy_pos Examples.world0) 28)
    /\ base642ab c64
       = Ok (aes_gcm_seal (WebCrypto := Symbolic.crypto)
               (pbkdf2 (str2ab Examples.correct_horse) saltb 200000) ivb
               Examples.hello)
    /\ ab2base64 (sha256 (WebCrypto := Symbolic.crypto) Examples.hello) = Ok h64
    /\ entropy_pos Examples.world1 = entropy_pos Examples.world0 + 28.
Proof.
  apply (@encryptBuffer_package_fields Symbolic.crypto Examples.hello
           Examples.correct_horse Examples.world0 Examples.world1 Examples.package0).
  vm_compute. reflexivity.
Defined.


(** X6. Two encryptions in a row share no random byte: the salt and the
    nonce of the first package and the salt and the nonce of the second are,
    in this order, the next 56 bytes of the random source. *)
Theorem successive_encryptions_draw_fresh_bytes (W : WebCrypto) (p1 p2 : bytes)
    (pw1 pw2 : jsstring) (w w1 w2 : World) (pkg1 pkg2 : Package) :
  encryptBuffer (val p1) (val pw1) w = (Ok pkg1, w1) ->
  encryptBuffer (val p2) (val pw2) w1 = (Ok pkg2, w2) ->
  exists salt1 iv1 salt2 iv2,
    base642ab (to_string (salt pkg1)) = Ok salt1
    /\ base642ab (to_string (iv pkg1)) = Ok iv1
    /\ base642ab (to_string (salt pkg2)) = Ok salt2
    /\ base642ab (to_string (iv pkg2)) = Ok iv2
    /\ salt1 ++ iv1 ++ salt2 ++ iv2 = map (entropy w) (seq (entropy_pos w) 56).
Proof.
  intros H1 H2.
  destruct (encryptBuffer_ok_inputs _ _ _ H1) as (p0 & c & s & _ & Hpw).
  assert (Hne1 : pw1 <> []) by (intros ->; discriminate).
  clear p0 c s Hpw.
  destruct (encryptBuffer_ok_inputs _ _ _ H2) as (p0 & c & s & _ & Hpw).
  assert (Hne2 : pw2 <> []) by (intros ->; discriminate).
  clear p0 c s Hpw.
  destruct (@encryptBuffer_run W p1 pw1 w Hne1)
    as (c64 & i64 & s64 & h64 & _ & Hi & Hs & _ & R1).
  destruct (@encryptBuffer_run W p2 pw2 w1 Hne2)
    as (c64' & i64' & s64' & h64' & _ & Hi' & Hs' & _ & R2).
  set (salt1 := map (entropy w) (seq (entropy_pos w) SALT_LENGTH)) in *.
  set (iv1 := map (entropy w) (seq (entropy_pos w + SALT_LENGTH) IV_LENGTH)) in *.
  set (salt2 := map (entropy w1) (seq (entropy_pos w1) SALT_LENGTH)) in *.
  set (iv2 := map (entropy w1) (seq (entropy_pos w1 + SALT_LENGTH) IV_LENGTH)) in *.
  match type of R1 with
  | _ = (Ok ?q, ?x) => set (q1 := q) in *; set (x1 := x) in *
  end.
  match type of R2 with
  | _ = (Ok ?q, _) => set (q2 := q) in *
  end.
  assert (Hq1 : pkg1 = q1) by congruence.
  assert (Hx1 : w1 = x1) by congruence.
  assert (Hq2 : pkg2 = q2) by congruence.
  exists salt1, iv1, salt2, iv2.
  rewrite Hq1, Hq2. unfold q1, q2. cbn [salt iv to_string].
  repeat (split; [assumption|]).
  assert (He : entropy w1 = entropy w) by now rewrite Hx1.
  assert (Hp : entropy_pos w1 = entropy_pos w + SALT_LENGTH + IV_LENGTH)
    by now rewrite Hx1.
  unfold salt1, iv1, salt2, iv2. rewrite He, Hp. rewrite <- !map_app. f_equal.
  change 56 with (SALT_LENGTH + (IV_LENGTH + (SALT_LENGTH + IV_LENGTH))).
  rewrite !seq_app. repeat f_equal; lia.
Qed.

(** "hello, world!" encrypted twice, from the start of the random source. *)
Lemma successive_encryptions_draw_fresh_bytes_witness :
  exists salt1 iv1 salt2 iv2,
    base642ab (to_string (salt Examples.package0)) = Ok salt1
    /\ base642ab (to_string (iv Examples.package0)) = Ok iv1
    /\ base642ab (to_string (salt Scenes.package1)) = Ok salt2
    /\ base642ab (to_string (iv Scenes.package1)) = Ok iv2
    /\ salt1 ++ iv1 ++ salt2 ++ iv2
       = map (entropy Examples.world0) (seq (entropy_pos Examples.world0) 56).
Proof.
  apply (@successive_encryptions_draw_fresh_bytes Symbolic.crypto
           Examples.hello Examples.hello Examples.correct_horse
           Examples.wrong_password Examples.world0 Examples.world1 Scenes.world2
           Examples.package0 Scenes.package1).
  - vm_compute. reflexivity.
  - vm_compute. reflexivity.
Defined.

(** [decryptBuffer] only appends to the log, and the same in every world. *)
Lemma decryptBuffer_log_only (W : WebCrypto) (pkg : js Package) (pw : js jsstring) :
  exists r calls, forall w, decryptBuffer pkg pw w = (r, logged calls w).
Proof.
  destruct pkg as [| |pk];
    try (exists (Err InvalidPackage), []; intros w; now rewrite logged_nil).
  destruct (ciphertext pk) as [| |c64] eqn:Hc;
    try (exists (Err InvalidPackage), []; intros w; rewrite logged_nil;
         unfold decryptBuffer; now rewrite Hc).
  destruct pw as [| |[|c s]];
    try (exists (Err PasswordEmpty), []; intros w; rewrite logged_nil;
         unfold decryptBuffer; now rewrite Hc).
  destruct (base642ab c64) as [cb|e] eqn:Hcb.
  2:{ exists (Err e), []. intros w. rewrite logged_nil.
      unfold decryptBuffer, lift, bind. now rewrite Hc, Hcb. }
  destruct (base642ab (to_string (iv pk))) as [ivb|e] eqn:Hiv.
  2:{ exists (Err e), []. intros w. rewrite logged_nil.
      unfold decryptBuffer, lift, bind. now rewrite Hc, Hcb, Hiv. }
  destruct (base642ab (to_string (salt pk))) as [sb|e] eqn:Hsalt.
  2:{ exists (Err e), []. intros w. rewrite logged_nil.
      unfold decryptBuffer, lift, bind. now rewrite Hc, Hcb, Hiv, Hsalt. }
  assert (Hpw : c :: s <> []) by discriminate.
  destruct (Z_lt_dec 0 (number_or (iterations pk) PBKDF2_ITERATIONS)) as [H0|H0];
    [destruct (Z_lt_dec (number_or (iterations pk) PBKDF2_ITERATIONS) (2 ^ 32))
       as [H1|H1]|].
  - destruct (aes_gcm_open
                (pbkdf2 (str2ab (c :: s)) sb (number_or (iterations pk) PBKDF2_ITERATIONS))
                ivb cb) as [pt|] eqn:Hopen.
    + destruct (ab2base64_base642ab (sha256 pt)) as (h & Hh & _).
      eexists _, _. intros w.
      exact (@decryptBuffer_opened W pk (c :: s) c64 cb ivb sb pt h w Hc
               Hpw Hcb Hiv Hsalt (conj H0 H1) Hopen Hh).
    + eexists _, _. intros w.
      exact (@decryptBuffer_rejected W pk (c :: s) c64 cb ivb sb w Hc
               Hpw Hcb Hiv Hsalt (conj H0 H1) Hopen).
  - assert (Hout : ~ (0 < number_or (iterations pk) PBKDF2_ITERATIONS < 2 ^ 32)%Z) by lia.
    eexists _, _. intros w.
    exact (@decryptBuffer_bad_iterations W pk (c :: s) c64 cb ivb sb w Hc
             Hpw Hcb Hiv Hsalt Hout).
  - assert (Hout : ~ (0 < number_or (iterations pk) PBKDF2_ITERATIONS < 2 ^ 32)%Z) by lia.
    eexists _, _. intros w.
    exact (@decryptBuffer_bad_iterations W pk (c :: s) c64 cb ivb sb w Hc
             Hpw Hcb Hiv Hsalt Hout).
Qed.

(** X7. [decryptBuffer] reads nothing but its two arguments and writes
    nothing but the log of the calls of [crypto.subtle]: its result and the
    calls it makes are the same in every world; it draws no random byte and
    touches neither the store nor the session. *)
Theorem decryptBuffer_reads_only_its_arguments (W : WebCrypto) (pkg : js Package)
    (pw : js jsstring) :
  exists r calls, forall w, decryptBuffer pkg pw w = (r, logged calls w).
Proof. apply decryptBuffer_log_only. Qed.

(** X8. Every error [decryptBuffer] raises has one cause. 'Invalid
    encrypted package': the package is absent or its ciphertext is no
    string. 'password must be a non-empty string': just that.
    InvalidCharacterError: one of the three base64 fields does not decode.
    An error of [deriveKey]: the iteration count is not between 1 and
    2^32 - 1. 'Decryption failed': all of this was in order and the cipher
    rejected the ciphertext. It raises no other error. *)
Theorem decryptBuffer_error_causes (W : WebCrypto) (pkg : js Package)
    (pw : js jsstring) (w : World) (e : error) :
  fst (decryptBuffer pkg pw w) = Err e ->
  match e with
  | InvalidPackage => forall pk c64, pkg = val pk -> ciphertext pk <> val c64
  | PasswordEmpty => forall c s, pw <> val (c :: s)
  | InvalidCharacterError =>
      exists pk f, pkg = val pk /\ base642ab (to_string (get_field f pk))
                                  = Err InvalidCharacterError
  | PlatformError =>
      exists pk, pkg = val pk
                 /\ ~ (0 < number_or (iterations pk) PBKDF2_ITERATIONS < 2 ^ 32)%Z
  | DecryptionFailed =>
      exists pk c s c64 cb ivb sb,
        pkg = val pk /\ pw = val (c :: s) /\ ciphertext pk = val c64
        /\ base642ab c64 = Ok cb
        /\ base642ab (to_string (iv pk)) = Ok ivb
        /\ base642ab (to_string (salt pk)) = Ok sb
        /\ (0 < number_or (iterations pk) PBKDF2_ITERATIONS < 2 ^ 32)%Z
        /\ aes_gcm_open
             (pbkdf2 (str2ab (c :: s)) sb (number_or (iterations pk) PBKDF2_ITERATIONS))
             ivb cb = None
  | _ => False
  end.
Proof.
  destruct pkg as [| |pk].
  1,2: intros E; cbn in E; injection E as <-; intros; discriminate.
  destruct (ciphertext pk) as [| |c64] eqn:Hc.
  1,2: unfold decryptBuffer; rewrite Hc; intros E; cbn in E; injection E as <-;
       intros pk' c' Hpk; injection Hpk as <-; congruence.
  destruct pw as [| |[|c s]].
  1,2,3: unfold decryptBuffer; rewrite Hc; intros E; cbn in E; injection E as <-;
         intros; discriminate.
  assert (Hpw : c :: s <> []) by discriminate.
  destruct (base642ab c64) as [cb|e0] eqn:Hcb.
  2:{ pose proof (base642ab_error _ Hcb) as ->.
      intros E. unfold decryptBuffer, lift, bind in E. rewrite Hc, Hcb in E.
      cbn [fst] in E. injection E as <-. exists pk, Ciphertext.
      split; [reflexivity|]. cbn [get_field]. now rewrite Hc. }
  destruct (base642ab (to_string (iv pk))) as [ivb|e0] eqn:Hiv.
  2:{ pose proof (base642ab_error _ Hiv) as ->.
      intros E. unfold decryptBuffer, lift, bind in E. rewrite Hc, Hcb, Hiv in E.
      cbn [fst] in E. injection E as <-. exists pk, Nonce. now split. }
  destruct (base642ab (to_string (salt pk))) as [sb|e0] eqn:Hsalt.
  2:{ pose proof (base642ab_error _ Hsalt) as ->.
      intros E. unfold decryptBuffer, lift, bind in E.
      rewrite Hc, Hcb, Hiv, Hsalt in E.
      cbn [fst] in E. injection E as <-. exists pk, Salt. now split. }
  destruct (Z_lt_dec 0 (number_or (iterations pk) PBKDF2_ITERATIONS)) as [H0|H0];
    [destruct (Z_lt_dec (number_or (iterations pk) PBKDF2_ITERATIONS) (2 ^ 32))
       as [H1|H1]|].
  - destruct (aes_gcm_open
                (pbkdf2 (str2ab (c :: s)) sb (number_or (iterations pk) PBKDF2_ITERATIONS))
                ivb cb) as [pt|] eqn:Hopen.
    + destruct (ab2base64_base642ab (sha256 pt)) as (h & Hh & _).
      rewrite (@decryptBuffer_opened W pk (c :: s) c64 cb ivb sb pt h w Hc
                 Hpw Hcb Hiv Hsalt (conj H0 H1) Hopen Hh).
      discriminate.
    + rewrite (@decryptBuffer_rejected W pk (c :: s) c64 cb ivb sb w Hc
                 Hpw Hcb Hiv Hsalt (conj H0 H1) Hopen).
      intros E. cbn [fst] in E. injection E as <-.
      exists pk, c, s, c64, cb, ivb, sb. repeat split; assumption.
  - assert (Hout : ~ (0 < number_or (iterations pk) PBKDF2_ITERATIONS < 2 ^ 32)%Z) by lia.
    rewrite (@decryptBuffer_bad_iterations W pk (c :: s) c64 cb ivb sb w Hc
               Hpw Hcb Hiv Hsalt Hout).
    intros E. cbn [fst] in E. injection E as <-. exists pk. now split.
  - assert (Hout : ~ (0 < number_or (iterations pk) PBKDF2_ITERATIONS < 2 ^ 32)%Z) by lia.
    rewrite (@decryptBuffer_bad_iterations W pk (c :: s) c64 cb ivb sb w Hc
               Hpw Hcb Hiv Hsalt Hout).
    intros E. cbn [fst] in E. injection E as <-. exists pk. now split.
Qed.

(** "wrong password" on the package made under "correct horse". *)
Lemma decryptBuffer_error_causes_witness :
  exists pk c s c64 cb ivb sb,
    val Examples.package0 = val pk /\ val Examples.wrong_password = val (c :: s)
    /\ ciphertext pk = val c64
    /\ base642ab c64 = Ok cb
    /\ base642ab (to_string (iv pk)) = Ok ivb
    /\ base642ab (to_string (salt pk)) = Ok sb
    /\ (0 < number_or (iterations pk) PBKDF2_ITERATIONS < 2 ^ 32)%Z
    /\ aes_gcm_open (WebCrypto := Symbolic.crypto)
         (pbkdf2 (str2ab (c :: s)) sb (number_or (iterations pk) PBKDF2_ITERATIONS))
         ivb cb = None.
Proof.
  apply (@decryptBuffer_error_causes Symbolic.crypto (val Examples.package0)
           (val Examples.wrong_password) Examples.world0 DecryptionFailed).
  vm_compute. reflexivity.
Defined.

End EngineProperties.

(** ** The object store of db.js *)
Module StoreFacts.
Import DB.

Lemma key_compare_refl (a : jsstring) : key_compare a a = Eq.
Proof.
  induction a as [|x a IH]; cbn; [reflexivity|].
  rewrite N.compare_refl. exact IH.
Qed.

Lemma key_compare_eq (a b : jsstring) : key_compare a b = Eq -> a = b.
Proof.
  revert b. induction a as [|x a IH]; intros [|y b]; cbn; try congruence.
  destruct (N.compare_spec x y) as [->|H|H]; try congruence.
  intros E. f_equal. apply IH, E.
Qed.

Lemma key_compare_neq (a b : jsstring) : a <> b -> key_compare a b <> Eq.
Proof. intros H E. apply H, key_compare_eq, E. Qed.

Lemma key_compare_antisym (a b : jsstring) :
  key_compare b a = CompOpp (key_compare a b).
Proof.
  revert b. induction a as [|x a IH]; intros [|y b]; cbn; try reflexivity.
  rewrite (N.compare_antisym x y).
  destruct (x ?= y)%N; cbn; auto.
Qed.

Lemma key_compare_gt_lt (a b : jsstring) :
  key_compare a b = Gt -> key_compare b a = Lt.
Proof. intros H. rewrite key_compare_antisym, H. reflexivity. Qed.

Lemma key_compare_lt_trans (a b c : jsstring) :
  key_compare a b = Lt -> key_compare b c = Lt -> key_compare a c = Lt.
Proof.
  revert b c. induction a as [|x a IH]; intros [|y b] [|z c]; cbn; try congruence.
  destruct (N.compare_spec x y) as [->|Hxy|Hxy]; try congruence.
  - destruct (N.compare_spec y z) as [->|Hyz|Hyz]; try congruence.
    apply IH.
  - intros _.
    destruct (N.compare_spec y z) as [->|Hyz|Hyz]; try congruence.
    + intros _. apply N.compare_lt_iff in Hxy. rewrite Hxy. reflexivity.
    + intros _. assert (H : (x < z)%N) by lia.
      apply N.compare_lt_iff in H. rewrite H. reflexivity.
Qed.

Lemma get_put_same (r : FileRecord) (store : list FileRecord) :
  get (name r) (put r store) = Some r.
Proof.
  induction store as [|x rest IH]; cbn.
  - rewrite key_compare_refl. reflexivity.
  - destruct (key_compare (name r) (name x)) eqn:E; cbn.
    + rewrite key_compare_refl. reflexivity.
    + rewrite key_compare_refl. reflexivity.
    + rewrite E. exact IH.
Qed.

Lemma get_put_other (n : jsstring) (r : FileRecord) (store : list FileRecord) :
  n <> name r -> get n (put r store) = get n store.
Proof.
  intros Hn. pose proof (key_compare_neq Hn) as Hc.
  induction store as [|x rest IH]; cbn.
  - destruct (key_compare n (name r)); congruence.
  - destruct (key_compare (name r) (name x)) eqn:E; cbn.
    + apply key_compare_eq in E. rewrite <- E.
      destruct (key_compare n (name r)); congruence.
    + destruct (key_compare n (name r)); congruence.
    + rewrite IH. reflexivity.
Qed.

Lemma get_delete_same (n : jsstring) (store : list FileRecord) :
  get n (delete n store) = None.
Proof.
  induction store as [|x rest IH]; cbn; [reflexivity|].
  destruct (key_compare n (name x)) eqn:E; cbn; rewrite ?E; exact IH.
Qed.

Lemma get_delete_other (n m : jsstring) (store : list FileRecord) :
  n <> m -> get n (delete m store) = get n store.
Proof.
  intros Hn.
  induction store as [|x rest IH]; cbn; [reflexivity|].
  destruct (key_compare m (name x)) eqn:E; cbn; rewrite ?IH; try reflexivity.
  apply key_compare_eq in E. subst m.
  pose proof (key_compare_neq Hn).
  destruct (key_compare n (name x)); congruence.
Qed.

End StoreFacts.

Module StoreOrder.
Import DB StoreFacts.

Lemma names_ascending_cons (x : FileRecord) (rest : list FileRecord) :
  names_ascending (x :: rest) = true <->
  below (name x) rest /\ names_ascending rest = true.
Proof.
  destruct rest as [|y rest']; cbn [names_ascending below].
  - tauto.
  - destruct (key_compare (name x) (name y)); split; intros H;
      try discriminate; try tauto; destruct H; discriminate.
Qed.

Lemma below_put (n : jsstring) (r : FileRecord) (store : list FileRecord) :
  key_compare n (name r) = Lt -> below n store -> below n (put r store).
Proof.
  intros Hr Hs. destruct store as [|x rest]; cbn; [exact Hr|].
  destruct (key_compare (name r) (name x)); cbn; assumption.
Qed.

Lemma names_ascending_put (r : FileRecord) (store : list FileRecord) :
  names_ascending store = true -> names_ascending (put r store) = true.
Proof.
  induction store as [|x rest IH]; intros H; [reflexivity|].
  cbn [put]. apply names_ascending_cons in H. destruct H as [Hb Hr].
  destruct (key_compare (name r) (name x)) eqn:E.
  - apply key_compare_eq in E. apply names_ascending_cons. rewrite E. tauto.
  - apply names_ascending_cons. split; [exact E|].
    apply names_ascending_cons. tauto.
  - apply names_ascending_cons. split; [|auto].
    apply below_put; [|exact Hb]. apply key_compare_gt_lt, E.
Qed.

Lemma below_delete (k n : jsstring) (store : list FileRecord) :
  names_ascending store = true -> below k store -> below k (delete n store).
Proof.
  induction store as [|x rest IH]; intros Hs Hb; [exact I|].
  apply names_ascending_cons in Hs. destruct Hs as [Hx Hr].
  cbn [delete]. cbn [below] in Hb.
  destruct (key_compare n (name x)); try exact Hb.
  apply IH; [exact Hr|].
  destruct rest as [|y rest']; [exact I|]. cbn [below] in *.
  eapply key_compare_lt_trans; eassumption.
Qed.

Lemma names_ascending_delete (n : jsstring) (store : list FileRecord) :
  names_ascending store = true -> names_ascending (delete n store) = true.
Proof.
  induction store as [|x rest IH]; intros H; [reflexivity|].
  apply names_ascending_cons in H. destruct H as [Hb Hr].
  cbn [delete].
  destruct (key_compare n (name x)); auto;
    apply names_ascending_cons; split; auto using below_delete.
Qed.

Lemma below_not_in (k : jsstring) (store : list FileRecord) :
  names_ascending store = true -> below k store -> ~ In k (map name store).
Proof.
  induction store as [|x rest IH]; intros Hs Hb; [intros []|].
  apply names_ascending_cons in Hs. destruct Hs as [Hx Hr].
  cbn [below] in Hb. cbn [map In]. intros [E|Hin].
  - rewrite E, key_compare_refl in Hb. discriminate.
  - revert Hin. apply IH; [exact Hr|].
    destruct rest as [|y rest']; [exact I|]. cbn [below] in *.
    eapply key_compare_lt_trans; eassumption.
Qed.

Lemma names_ascending_NoDup (store : list FileRecord) :
  names_ascending store = true -> NoDup (map name store).
Proof.
  induction store as [|x rest IH]; intros H; [constructor|].
  apply names_ascending_cons in H. destruct H as [Hb Hr].
  cbn [map]. constructor; [|auto]. apply below_not_in; assumption.
Qed.

End StoreOrder.

(** ** script.js: what happens to the object store *)
Module StoreFrame.
Import CryptoHelper.

Section Invariant.
Context {W : WebCrypto}.
Variable P : list FileRecord -> Prop.

Lemma inv_ret (A : Type) (a : A) : store_invariant P (ret a).
Proof. intros w H. exact H. Qed.

Lemma inv_throw (A : Type) (e : error) : store_invariant P (@throw A e).
Proof. intros w H. exact H. Qed.

Lemma inv_lift (A : Type) (r : result A) : store_invariant P (lift r).
Proof. intros w H. exact H. Qed.

Lemma inv_gets (A : Type) (f : World -> A) : store_invariant P (gets f).
Proof. intros w H. exact H. Qed.

Lemma inv_bind (A B : Type) (m : M A) (f : A -> M B) :
  store_invariant P m -> (forall a, store_invariant P (f a)) ->
  store_invariant P (bind m f).
Proof.
  intros Hm Hf w H. unfold bind. specialize (Hm w H).
  destruct (m w) as [[a|e] w1]; cbn [snd] in *.
  - apply Hf, Hm.
  - exact Hm.
Qed.

Lemma inv_try_catch (A : Type) (m : M A) (h : error -> M A) :
  store_invariant P m -> (forall e, store_invariant P (h e)) ->
  store_invariant P (try_catch m h).
Proof.
  intros Hm Hh w H. unfold try_catch. specialize (Hm w H).
  destruct (m w) as [[a|e] w1]; cbn [snd] in *.
  - exact Hm.
  - apply Hh, Hm.
Qed.

Lemma inv_log_call (c : crypto_call) : store_invariant P (log_call c).
Proof. intros w H. exact H. Qed.

Lemma inv_getRandomValues (n : nat) : store_invariant P (getRandomValues n).
Proof. intros w H. exact H. Qed.

Lemma inv_showMessage (msg : message) (type : level) :
  store_invariant P (Script.showMessage msg type).
Proof. intros w H. exact H. Qed.

Lemma inv_confirm : store_invariant P Script.confirm.
Proof. intros w H. exact H. Qed.

Lemma inv_set_sessionPassword (p : js jsstring) :
  store_invariant P (modify (set_sessionPassword p)).
Proof. intros w H. exact H. Qed.

Lemma inv_setUnlockedState (state : bool) :
  store_invariant P (Script.setUnlockedState state).
Proof. intros w H. destruct state; exact H. Qed.

Lemma inv_getFile (n : jsstring) : store_invariant P (DB.getFile n).
Proof. intros w H. exact H. Qed.

Lemma inv_record_download (d : jsstring * bytes * jsstring) :
  store_invariant P (modify (fun w => set_downloads (downloads w ++ [d]) w)).
Proof. intros w H. exact H. Qed.

(** Splits a computation along its binds and its case distinctions. *)
Ltac invariant :=
  repeat first
    [ assumption
    | apply inv_ret | apply inv_throw | apply inv_lift | apply inv_gets
    | apply inv_log_call | apply inv_getRandomValues | apply inv_showMessage
    | apply inv_confirm | apply inv_set_sessionPassword
    | apply inv_setUnlockedState | apply inv_getFile | apply inv_record_download
    | apply inv_bind; [|intro]
    | apply inv_try_catch; [|intro]
    | match goal with
      | |- store_invariant _ (match ?x with _ => _ end) => destruct x
      | |- store_invariant _ (if ?b then _ else _) => destruct b
      end ].

Lemma inv_encryptBuffer (buffer : js bytes) (pw : js jsstring) :
  store_invariant P (encryptBuffer buffer pw).
Proof.
  unfold encryptBuffer, randomBytes, deriveKeyFromPassword, hashBufferToBase64,
    subtle_importKey, subtle_deriveKey, subtle_digest, subtle_encrypt.
  invariant.
Qed.

Lemma inv_decryptBuffer (pkg : js Package) (pw : js jsstring) :
  store_invariant P (decryptBuffer pkg pw).
Proof.
  unfold decryptBuffer, deriveKeyFromPassword, hashBufferToBase64,
    subtle_importKey, subtle_deriveKey, subtle_digest, subtle_decrypt.
  invariant.
Qed.

Lemma inv_createEncryptedFileRecord (n : jsstring) (b : js bytes) (pw : js jsstring) :
  store_invariant P (createEncryptedFileRecord n b pw).
Proof.
  unfold createEncryptedFileRecord. apply inv_bind; [apply inv_encryptBuffer|].
  intro. invariant.
Qed.

Lemma inv_tryUnlock (password : jsstring) : store_invariant P (Script.tryUnlock password).
Proof.
  unfold Script.tryUnlock, DB.getAllFiles, Script.refreshFileList.
  apply inv_bind; [apply inv_gets|]. intros [|sample rest].
  - invariant.
  - apply inv_try_catch; [|intro; invariant].
    apply inv_bind; [apply inv_decryptBuffer|]. intro. invariant.
Qed.

Lemma inv_unlockClick (pwd : jsstring) : store_invariant P (Script.unlockClick pwd).
Proof.
  destruct pwd; cbn [Script.unlockClick]; [invariant|].
  apply inv_bind; [apply inv_tryUnlock|]. intro. invariant.
Qed.

Lemma inv_downloadFile (n : jsstring) : store_invariant P (Script.downloadFile n).
Proof.
  unfold Script.downloadFile.
  apply inv_bind; [apply inv_getFile|]. intros [| |r]; try apply inv_throw.
  apply inv_bind; [apply inv_gets|]. intro.
  apply inv_bind; [apply inv_decryptBuffer|]. intro. invariant.
Qed.

Lemma inv_fileActionClick (n : jsstring) : store_invariant P (Script.fileActionClick n).
Proof.
  unfold Script.fileActionClick.
  apply inv_bind; [apply inv_gets|]. intros u. destruct (negb u); [invariant|].
  apply inv_try_catch; [apply inv_downloadFile|]. intro. invariant.
Qed.

Lemma inv_download_each (checked : list jsstring) :
  store_invariant P (Script.download_each checked).
Proof.
  induction checked as [|n rest IH]; cbn [Script.download_each]; [invariant|].
  apply inv_bind; [|intro; exact IH].
  apply inv_try_catch; [apply inv_downloadFile|]. intro. invariant.
Qed.

Lemma inv_downloadBtnClick (checked : list jsstring) :
  store_invariant P (Script.downloadBtnClick checked).
Proof.
  unfold Script.downloadBtnClick, Script.downloadSelected.
  apply inv_bind; [apply inv_gets|]. intros u. destruct (negb u); [invariant|].
  destruct checked; [invariant|apply inv_download_each].
Qed.

Lemma inv_lockClick : store_invariant P Script.lockClick.
Proof. intros w H. exact H. Qed.

(** What writes to the store keeps [P] when [put] and [delete] do. *)
Section Writers.
Hypothesis P_put : forall r store, P store -> P (DB.put r store).
Hypothesis P_delete : forall n store, P store -> P (DB.delete n store).

Lemma inv_saveFile (r : FileRecord) : store_invariant P (DB.saveFile r).
Proof.
  intros w H. unfold DB.saveFile. destruct (name r); [exact H|].
  cbn. apply P_put, H.
Qed.

Lemma inv_deleteFile (n : jsstring) : store_invariant P (DB.deleteFile n).
Proof. intros w H. cbn. apply P_delete, H. Qed.

Lemma inv_add_files (fileList : list File) : store_invariant P (Script.add_files fileList).
Proof.
  induction fileList as [|file rest IH]; cbn [Script.add_files]; [invariant|].
  apply inv_bind; [|intro; exact IH].
  apply inv_try_catch; [|intro; invariant].
  apply inv_bind; [apply inv_getFile|]. intro existing.
  apply inv_bind; [destruct existing; invariant|]. intros [|]; [|invariant].
  apply inv_bind; [apply inv_gets|]. intro.
  apply inv_bind; [apply inv_createEncryptedFileRecord|]. intro.
  apply inv_bind; [apply inv_saveFile|]. intro. invariant.
Qed.

Lemma inv_filesChosen (files : list File) : store_invariant P (Script.filesChosen files).
Proof.
  destruct files as [|f files]; cbn [Script.filesChosen]; [invariant|].
  unfold Script.handleFilesAdded, Script.refreshFileList.
  apply inv_bind; [apply inv_gets|]. intro.
  apply inv_bind; [apply inv_gets|]. intro.
  match goal with |- store_invariant _ (if ?b then _ else _) => destruct b end;
    [invariant|].
  apply inv_bind; [apply inv_add_files|]. intro. invariant.
Qed.

Lemma inv_delete_each (checked : list jsstring) :
  store_invariant P (Script.delete_each checked).
Proof.
  induction checked as [|n rest IH]; cbn [Script.delete_each]; [invariant|].
  apply inv_bind; [apply inv_deleteFile|]. intro.
  apply inv_bind; [invariant|]. intro. exact IH.
Qed.

Lemma inv_deleteBtnClick (checked : list jsstring) :
  store_invariant P (Script.deleteBtnClick checked).
Proof.
  unfold Script.deleteBtnClick, Script.deleteSelected, Script.refreshFileList.
  apply inv_bind; [apply inv_gets|]. intros u. destruct (negb u); [invariant|].
  destruct checked as [|n rest]; [invariant|].
  apply inv_bind; [invariant|]. intros [|]; [|invariant].
  apply inv_bind; [apply inv_delete_each|]. intro. invariant.
Qed.

Lemma inv_delete_all (files : list FileRecord) :
  store_invariant P (Script.delete_all files).
Proof.
  induction files as [|file rest IH]; cbn [Script.delete_all]; [invariant|].
  apply inv_bind; [apply inv_deleteFile|]. intro. exact IH.
Qed.

Lemma inv_resetYesClick : store_invariant P Script.resetYesClick.
Proof.
  unfold Script.resetYesClick, DB.getAllFiles.
  apply inv_bind; [apply inv_gets|]. intro.
  apply inv_bind; [apply inv_delete_all|]. intro. invariant.
Qed.

Lemma inv_handle (e : Script.event) : store_invariant P (Script.handle e).
Proof.
  destruct e; cbn [Script.handle].
  - apply inv_filesChosen.
  - apply inv_fileActionClick.
  - apply inv_downloadBtnClick.
  - apply inv_deleteBtnClick.
  - apply inv_unlockClick.
  - apply inv_resetYesClick.
  - apply inv_lockClick.
Qed.

End Writers.
End Invariant.
End StoreFrame.

(** ** db.js and the handlers that use it: properties *)
Module StoreProperties.
Import CryptoHelper Script StoreFacts StoreOrder StoreFrame.

(** X9. What [saveFile] stores under a name, [getFile] gives back for that
    name, whatever the store held before, and the records of all other names
    are found as before. *)
Theorem saveFile_then_getFile (r : FileRecord) (w : World) :
  name r <> [] ->
  fst ((DB.saveFile r ;;; DB.getFile (name r)) w) = Ok (val r)
  /\ forall n, n <> name r ->
       fst ((DB.saveFile r ;;; DB.getFile n) w) = fst (DB.getFile n w).
Proof.
  intros Hname. unfold DB.saveFile.
  destruct (name r) as [|c s] eqn:E; [congruence|].
  unfold DB.getFile, bind, modify, ret, gets. cbn [fst snd db set_db].
  rewrite <- E. split.
  - rewrite get_put_same. reflexivity.
  - intros n Hn. rewrite (get_put_other r (db w) Hn). reflexivity.
Qed.

(** notes.txt saved over a store that holds another record of that name. *)
Lemma saveFile_then_getFile_witness :
  name Examples.record0 <> []
  /\ fst ((DB.saveFile Examples.record0 ;;; DB.getFile (name Examples.record0))
            Examples.world_with_bad_record)
     = Ok (val Examples.record0).
Proof.
  split; [discriminate|].
  apply (saveFile_then_getFile Examples.record0 Examples.world_with_bad_record).
  discriminate.
Defined.

(** X10. After [deleteFile] of a name, [getFile] finds nothing under it and
    answers [null]; the records of all other names are found as before. *)
Theorem deleteFile_then_getFile (n : jsstring) (w : World) :
  fst ((DB.deleteFile n ;;; DB.getFile n) w) = Ok null
  /\ forall m, m <> n ->
       fst ((DB.deleteFile n ;;; DB.getFile m) w) = fst (DB.getFile m w).
Proof.
  unfold DB.deleteFile, DB.getFile, bind, modify, ret, gets.
  cbn [fst snd db set_db]. split.
  - rewrite get_delete_same. reflexivity.
  - intros m Hm. rewrite (get_delete_other (db w) Hm). reflexivity.
Qed.


(** X11. Every handler of the page keeps the store in ascending order of its
    keys, and so with one record per name: adding a file of a name that is
    there replaces the record, it never stands beside it. *)
Theorem handlers_keep_one_record_per_name (W : WebCrypto) (e : event) (w : World) :
  names_ascending (db w) = true ->
  names_ascending (db (snd (handle e w))) = true
  /\ NoDup (map name (db (snd (handle e w)))).
Proof.
  intros H.
  assert (Hasc : names_ascending (db (snd (handle e w))) = true).
  { apply (@inv_handle W (fun store => names_ascending store = true)).
    - intros r store. apply names_ascending_put.
    - intros n store. apply names_ascending_delete.
    - exact H. }
  split; [exact Hasc|]. apply names_ascending_NoDup, Hasc.
Qed.

(** notes.txt is added over a store that holds a record of that name, and
    the user agrees to overwrite it. *)
Lemma handlers_keep_one_record_per_name_witness :
  names_ascending
    (db (Scenes.agreeing (Scenes.session_over [Examples.record_without_ciphertext])))
  = true
  /\ NoDup (map name
              (db (snd (handle (W := Symbolic.crypto)
                          (FilesChosen [Examples.notes_file])
                          (Scenes.agreeing
                             (Scenes.session_over
                                [Examples.record_without_ciphertext])))))).
Proof.
  split; [reflexivity|].
  apply (@handlers_keep_one_record_per_name Symbolic.crypto
           (FilesChosen [Examples.notes_file])
           (Scenes.agreeing (Scenes.session_over [Examples.record_without_ciphertext]))).
  reflexivity.
Defined.

(** X12. Unlock attempts, downloads and locking only read the store: after
    the unlock button, a row's download button, the download button of the
    footer and the lock button, the store holds what it held. *)
Theorem only_add_delete_reset_write_the_store (W : WebCrypto) (w : World) :
  (forall pwd, db (snd (unlockClick pwd w)) = db w)
  /\ (forall n, db (snd (fileActionClick n w)) = db w)
  /\ (forall checked, db (snd (downloadBtnClick checked w)) = db w)
  /\ db (snd (lockClick w)) = db w.
Proof.
  repeat split; intros; symmetry.
  - now apply (@inv_unlockClick W (eq (db w))).
  - now apply (@inv_fileActionClick W (eq (db w))).
  - now apply (@inv_downloadBtnClick W (eq (db w))).
Qed.

Lemma in_delete (x : FileRecord) (n : jsstring) (store : list FileRecord) :
  In x (DB.delete n store) -> In x store /\ name x <> n.
Proof.
  induction store as [|y rest IH]; cbn [DB.delete]; [intros []|].
  destruct (DB.key_compare n (name y)) eqn:E.
  - intros H. destruct (IH H). split; [right|]; assumption.
  - intros [->|H].
    + split; [now left|]. intros <-. rewrite key_compare_refl in E. discriminate.
    + destruct (IH H). split; [right|]; assumption.
  - intros [->|H].
    + split; [now left|]. intros <-. rewrite key_compare_refl in E. discriminate.
    + destruct (IH H). split; [right|]; assumption.
Qed.

(** The store once the names of [files] are deleted from it, one by one. *)
Lemma in_delete_names (x : FileRecord) (files store : list FileRecord) :
  In x (fold_left (fun d f => DB.delete (name f) d) files store) ->
  In x store /\ forall f, In f files -> name x <> name f.
Proof.
  revert store. induction files as [|f rest IH]; intros store; cbn [fold_left].
  - intros H. split; [exact H|]. intros f [].
  - intros H. destruct (IH _ H) as [Hin Hrest].
    destruct (in_delete _ _ _ Hin) as [Hs Hf].
    split; [exact Hs|]. intros g [<-|Hg]; auto.
Qed.

Lemma delete_own_names (store : list FileRecord) :
  fold_left (fun d f => DB.delete (name f) d) store store = [].
Proof.
  destruct (fold_left _ store store) as [|x l] eqn:E; [reflexivity|].
  exfalso. destruct (@in_delete_names x store store) as [Hin Hno].
  - rewrite E. now left.
  - exact (Hno x Hin eq_refl).
Qed.

Lemma delete_all_store (files : list FileRecord) (w : World) :
  exists w',
    delete_all files w = (Ok tt, w')
    /\ db w' = fold_left (fun d f => DB.delete (name f) d) files (db w)
    /\ crypto_log w' = crypto_log w
    /\ downloads w' = downloads w
    /\ messages w' = messages w.
Proof.
  revert w. induction files as [|file rest IH]; intro w; cbn [delete_all fold_left].
  - exists w. repeat split; reflexivity.
  - unfold bind at 1. unfold DB.deleteFile, bind, modify, ret. cbv beta iota.
    destruct (IH (set_db (DB.delete (name file) (db w)) w))
      as (w' & Hrun & Hdb & Hlog & Hdl & Hmsg).
    exists w'. repeat split; assumption.
Qed.

Lemma resetYesClick_outcome (w : World) :
  fst (resetYesClick w) = Ok tt
  /\ db (snd (resetYesClick w)) = []
  /\ unlocked (snd (resetYesClick w)) = false
  /\ sessionPassword (snd (resetYesClick w)) = null
  /\ messages (snd (resetYesClick w)) = messages w ++ [(MsgReset, info)]
  /\ crypto_log (snd (resetYesClick w)) = crypto_log w
  /\ downloads (snd (resetYesClick w)) = downloads w.
Proof.
  destruct (delete_all_store (db w) w) as (w' & Hrun & Hdb & Hlog & Hdl & Hmsg).
  assert (E : resetYesClick w =
              (Ok tt, shown MsgReset info
                        (set_sessionPassword null
                           (set_unlocked false (set_sessionPassword null w'))))).
  { unfold resetYesClick, DB.getAllFiles, gets. unfold bind at 1. unfold bind at 1.
    rewrite Hrun. reflexivity. }
  rewrite E. cbn. rewrite Hdb, Hlog, Hdl, Hmsg, delete_own_names.
  repeat split; reflexivity.
Qed.

(** X13. Confirming the reset erases every record of the store, whatever it
    held, locks the session and forgets its password, and says so; it calls
    nothing of [crypto.subtle] and hands no file to the browser. *)
Theorem resetYesClick_erases_every_record (w : World) :
  fst (resetYesClick w) = Ok tt
  /\ db (snd (resetYesClick w)) = []
  /\ unlocked (snd (resetYesClick w)) = false
  /\ sessionPassword (snd (resetYesClick w)) = null
  /\ messages (snd (resetYesClick w)) = messages w ++ [(MsgReset, info)]
  /\ crypto_log (snd (resetYesClick w)) = crypto_log w
  /\ downloads (snd (resetYesClick w)) = downloads w.
Proof. apply resetYesClick_outcome. Qed.

Lemma get_delete_none (n m : jsstring) (store : list FileRecord) :
  DB.get n store = None -> DB.get n (DB.delete m store) = None.
Proof.
  intros H. destruct (DB.key_compare n m) eqn:E.
  - apply key_compare_eq in E. subst m. apply get_delete_same.
  - rewrite get_delete_other; [exact H|].
    intros <-. rewrite key_compare_refl in E. discriminate.
  - rewrite get_delete_other; [exact H|].
    intros <-. rewrite key_compare_refl in E. discriminate.
Qed.

Lemma get_delete_ticked (n : jsstring) (checked : list jsstring)
    (store : list FileRecord) :
  (In n checked -> DB.get n (fold_left (fun d m => DB.delete m d) checked store) = None)
  /\ (~ In n checked ->
      DB.get n (fold_left (fun d m => DB.delete m d) checked store) = DB.get n store).
Proof.
  assert (Hnone : forall l d, DB.get n d = None ->
            DB.get n (fold_left (fun d m => DB.delete m d) l d) = None).
  { induction l as [|m l IH]; intros d H; cbn [fold_left]; [exact H|].
    apply IH, get_delete_none, H. }
  revert store. induction checked as [|m rest IH]; intros store; cbn [fold_left In].
  - split; [intros []|reflexivity].
  - split.
    + intros [->|Hin].
      * apply Hnone, get_delete_same.
      * now apply IH.
    + intros Hno. destruct (IH (DB.delete m store)) as [_ H].
      rewrite H by tauto. apply get_delete_other. intros <-. tauto.
Qed.

Lemma delete_each_store (checked : list jsstring) (w : World) :
  exists w',
    delete_each checked w = (Ok tt, w')
    /\ db w' = fold_left (fun d m => DB.delete m d) checked (db w)
    /\ crypto_log w' = crypto_log w
    /\ downloads w' = downloads w
    /\ confirm_pos w' = confirm_pos w.
Proof.
  revert w. induction checked as [|n rest IH]; intro w; cbn [delete_each fold_left].
  - exists w. repeat split; reflexivity.
  - unfold bind at 1. unfold DB.deleteFile, showMessage, bind, modify, ret.
    cbv beta iota.
    destruct (IH (shown (MsgDeleted n) info (set_db (DB.delete n (db w)) w)))
      as (w' & Hrun & Hdb & Hlog & Hdl & Hpos).
    exists w'. repeat split; assumption.
Qed.

(** X14. In an unlocked session the delete button asks once for the names
    ticked. When the user confirms, every ticked name is gone from the store
    and every other name is found as before; when the user declines, the
    store stays as it was. *)
Theorem deleteBtnClick_deletes_the_ticked (checked : list jsstring) (w : World) :
  unlocked w = true -> checked <> [] ->
  confirm_pos (snd (deleteBtnClick checked w)) = S (confirm_pos w)
  /\ if confirm_answers w (confirm_pos w)
     then forall n,
            (In n checked -> DB.get n (db (snd (deleteBtnClick checked w))) = None)
            /\ (~ In n checked ->
                DB.get n (db (snd (deleteBtnClick checked w))) = DB.get n (db w))
     else db (snd (deleteBtnClick checked w)) = db w.
Proof.
  intros Hu Hne. destruct checked as [|c rest]; [congruence|].
  destruct (confirm_answers w (confirm_pos w)) eqn:Hc.
  - destruct (delete_each_store (c :: rest) (set_confirm_pos (S (confirm_pos w)) w))
      as (w' & Hrun & Hdb & Hlog & Hdl & Hpos).
    assert (E : deleteBtnClick (c :: rest) w = (Ok tt, w')).
    { unfold deleteBtnClick, deleteSelected, confirm, refreshFileList.
      unfold bind at 1. unfold gets at 1. cbv beta iota. rewrite Hu. cbn [negb].
      unfold bind at 1. cbv beta iota. rewrite Hc.
      unfold bind at 1. rewrite Hrun. reflexivity. }
    rewrite E. cbn [snd]. rewrite Hdb, Hpos. cbn [db confirm_pos set_confirm_pos].
    split; [reflexivity|]. intros n. apply get_delete_ticked.
  - assert (E : deleteBtnClick (c :: rest) w
                = (Ok tt, set_confirm_pos (S (confirm_pos w)) w)).
    { unfold deleteBtnClick, deleteSelected, confirm, refreshFileList.
      unfold bind at 1. unfold gets at 1. cbv beta iota. rewrite Hu. cbn [negb].
      unfold bind at 1. cbv beta iota. rewrite Hc. reflexivity. }
    rewrite E. split; reflexivity.
Qed.

(** The one record of the store is ticked and the user says yes. *)
Lemma deleteBtnClick_deletes_the_ticked_witness :
  unlocked (Scenes.agreeing (Scenes.session_over [Examples.record0])) = true
  /\ [name Examples.record0] <> []
  /\ DB.get (name Examples.record0)
       (db (snd (deleteBtnClick [name Examples.record0]
                   (Scenes.agreeing (Scenes.session_over [Examples.record0])))))
     = None.
Proof.
  split; [reflexivity|]. split; [discriminate|].
  destruct (@deleteBtnClick_deletes_the_ticked
              [name Examples.record0]
              (Scenes.agreeing (Scenes.session_over [Examples.record0])))
    as [_ H].
  - reflexivity.
  - discriminate.
  - cbn [confirm_answers Scenes.agreeing] in H. apply H. now left.
Defined.

End StoreProperties.

(** ** script.js: adding, downloading and unlocking *)
Module PageProperties.
Import CryptoHelper CryptoHelperFacts CryptoRun Script StoreFacts EngineProperties.

Section WithCrypto.
Context {W : WebCrypto}.

(** The record [handleFilesAdded] stores for a file. *)
Lemma add_files_new (file : File) (pw : jsstring) (w : World) :
  DB.get (file_name file) (db w) = None ->
  sessionPassword w = val pw -> pw <> [] -> file_name file <> [] ->
  let saltb := map (entropy w) (seq (entropy_pos w) SALT_LENGTH) in
  let ivb := map (entropy w) (seq (entropy_pos w + SALT_LENGTH) IV_LENGTH) in
  let key := pbkdf2 (str2ab pw) saltb PBKDF2_ITERATIONS in
  exists c64 iv64 s64 h64,
    base642ab c64 = Ok (aes_gcm_seal key ivb (file_content file)) /\
    base642ab iv64 = Ok ivb /\
    base642ab s64 = Ok saltb /\
    ab2base64 (sha256 (file_content file)) = Ok h64 /\
    add_files [file] w =
      (Ok tt,
       shown (MsgSaved (file_name file)) info
         (set_db
            (DB.put {| name := file_name file; createdAt := now w;
                       size := N.of_nat (length (file_content file));
                       rec_ciphertext := val c64; rec_iv := val iv64;
                       rec_salt := val s64;
                       rec_iterations := val PBKDF2_ITERATIONS;
                       rec_hash := val h64; mimeType := file_type file |}
               (db w))
            (logged [CallImportKey (str2ab pw);
                     CallDeriveKey (str2ab pw) saltb PBKDF2_ITERATIONS;
                     CallDigest (file_content file);
                     CallEncrypt ivb (file_content file)]
               (set_entropy_pos (entropy_pos w + SALT_LENGTH + IV_LENGTH) w)))).
Proof.
  intros Hget Hsession Hpw Hname saltb ivb key.
  destruct (encryptBuffer_run (file_content file) w Hpw)
    as (c64 & iv64 & s64 & h64 & Hc & Hi & Hs & Hh & Henc).
  exists c64, iv64, s64, h64. repeat (split; [assumption|]).
  cbn [add_files]. unfold bind at 1. unfold try_catch.
  unfold bind at 1. unfold DB.getFile, gets at 1. cbv beta iota. rewrite Hget.
  unfold bind at 1. unfold ret at 1. cbv beta iota.
  unfold bind at 1. unfold gets at 1. cbv beta iota. rewrite Hsession.
  unfold bind at 1. unfold createEncryptedFileRecord.
  unfold bind at 1. rewrite Henc. cbv beta iota.
  unfold bind at 1. unfold gets at 1. cbv beta iota. unfold ret at 1.
  cbn [name createdAt size rec_ciphertext rec_iv rec_salt rec_iterations rec_hash
       ciphertext iv salt iterations hash].
  unfold DB.saveFile. cbn [name].
  destruct (file_name file) as [|c n] eqn:En; [congruence|].
  reflexivity.
Qed.

(** Downloading a stored record that decrypts. *)
Lemma downloadFile_run (n : jsstring) (r : FileRecord) (res : Decrypted)
    (w w1 : World) :
  DB.get n (db w) = Some r ->
  decryptBuffer (val (package_of r)) (sessionPassword w) w = (Ok res, w1) ->
  downloadFile n w =
    if ok res then
      (Ok tt,
       shown (MsgDownloaded (name r)) info
         (set_downloads (downloads w1 ++ [(name r, arrayBuffer res, mimeType r)]) w1))
    else if confirm_answers w1 (confirm_pos w1) then
      (Ok tt,
       shown (MsgDownloaded (name r)) info
         (set_downloads (downloads w1 ++ [(name r, arrayBuffer res, mimeType r)])
            (set_confirm_pos (S (confirm_pos w1)) w1)))
    else (Ok tt, set_confirm_pos (S (confirm_pos w1)) w1).
Proof.
  intros Hget Hdec. unfold downloadFile.
  unfold bind at 1. unfold DB.getFile, gets at 1. cbv beta iota. rewrite Hget.
  unfold bind at 1. unfold gets at 1. cbv beta iota.
  unfold bind at 1. rewrite Hdec.
  destruct (ok res).
  - reflexivity.
  - unfold bind at 1. unfold confirm. cbv beta iota.
    destruct (confirm_answers w1 (confirm_pos w1)); reflexivity.
Qed.


(** The same when the name is taken and the user agrees to overwrite. *)
Lemma add_files_overwrite (file : File) (pw : jsstring) (old : FileRecord) (w : World) :
  DB.get (file_name file) (db w) = Some old ->
  confirm_answers w (confirm_pos w) = true ->
  sessionPassword w = val pw -> pw <> [] -> file_name file <> [] ->
  let saltb := map (entropy w) (seq (entropy_pos w) SALT_LENGTH) in
  let ivb := map (entropy w) (seq (entropy_pos w + SALT_LENGTH) IV_LENGTH) in
  let key := pbkdf2 (str2ab pw) saltb PBKDF2_ITERATIONS in
  exists c64 iv64 s64 h64,
    base642ab c64 = Ok (aes_gcm_seal key ivb (file_content file)) /\
    base642ab iv64 = Ok ivb /\
    base642ab s64 = Ok saltb /\
    ab2base64 (sha256 (file_content file)) = Ok h64 /\
    add_files [file] w =
      (Ok tt,
       shown (MsgSaved (file_name file)) info
         (set_db
            (DB.put {| name := file_name file; createdAt := now w;
                       size := N.of_nat (length (file_content file));
                       rec_ciphertext := val c64; rec_iv := val iv64;
                       rec_salt := val s64;
                       rec_iterations := val PBKDF2_ITERATIONS;
                       rec_hash := val h64; mimeType := file_type file |}
               (db w))
            (logged [CallImportKey (str2ab pw);
                     CallDeriveKey (str2ab pw) saltb PBKDF2_ITERATIONS;
                     CallDigest (file_content file);
                     CallEncrypt ivb (file_content file)]
               (set_entropy_pos (entropy_pos w + SALT_LENGTH + IV_LENGTH)
                  (set_confirm_pos (S (confirm_pos w)) w))))).
Proof.
  intros Hget Hyes Hsession Hpw Hname saltb ivb key.
  destruct (encryptBuffer_run (file_content file)
              (set_confirm_pos (S (confirm_pos w)) w) Hpw)
    as (c64 & iv64 & s64 & h64 & Hc & Hi & Hs & Hh & Henc).
  exists c64, iv64, s64, h64. repeat (split; [assumption|]).
  cbn [add_files]. unfold bind at 1. unfold try_catch.
  unfold bind at 1. unfold DB.getFile, gets at 1. cbv beta iota. rewrite Hget.
  unfold bind at 1. unfold confirm at 1. cbv beta iota. rewrite Hyes.
  unfold bind at 1. unfold gets at 1. cbv beta iota.
  cbn [sessionPassword set_confirm_pos]. rewrite Hsession.
  unfold bind at 1. unfold createEncryptedFileRecord.
  unfold bind at 1. rewrite Henc. cbv beta iota.
  unfold bind at 1. unfold gets at 1. cbv beta iota. unfold ret at 1.
  cbn [name createdAt size rec_ciphertext rec_iv rec_salt rec_iterations rec_hash
       ciphertext iv salt iterations hash].
  unfold DB.saveFile. cbn [name].
  destruct (file_name file) as [|c n] eqn:En; [congruence|].
  reflexivity.
Qed.

(** In an unlocked session [handleFilesAdded] runs its loop. *)
Lemma handleFilesAdded_unlocked (fileList : list File) (pw : jsstring) (w w' : World) :
  unlocked w = true -> sessionPassword w = val pw -> pw <> [] ->
  add_files fileList w = (Ok tt, w') ->
  handleFilesAdded fileList w = (Ok tt, w').
Proof.
  intros Hu Hs Hpw Hadd. unfold handleFilesAdded, refreshFileList.
  unfold bind at 1. unfold gets at 1. cbv beta iota.
  unfold bind at 1. unfold gets at 1. cbv beta iota.
  rewrite Hu, Hs. destruct pw as [|c pw]; [congruence|]. cbn [negb truthy_string orb].
  unfold bind. rewrite Hadd. reflexivity.
Qed.

(** Decrypting the record stored for a file under a password of the same
    UTF-8 encoding. *)
Lemma stored_record_decrypts (content : bytes) (pw pw' : jsstring)
    (saltb ivb : bytes) (r : FileRecord) (c64 iv64 s64 h64 : jsstring) (w : World) :
  aead_correct W -> pw' <> [] -> str2ab pw' = str2ab pw ->
  rec_ciphertext r = val c64 -> rec_iv r = val iv64 -> rec_salt r = val s64 ->
  rec_iterations r = val PBKDF2_ITERATIONS -> rec_hash r = val h64 ->
  base642ab c64
  = Ok (aes_gcm_seal (pbkdf2 (str2ab pw) saltb PBKDF2_ITERATIONS) ivb content) ->
  base642ab iv64 = Ok ivb -> base642ab s64 = Ok saltb ->
  ab2base64 (sha256 content) = Ok h64 ->
  exists res,
    decryptBuffer (val (package_of r)) (val pw') w =
      (Ok res,
       logged [CallImportKey (str2ab pw');
               CallDeriveKey (str2ab pw') saltb PBKDF2_ITERATIONS;
               CallDecrypt ivb
                 (aes_gcm_seal (pbkdf2 (str2ab pw) saltb PBKDF2_ITERATIONS) ivb content);
               CallDigest content] w)
    /\ arrayBuffer res = content /\ ok res = true.
Proof.
  intros Hcorrect Hpw' Hsame Ec Ei Es Eit Eh Hc Hi Hs Hh.
  assert (Hiv : base642ab (to_string (iv (package_of r))) = Ok ivb).
  { cbn [package_of iv]. now rewrite Ei. }
  assert (Hsalt : base642ab (to_string (salt (package_of r))) = Ok saltb).
  { cbn [package_of salt]. now rewrite Es. }
  assert (Hit : number_or (iterations (package_of r)) PBKDF2_ITERATIONS
                = PBKDF2_ITERATIONS).
  { cbn [package_of iterations]. now rewrite Eit. }
  assert (Hrange : (0 < number_or (iterations (package_of r)) PBKDF2_ITERATIONS
                    < 2 ^ 32)%Z).
  { rewrite Hit. apply default_iterations_in_range. }
  assert (Hopen : aes_gcm_open
            (pbkdf2 (str2ab pw') saltb
               (number_or (iterations (package_of r)) PBKDF2_ITERATIONS))
            ivb (aes_gcm_seal (pbkdf2 (str2ab pw) saltb PBKDF2_ITERATIONS) ivb content)
          = Some content).
  { rewrite Hit, Hsame. apply Hcorrect. }
  rewrite (@decryptBuffer_opened W (package_of r) pw' c64 _ ivb saltb content h64 w
             Ec Hpw' Hc Hiv Hsalt Hrange Hopen Hh).
  rewrite Hit. eexists. split; [reflexivity|]. split; [reflexivity|].
  cbn [ok package_of hash]. rewrite Eh.
  destruct h64 as [|c h]; [reflexivity|].
  cbn [truthy_string strict_eq]. apply jsstring_eqb_refl.
Qed.

(** A row's download button over a record that decrypts with a matching
    fingerprint. *)
Lemma fileActionClick_downloads (n : jsstring) (r : FileRecord) (res : Decrypted)
    (w w1 : World) :
  unlocked w = true ->
  DB.get n (db w) = Some r ->
  decryptBuffer (val (package_of r)) (sessionPassword w) w = (Ok res, w1) ->
  ok res = true -> downloads w1 = downloads w ->
  downloads (snd (fileActionClick n w))
  = downloads w ++ [(name r, arrayBuffer res, mimeType r)].
Proof.
  intros Hu Hget Hdec Hok Hdl.
  unfold fileActionClick. unfold bind at 1. unfold gets at 1. cbv beta iota.
  rewrite Hu. cbn [negb]. unfold try_catch.
  rewrite (downloadFile_run n w Hget Hdec), Hok. cbn. now rewrite Hdl.
Qed.

End WithCrypto.

(** X15. What is added comes back: in an unlocked session, a file added
    under a name that is free, or under a taken name with the overwrite
    confirmed, is stored, and the download button of its row then hands the
    browser a file of the same name, the same content and the same MIME
    type; the cipher is assumed to open what it sealed. *)
Theorem added_file_downloads_unchanged (W : WebCrypto) (file : File) (pw : jsstring)
    (w : World) :
  aead_correct W ->
  unlocked w = true -> sessionPassword w = val pw -> pw <> [] ->
  file_name file <> [] ->
  DB.get (file_name file) (db w) = None \/ confirm_answers w (confirm_pos w) = true ->
  downloads (snd (fileActionClick (file_name file) (snd (handleFilesAdded [file] w))))
  = downloads w ++ [(file_name file, file_content file, file_type file)].
Proof.
  intros Hcorrect Hu Hs Hpw Hname Hfree.
  assert (Hadd : exists saltb ivb c64 iv64 s64 h64 w0 calls,
            add_files [file] w =
              (Ok tt,
               shown (MsgSaved (file_name file)) info
                 (set_db
                    (DB.put {| name := file_name file; createdAt := now w;
                               size := N.of_nat (length (file_content file));
                               rec_ciphertext := val c64; rec_iv := val iv64;
                               rec_salt := val s64;
                               rec_iterations := val PBKDF2_ITERATIONS;
                               rec_hash := val h64; mimeType := file_type file |}
                       (db w))
                    (logged calls w0)))
            /\ base642ab c64
               = Ok (aes_gcm_seal (pbkdf2 (str2ab pw) saltb PBKDF2_ITERATIONS) ivb
                       (file_content file))
            /\ base642ab iv64 = Ok ivb /\ base642ab s64 = Ok saltb
            /\ ab2base64 (sha256 (file_content file)) = Ok h64
            /\ unlocked w0 = true /\ sessionPassword w0 = val pw
            /\ downloads w0 = downloads w).
  { destruct (DB.get (file_name file) (db w)) as [old|] eqn:Hget.
    - destruct Hfree as [Hfree|Hyes]; [discriminate|].
      destruct (add_files_overwrite file w Hget Hyes Hs Hpw Hname)
        as (c64 & iv64 & s64 & h64 & Hc & Hi & Hsalt & Hh & Hrun).
      eexists _, _, c64, iv64, s64, h64, _, _.
      split; [exact Hrun|]. repeat (split; [eassumption|]).
      repeat split; cbn; assumption || reflexivity.
    - destruct (add_files_new file w Hget Hs Hpw Hname)
        as (c64 & iv64 & s64 & h64 & Hc & Hi & Hsalt & Hh & Hrun).
      eexists _, _, c64, iv64, s64, h64, _, _.
      split; [exact Hrun|]. repeat (split; [eassumption|]).
      repeat split; cbn; assumption || reflexivity. }
  destruct Hadd as (saltb & ivb & c64 & iv64 & s64 & h64 & w0 & calls
                    & Hrun & Hc & Hi & Hsalt & Hh & Hu0 & Hs0 & Hdl0).
  rewrite (@handleFilesAdded_unlocked W [file] pw w _ Hu Hs Hpw Hrun). cbn [snd].
  match type of Hrun with
  | _ = (_, shown _ _ (set_db (DB.put ?r _) _)) => set (rec := r) in *
  end.
  set (w1 := shown (MsgSaved (file_name file)) info
               (set_db (DB.put rec (db w)) (logged calls w0))) in *.
  assert (Hget1 : DB.get (file_name file) (db w1) = Some rec).
  { cbn. apply (get_put_same rec (db w)). }
  destruct (@stored_record_decrypts W (file_content file) pw pw saltb ivb rec
              c64 iv64 s64 h64 w1 Hcorrect Hpw eq_refl eq_refl eq_refl eq_refl
              eq_refl eq_refl Hc Hi Hsalt Hh) as (res & Hdec & Hbuf & Hok).
  assert (Hs1 : sessionPassword w1 = val pw) by (cbn; exact Hs0).
  rewrite <- Hs1 in Hdec.
  rewrite (@fileActionClick_downloads W (file_name file) rec res w1 _
             ltac:(cbn; exact Hu0) Hget1 Hdec Hok eq_refl).
  rewrite Hbuf. cbn. rewrite Hdl0. reflexivity.
Qed.


(** notes.txt, added in a session over an empty store and downloaded. *)
Lemma added_file_downloads_unchanged_witness :
  aead_correct Symbolic.crypto
  /\ downloads
       (snd (fileActionClick (W := Symbolic.crypto) (file_name Examples.notes_file)
               (snd (handleFilesAdded (W := Symbolic.crypto) [Examples.notes_file]
                       (Scenes.session_over [])))))
     = downloads (Scenes.session_over [])
       ++ [(file_name Examples.notes_file, file_content Examples.notes_file,
            file_type Examples.notes_file)].
Proof.
  split; [exact SymbolicFacts.symbolic_correct|].
  apply (@added_file_downloads_unchanged Symbolic.crypto Examples.notes_file
           Examples.correct_horse (Scenes.session_over [])).
  - exact SymbolicFacts.symbolic_correct.
  - reflexivity.
  - reflexivity.
  - discriminate.
  - discriminate.
  - left. reflexivity.
Defined.


(** X16. A declined overwrite skips the file: when the name of the first
    file is taken and the user answers no, nothing is encrypted or stored
    for it, and the remaining files are handled as if it had not been in the
    list. *)
Theorem declined_overwrite_skips_the_file (W : WebCrypto) (file : File)
    (rest : list File) (old : FileRecord) (w : World) :
  unlocked w = true -> truthy_string (sessionPassword w) = true ->
  DB.get (file_name file) (db w) = Some old ->
  confirm_answers w (confirm_pos w) = false ->
  handleFilesAdded (file :: rest) w
  = handleFilesAdded rest (set_confirm_pos (S (confirm_pos w)) w).
Proof.
  intros Hu Hs Hget Hno.
  assert (Hguard : forall l w0,
            unlocked w0 = true -> truthy_string (sessionPassword w0) = true ->
            handleFilesAdded l w0 = (add_files l ;;; refreshFileList) w0).
  { intros l w0 Hu0 Hs0. unfold handleFilesAdded.
    unfold bind at 1. unfold gets at 1. cbv beta iota.
    unfold bind at 1. unfold gets at 1. cbv beta iota.
    now rewrite Hu0, Hs0. }
  rewrite (Hguard (file :: rest) w Hu Hs).
  rewrite (Hguard rest (set_confirm_pos (S (confirm_pos w)) w) Hu Hs).
  assert (Hskip : add_files (file :: rest) w
                  = add_files rest (set_confirm_pos (S (confirm_pos w)) w)).
  { cbn [add_files]. unfold bind at 1. unfold try_catch.
    unfold bind at 1. unfold DB.getFile, gets at 1. cbv beta iota. rewrite Hget.
    unfold bind at 1. unfold confirm at 1. cbv beta iota. rewrite Hno.
    reflexivity. }
  unfold bind. now rewrite Hskip.
Qed.

(** notes.txt again, over a store that holds it, and the user says no. *)
Lemma declined_overwrite_skips_the_file_witness :
  DB.get (file_name Examples.notes_file) (db (Scenes.session_over [Examples.record0]))
  = Some Examples.record0
  /\ handleFilesAdded (W := Symbolic.crypto) [Examples.notes_file]
       (Scenes.session_over [Examples.record0])
     = handleFilesAdded (W := Symbolic.crypto) []
         (set_confirm_pos (S (confirm_pos (Scenes.session_over [Examples.record0])))
            (Scenes.session_over [Examples.record0])).
Proof.
  split; [reflexivity|].
  apply (@declined_overwrite_skips_the_file Symbolic.crypto Examples.notes_file []
           Examples.record0 (Scenes.session_over [Examples.record0]));
    reflexivity.
Defined.

(** X17. A download whose fingerprint check fails is never silent. Once a
    stored record has decrypted, the file goes to the browser at once when
    the integrity flag is true; when it is false the user is asked, once,
    and the file goes to the browser only on a yes. *)
Theorem download_asks_when_fingerprint_differs (W : WebCrypto) (n : jsstring)
    (r : FileRecord) (res : Decrypted) (w w1 : World) :
  DB.get n (db w) = Some r ->
  decryptBuffer (val (package_of r)) (sessionPassword w) w = (Ok res, w1) ->
  confirm_pos (snd (downloadFile n w))
  = (if ok res then confirm_pos w else S (confirm_pos w))
  /\ downloads (snd (downloadFile n w))
     = (if ok res || confirm_answers w (confirm_pos w)
        then downloads w ++ [(name r, arrayBuffer res, mimeType r)]
        else downloads w).
Proof.
  intros Hget Hdec.
  destruct (decryptBuffer_log_only W (val (package_of r)) (sessionPassword w))
    as (r0 & calls & Hlog).
  pose proof Hdec as Hdec'. rewrite Hlog in Hdec'. injection Hdec' as _ <-.
  rewrite (downloadFile_run n w Hget Hdec).
  cbn [confirm_answers confirm_pos downloads logged set_crypto_log].
  destruct (ok res); [split; reflexivity|].
  cbn [orb]. destruct (confirm_answers w (confirm_pos w)); split; reflexivity.
Qed.

(** A record whose fingerprint is that of another plaintext, and a user who
    answers no: nothing is downloaded. *)
Lemma download_asks_when_fingerprint_differs_witness :
  ok Scenes.decrypted_with_other_fingerprint = false
  /\ confirm_pos
       (snd (downloadFile (W := Symbolic.crypto)
               (name Scenes.record_with_other_fingerprint)
               (Scenes.session_over [Scenes.record_with_other_fingerprint])))
     = 1%nat
  /\ downloads
       (snd (downloadFile (W := Symbolic.crypto)
               (name Scenes.record_with_other_fingerprint)
               (Scenes.session_over [Scenes.record_with_other_fingerprint])))
     = [].
Proof.
  split; [reflexivity|].
  apply (@download_asks_when_fingerprint_differs Symbolic.crypto
           (name Scenes.record_with_other_fingerprint)
           Scenes.record_with_other_fingerprint
           Scenes.decrypted_with_other_fingerprint
           (Scenes.session_over [Scenes.record_with_other_fingerprint])
           Scenes.world_after_decryption).
  - reflexivity.
  - vm_compute. reflexivity.
Defined.

(** X18. The download button of a row whose name is not in the store: the
    error 'File not found in DB' is shown as the reason and nothing else
    happens; the password is not looked at and [crypto.subtle] is not
    called. *)
Theorem download_of_a_missing_name (W : WebCrypto) (n : jsstring) (w : World) :
  unlocked w = true -> DB.get n (db w) = None ->
  downloadFile n w = (Err FileNotFound, w)
  /\ fileActionClick n w
     = (Ok tt, shown (MsgDownloadFailed FileNotFound) error_level w)
  /\ downloadBtnClick [n] w
     = (Ok tt, shown (MsgFailedToDownload n FileNotFound) error_level w).
Proof.
  intros Hu Hget.
  assert (H : downloadFile n w = (Err FileNotFound, w)).
  { unfold downloadFile, DB.getFile, bind, gets. now rewrite Hget. }
  split; [exact H|]. split.
  - unfold fileActionClick. unfold bind at 1. unfold gets at 1. cbv beta iota.
    rewrite Hu. cbn [negb]. unfold try_catch. now rewrite H.
  - unfold downloadBtnClick. unfold bind at 1. unfold gets at 1. cbv beta iota.
    rewrite Hu. cbn [negb downloadSelected download_each].
    unfold bind, try_catch. now rewrite H.
Qed.


(** The download button of notes.txt over an empty store. *)
Lemma download_of_a_missing_name_witness :
  downloadFile (W := Symbolic.crypto) (file_name Examples.notes_file)
    (Scenes.session_over [])
  = (Err FileNotFound, Scenes.session_over [])
  /\ fileActionClick (W := Symbolic.crypto) (file_name Examples.notes_file)
       (Scenes.session_over [])
     = (Ok tt,
        shown (MsgDownloadFailed FileNotFound) error_level (Scenes.session_over []))
  /\ downloadBtnClick (W := Symbolic.crypto) [file_name Examples.notes_file]
       (Scenes.session_over [])
     = (Ok tt,
        shown (MsgFailedToDownload (file_name Examples.notes_file) FileNotFound)
          error_level (Scenes.session_over [])).
Proof.
  apply (@download_of_a_missing_name Symbolic.crypto (file_name Examples.notes_file)
           (Scenes.session_over [])); reflexivity.
Defined.




(** Where the derivation pads its key as HMAC does, the page whose first
    file was added under "correct horse" is unlocked by "correct horse"
    followed by U+0000 as well. *)
Lemma padded_password_unlocks :
  str2ab Examples.correct_horse_nul <> str2ab Examples.correct_horse
  /\ fst (tryUnlock (W := Padded.crypto) Examples.correct_horse_nul
            (snd (lockClick
                    (snd (handleFilesAdded (W := Padded.crypto)
                            [Examples.notes_file] (Scenes.session_over []))))))
     = Ok true.
Proof.
  split; [vm_compute; discriminate|]. vm_compute. reflexivity.
Qed.

End PageProperties.

(** ** script.js: the session and the errors of the handlers *)
Module SessionProperties.
Import CryptoHelper Script SessionFrame SessionClaims.

Section WithCrypto.
Context {W : WebCrypto}.

(** After [tryUnlock], an unlocked session holds the password tried. *)
Lemma tryUnlock_unlocked_with_password (password : jsstring) (w : World) :
  unlocked (snd (tryUnlock password w)) = true ->
  sessionPassword (snd (tryUnlock password w)) = val password.
Proof.
  destruct (db w) as [|sample rest] eqn:Hdb.
  - rewrite (tryUnlock_empty_store password w Hdb). reflexivity.
  - destruct (decryptBuffer (val (package_of sample)) (val password) w)
      as [[r|e] w1] eqn:Hdec.
    + rewrite (tryUnlock_sample_decrypts password w Hdb Hdec). reflexivity.
    + rewrite (tryUnlock_sample_raises password w Hdb Hdec). discriminate.
Qed.

Lemma resetYesClick_locks (w : World) : unlocked (snd (resetYesClick w)) = false.
Proof.
  unfold resetYesClick, DB.getAllFiles, gets. unfold bind at 1. unfold bind at 1.
  destruct (delete_all_run W (db w) w) as (w' & Hrun & _).
  rewrite Hrun. reflexivity.
Qed.

Lemma handle_unlocked_with_password (e : event) (w : World) :
  (unlocked w = true -> exists c s, sessionPassword w = val (c :: s)) ->
  unlocked (snd (handle e w)) = true ->
  exists c s, sessionPassword (snd (handle e w)) = val (c :: s).
Proof.
  intros Hinv.
  assert (Hkeep : forall m : M unit,
             keeps_session m ->
             unlocked (snd (m w)) = true ->
             exists c s, sessionPassword (snd (m w)) = val (c :: s)).
  { intros m Hm Hu. destruct (Hm w) as [H1 H2]. rewrite H1. apply Hinv. congruence. }
  destruct e as [files|n|checked|checked|pwd| |]; cbn [handle].
  - apply Hkeep, keeps_filesChosen.
  - apply Hkeep, keeps_fileActionClick.
  - apply Hkeep, keeps_downloadBtnClick.
  - apply Hkeep, keeps_deleteBtnClick.
  - destruct pwd as [|c pwd].
    + apply Hkeep. apply keeps_showMessage.
    + unfold unlockClick.
      assert (Hsnd : snd ((tryUnlock (c :: pwd) ;;; ret tt) w)
                     = snd (tryUnlock (c :: pwd) w)).
      { unfold bind. destruct (tryUnlock (c :: pwd) w) as [[b|err] w1]; reflexivity. }
      rewrite Hsnd. intros Hu. exists c, pwd.
      now apply tryUnlock_unlocked_with_password.
  - rewrite resetYesClick_locks. discriminate.
  - discriminate.
Qed.

End WithCrypto.

(** X20. In every state the page can be in, an unlocked session holds a
    non-empty string as its password: the unlock button passes on no empty
    password, and nothing but a successful unlock sets the session
    unlocked. *)
Theorem unlocked_session_holds_a_password (W : WebCrypto) (w : World) :
  reachable w -> unlocked w = true ->
  exists c s, sessionPassword w = val (c :: s).
Proof.
  induction 1 as [w0|w e Hreach IH].
  - discriminate.
  - now apply handle_unlocked_with_password.
Qed.

(** The page just loaded over an empty store, unlocked with
    "correct horse". *)
Lemma unlocked_session_holds_a_password_witness :
  unlocked (snd (handle (W := Symbolic.crypto) (UnlockClick Examples.correct_horse)
                   Examples.loaded0)) = true
  /\ exists c s,
       sessionPassword
         (snd (handle (W := Symbolic.crypto) (UnlockClick Examples.correct_horse)
                 Examples.loaded0))
       = val (c :: s).
Proof.
  split; [reflexivity|].
  apply (@unlocked_session_holds_a_password Symbolic.crypto
           (snd (handle (W := Symbolic.crypto) (UnlockClick Examples.correct_horse)
                   Examples.loaded0))).
  - apply (reach_event (W := Symbolic.crypto)). apply (reach_load (W := Symbolic.crypto)).
  - reflexivity.
Defined.

(** X21. Adding files, downloading and deleting leave the session as they
    found it: the unlock button, the reset and the lock button are the only
    handlers that change the session password or the unlocked flag. *)
Theorem session_changes_only_on_unlock_reset_lock (W : WebCrypto) :
  (forall files, keeps_session (filesChosen files))
  /\ (forall n, keeps_session (fileActionClick n))
  /\ (forall checked, keeps_session (downloadBtnClick checked))
  /\ (forall checked, keeps_session (deleteBtnClick checked)).
Proof.
  split; [|split; [|split]]; intro.
  - apply keeps_filesChosen.
  - apply keeps_fileActionClick.
  - apply keeps_downloadBtnClick.
  - apply keeps_deleteBtnClick.
Qed.

Section Errors.
Context {W : WebCrypto}.

Lemma nr_ret (A : Type) (a : A) : never_raises (ret a).
Proof. intros w. now exists a. Qed.

Lemma nr_gets (A : Type) (f : World -> A) : never_raises (gets f).
Proof. intros w. now exists (f w). Qed.

Lemma nr_modify (f : World -> World) : never_raises (modify f).
Proof. intros w. now exists tt. Qed.

Lemma nr_bind (A B : Type) (m : M A) (f : A -> M B) :
  never_raises m -> (forall a, never_raises (f a)) -> never_raises (bind m f).
Proof.
  intros Hm Hf w. unfold bind. destruct (Hm w) as [a Ha].
  destruct (m w) as [[a'|e] w1]; cbn [fst] in Ha; [|discriminate].
  apply Hf.
Qed.

(** What is caught does not get out, whatever the body raises. *)
Lemma nr_try_catch (A : Type) (m : M A) (h : error -> M A) :
  (forall e, never_raises (h e)) -> never_raises (try_catch m h).
Proof.
  intros Hh w. unfold try_catch.
  destruct (m w) as [[a|e] w1]; [now exists a|apply Hh].
Qed.

Lemma nr_confirm : never_raises confirm.
Proof. intros w. now eexists. Qed.

Ltac contained :=
  repeat first
    [ assumption
    | apply nr_ret | apply nr_gets | apply nr_modify | apply nr_confirm
    | apply nr_try_catch; intro
    | apply nr_bind; [|intro]
    | match goal with
      | |- never_raises (match ?x with _ => _ end) => destruct x
      | |- never_raises (if ?b then _ else _) => destruct b
      end ].

Lemma nr_tryUnlock (password : jsstring) : never_raises (tryUnlock password).
Proof.
  unfold tryUnlock, DB.getAllFiles, setUnlockedState, showMessage, refreshFileList.
  contained.
Qed.

Lemma nr_add_files (fileList : list File) : never_raises (add_files fileList).
Proof.
  induction fileList as [|file rest IH]; cbn [add_files]; unfold showMessage; contained.
Qed.

Lemma nr_download_each (checked : list jsstring) : never_raises (download_each checked).
Proof.
  induction checked as [|n rest IH]; cbn [download_each]; unfold showMessage; contained.
Qed.

Lemma nr_delete_each (checked : list jsstring) : never_raises (delete_each checked).
Proof.
  induction checked as [|n rest IH]; cbn [delete_each];
    unfold DB.deleteFile, showMessage; contained.
Qed.

Lemma nr_delete_all (files : list FileRecord) : never_raises (delete_all files).
Proof.
  induction files as [|file rest IH]; cbn [delete_all]; unfold DB.deleteFile; contained.
Qed.

(** One turn of the loop of [handleFilesAdded] ends without an error, so
    the loop goes on to the next file. *)
Lemma add_files_cons (file : File) (rest : list File) (w : World) :
  add_files (file :: rest) w = add_files rest (snd (add_files [file] w)).
Proof.
  cbn [add_files].
  match goal with
  | |- context [try_catch ?m ?h] => set (T := try_catch m h)
  end.
  assert (HT : never_raises T).
  { apply nr_try_catch. intro. apply nr_modify. }
  unfold bind, ret. destruct (HT w) as [u Hu].
  destruct (T w) as [[u'|e] w1]; [reflexivity|discriminate Hu].
Qed.

Lemma add_files_app (l1 l2 : list File) (w : World) :
  add_files (l1 ++ l2) w = add_files l2 (snd (add_files l1 w)).
Proof.
  revert w. induction l1 as [|file l1 IH]; intros w; [reflexivity|].
  cbn [app]. rewrite add_files_cons, IH. f_equal. f_equal.
  now rewrite (add_files_cons file l1 w).
Qed.

Lemma download_each_cons (n : jsstring) (rest : list jsstring) (w : World) :
  download_each (n :: rest) w = download_each rest (snd (download_each [n] w)).
Proof.
  cbn [download_each].
  match goal with
  | |- context [try_catch ?m ?h] => set (T := try_catch m h)
  end.
  assert (HT : never_raises T).
  { apply nr_try_catch. intro. apply nr_modify. }
  unfold bind, ret. destruct (HT w) as [u Hu].
  destruct (T w) as [[u'|e] w1]; [reflexivity|discriminate Hu].
Qed.

Lemma download_each_app (l1 l2 : list jsstring) (w : World) :
  download_each (l1 ++ l2) w = download_each l2 (snd (download_each l1 w)).
Proof.
  revert w. induction l1 as [|n l1 IH]; intros w; [reflexivity|].
  cbn [app]. rewrite download_each_cons, IH. f_equal. f_equal.
  now rewrite (download_each_cons n l1 w).
Qed.

End Errors.

(** X22. No handler of the page ends with an error: whatever encryption,
    decryption or a missing record raises while files are added or
    downloaded or a password is tried is caught inside the handler; the
    requests of IndexedDB are taken to succeed. *)
Theorem handlers_contain_their_errors (W : WebCrypto) (e : event) :
  never_raises (handle e).
Proof.
  destruct e as [files|n|checked|checked|pwd| |]; cbn [handle].
  - destruct files as [|f files]; cbn [filesChosen]; [apply nr_ret|].
    unfold handleFilesAdded, showMessage, refreshFileList.
    apply nr_bind; [apply nr_gets|]. intro u.
    apply nr_bind; [apply nr_gets|]. intro p.
    destruct (negb u || negb (truthy_string p)); [apply nr_modify|].
    apply nr_bind; [apply nr_add_files|]. intro. apply nr_ret.
  - unfold fileActionClick, showMessage.
    apply nr_bind; [apply nr_gets|]. intro u.
    destruct (negb u); [apply nr_modify|].
    apply nr_try_catch. intro. apply nr_modify.
  - unfold downloadBtnClick, downloadSelected, showMessage.
    apply nr_bind; [apply nr_gets|]. intro u.
    destruct (negb u); [apply nr_modify|].
    destruct checked; [apply nr_modify|apply nr_download_each].
  - unfold deleteBtnClick, deleteSelected, showMessage, refreshFileList.
    apply nr_bind; [apply nr_gets|]. intro u.
    destruct (negb u); [apply nr_modify|].
    destruct checked; [apply nr_modify|].
    apply nr_bind; [apply nr_confirm|]. intros [|]; [|apply nr_ret].
    apply nr_bind; [apply nr_delete_each|]. intro. apply nr_ret.
  - destruct pwd as [|c pwd]; cbn [unlockClick]; [apply nr_modify|].
    apply nr_bind; [apply nr_tryUnlock|]. intro. apply nr_ret.
  - unfold resetYesClick, DB.getAllFiles, setUnlockedState, showMessage.
    apply nr_bind; [apply nr_gets|]. intro files.
    apply nr_bind; [apply nr_delete_all|]. intro.
    apply nr_bind; [apply nr_modify|]. intro.
    apply nr_bind.
    + apply nr_bind; [apply nr_modify|]. intro.
      apply nr_bind; [apply nr_gets|]. intro u.
      destruct (negb u); [apply nr_modify|apply nr_ret].
    + intro. apply nr_modify.
  - unfold lockClick, init, setUnlockedState, refreshFileList.
    apply nr_bind; [apply nr_modify|]. intro.
    apply nr_bind; [|intro; apply nr_ret].
    apply nr_bind; [apply nr_modify|]. intro.
    apply nr_bind; [apply nr_gets|]. intro u.
    destruct (negb u); [apply nr_modify|apply nr_ret].
Qed.

(** X23. The files of one drop are handled one by one: in an unlocked
    session, adding two lists of files at once is adding the first list and
    then the second; an error or a declined overwrite for one file changes
    nothing for the files after it. The same holds for the names ticked for
    download. *)
Theorem batches_are_handled_one_by_one (W : WebCrypto) (w : World) :
  unlocked w = true -> truthy_string (sessionPassword w) = true ->
  (forall l1 l2,
     handleFilesAdded (l1 ++ l2) w = handleFilesAdded l2 (snd (handleFilesAdded l1 w)))
  /\ (forall l1 l2, l1 <> [] -> l2 <> [] ->
        downloadBtnClick (l1 ++ l2) w
        = downloadBtnClick l2 (snd (downloadBtnClick l1 w))).
Proof.
  intros Hu Hs. split.
  - intros l1 l2.
    assert (Hguard : forall l w0,
              unlocked w0 = true -> truthy_string (sessionPassword w0) = true ->
              handleFilesAdded l w0 = (add_files l ;;; refreshFileList) w0).
    { intros l w0 Hu0 Hs0. unfold handleFilesAdded.
      unfold bind at 1. unfold gets at 1. cbv beta iota.
      unfold bind at 1. unfold gets at 1. cbv beta iota.
      now rewrite Hu0, Hs0. }
    assert (Hsnd : forall l, snd ((add_files l ;;; refreshFileList) w)
                             = snd (add_files l w)).
    { intros l. unfold bind, refreshFileList, ret.
      destruct (add_files l w) as [[u|e] w1]; reflexivity. }
    destruct (keeps_add_files l1 w) as [Hs1 Hu1].
    rewrite (Hguard (l1 ++ l2) w Hu Hs), (Hguard l1 w Hu Hs), Hsnd.
    rewrite (Hguard l2 (snd (add_files l1 w))) by congruence.
    unfold bind. now rewrite add_files_app.
  - intros l1 l2 H1 H2.
    assert (Hguard : forall l w0,
              unlocked w0 = true -> l <> [] ->
              downloadBtnClick l w0 = download_each l w0).
    { intros l w0 Hu0 Hl. unfold downloadBtnClick, downloadSelected.
      unfold bind at 1. unfold gets at 1. cbv beta iota. rewrite Hu0.
      destruct l; [congruence|reflexivity]. }
    destruct (keeps_download_each l1 w) as [_ Hu1].
    rewrite (Hguard (l1 ++ l2) w Hu), (Hguard l1 w Hu H1).
    + rewrite (Hguard l2 (snd (download_each l1 w))) by congruence.
      apply download_each_app.
    + destruct l1; [congruence|discriminate].
Qed.

(** notes.txt dropped together with a file without a name. *)
Lemma batches_are_handled_one_by_one_witness :
  handleFilesAdded (W := Symbolic.crypto)
    ([Examples.notes_file] ++ [Scenes.nameless_file]) (Scenes.session_over [])
  = handleFilesAdded (W := Symbolic.crypto) [Scenes.nameless_file]
      (snd (handleFilesAdded (W := Symbolic.crypto) [Examples.notes_file]
              (Scenes.session_over []))).
Proof.
  destruct (@batches_are_handled_one_by_one Symbolic.crypto (Scenes.session_over []))
    as [H _].
  - reflexivity.
  - reflexivity.
  - apply H.
Defined.

End SessionProperties.

(** ** script.js: a store grown by the page is under one password *)
Module OnePasswordFacts.
Import CryptoHelper CryptoHelperFacts CryptoRun Script SessionFrame SessionClaims.
Import StoreFacts StoreFrame StoreProperties PageProperties SessionProperties.

Section WithCrypto.
Context {W : WebCrypto}.

Lemma Forall_put (P : FileRecord -> Prop) (r : FileRecord) (store : list FileRecord) :
  P r -> Forall P store -> Forall P (DB.put r store).
Proof.
  intros Hr. induction 1 as [|x rest Hx Hrest IH]; cbn [DB.put].
  - now constructor.
  - destruct (DB.key_compare (name r) (name x)); repeat constructor; assumption.
Qed.

Lemma Forall_delete (P : FileRecord -> Prop) (n : jsstring) (store : list FileRecord) :
  Forall P store -> Forall P (DB.delete n store).
Proof.
  induction 1 as [|x rest Hx Hrest IH]; cbn [DB.delete]; [constructor|].
  destruct (DB.key_compare n (name x)); try assumption; now constructor.
Qed.

Lemma get_in (n : jsstring) (r : FileRecord) (store : list FileRecord) :
  DB.get n store = Some r -> In r store /\ name r = n.
Proof.
  induction store as [|x rest IH]; cbn [DB.get]; [discriminate|].
  destruct (DB.key_compare n (name x)) eqn:E.
  - intros H. injection H as <-. split; [now left|].
    symmetry. now apply key_compare_eq.
  - intros H. destruct (IH H). split; [now right|assumption].
  - intros H. destruct (IH H). split; [now right|assumption].
Qed.

(** A file without a name is encrypted and then refused by [saveFile]. *)
Lemma add_files_nameless (file : File) (pw : jsstring) (w : World) :
  file_name file = [] ->
  DB.get (file_name file) (db w) = None
  \/ confirm_answers w (confirm_pos w) = true ->
  sessionPassword w = val pw -> pw <> [] ->
  db (snd (add_files [file] w)) = db w.
Proof.
  intros Hname Hfree Hsession Hpw.
  assert (Hrun : forall w0 : World,
            sessionPassword w0 = val pw ->
            exists w1,
              db w1 = db w0
              /\ try_catch
                   (password <- gets sessionPassword ;;
                    rec <- createEncryptedFileRecord (file_name file)
                             (val (file_content file)) password ;;
                    DB.saveFile
                      {| name := name rec; createdAt := createdAt rec;
                         size := size rec; rec_ciphertext := rec_ciphertext rec;
                         rec_iv := rec_iv rec; rec_salt := rec_salt rec;
                         rec_iterations := rec_iterations rec;
                         rec_hash := rec_hash rec; mimeType := file_type file |} ;;;
                    showMessage (MsgSaved (file_name file)) info)
                   (fun err =>
                      showMessage (MsgFailedToAdd (file_name file) err) error_level)
                   w0
                 = (Ok tt, w1)).
  { intros w0 Hs0.
    destruct (encryptBuffer_run (file_content file) w0 Hpw)
      as (c64 & iv64 & s64 & h64 & _ & _ & _ & _ & Henc).
    eexists. split.
    2:{ unfold try_catch. unfold bind at 1. unfold gets at 1. cbv beta iota.
        rewrite Hs0. unfold bind at 1. unfold createEncryptedFileRecord.
        unfold bind at 1. rewrite Henc. cbv beta iota.
        unfold bind at 1. unfold gets at 1. cbv beta iota. unfold ret at 1.
        cbn [name createdAt size rec_ciphertext rec_iv rec_salt rec_iterations
             rec_hash ciphertext iv salt iterations hash].
        unfold DB.saveFile. cbn [name]. rewrite Hname.
        unfold bind, throw, showMessage, modify. reflexivity. }
    reflexivity. }
  cbn [add_files]. unfold bind at 1. unfold try_catch.
  unfold bind at 1. unfold DB.getFile, gets at 1. cbv beta iota.
  destruct (DB.get (file_name file) (db w)) as [old|] eqn:Hget.
  - destruct Hfree as [Hfree|Hyes]; [discriminate|].
    unfold bind at 1. unfold confirm at 1. cbv beta iota. rewrite Hyes.
    destruct (Hrun (set_confirm_pos (S (confirm_pos w)) w) Hsession)
      as (w1 & Hdb & Hbody).
    unfold try_catch in Hbody.
    match type of Hbody with
    | match ?x with _ => _ end = _ =>
        match goal with |- context [x] => destruct x as [[u|e] w2] end
    end.
    + injection Hbody as _ <-. cbn. exact Hdb.
    + unfold ret, bind. rewrite Hbody. cbn. exact Hdb.
  - unfold bind at 1. unfold ret at 1. cbv beta iota.
    destruct (Hrun w Hsession) as (w1 & Hdb & Hbody).
    unfold try_catch in Hbody.
    match type of Hbody with
    | match ?x with _ => _ end = _ =>
        match goal with |- context [x] => destruct x as [[u|e] w2] end
    end.
    + injection Hbody as _ <-. cbn. exact Hdb.
    + unfold ret, bind. rewrite Hbody. cbn. exact Hdb.
Qed.

(** One turn of the loop leaves the store alone or puts a record sealed
    under the session password. *)
Lemma add_file_step (file : File) (pw : jsstring) (w : World) :
  sessionPassword w = val pw -> pw <> [] ->
  db (snd (add_files [file] w)) = db w
  \/ exists r, sealed_under (str2ab pw) r
               /\ db (snd (add_files [file] w)) = DB.put r (db w).
Proof.
  intros Hs Hpw.
  assert (Hcase : file_name file = [] \/ file_name file <> []).
  { destruct (file_name file); [now left|right; discriminate]. }
  destruct (DB.get (file_name file) (db w)) as [old|] eqn:Hget.
  - destruct (confirm_answers w (confirm_pos w)) eqn:Hyes.
    + destruct Hcase as [Hname|Hne].
      * left. apply (@add_files_nameless file pw w Hname); auto.
      * destruct (add_files_overwrite file w Hget Hyes Hs Hpw Hne)
          as (c64 & iv64 & s64 & h64 & Hc & Hi & Hsalt & Hh & Hrun).
        right. rewrite Hrun. eexists. split; [|reflexivity].
        exists c64, iv64, s64, h64. eexists _, _, _.
        repeat split; eassumption.
    + left. cbn [add_files]. unfold bind at 1. unfold try_catch.
      unfold bind at 1. unfold DB.getFile, gets at 1. cbv beta iota. rewrite Hget.
      unfold bind at 1. unfold confirm at 1. cbv beta iota. rewrite Hyes.
      reflexivity.
  - destruct Hcase as [Hname|Hne].
    + left. apply (@add_files_nameless file pw w Hname); auto.
    + destruct (add_files_new file w Hget Hs Hpw Hne)
        as (c64 & iv64 & s64 & h64 & Hc & Hi & Hsalt & Hh & Hrun).
      right. rewrite Hrun. eexists. split; [|reflexivity].
      exists c64, iv64, s64, h64. eexists _, _, _.
      repeat split; eassumption.
Qed.

(** The loop of [handleFilesAdded] keeps a store sealed under the session
    password so. *)
Lemma add_files_sealed (fileList : list File) (pw : jsstring) (w : World) :
  sessionPassword w = val pw -> pw <> [] ->
  Forall (sealed_under (str2ab pw)) (db w) ->
  Forall (sealed_under (str2ab pw)) (db (snd (add_files fileList w))).
Proof.
  revert w. induction fileList as [|file rest IH]; intros w Hs Hpw Hall.
  - exact Hall.
  - rewrite add_files_cons. apply IH.
    + destruct (keeps_add_files [file] w) as [H _]. now rewrite H.
    + exact Hpw.
    + destruct (add_file_step file w Hs Hpw) as [E|(r & Hr & E)]; rewrite E.
      * exact Hall.
      * now apply Forall_put.
Qed.

Lemma one_password_same (w w' : World) :
  db w' = db w -> unlocked w' = unlocked w -> sessionPassword w' = sessionPassword w ->
  one_password w -> one_password w'.
Proof.
  intros Hdb Hu Hs (k & Hall & Hsess). exists k. rewrite Hdb, Hu, Hs. now split.
Qed.

(** Every handler but the unlock attempt, run to its end, keeps a store
    under one password so. *)
Lemma handle_keeps_one_password (e : event) (w : World) :
  (forall pwd, e <> UnlockClick pwd) ->
  one_password w -> one_password (snd (handle e w)).
Proof.
  intros Hnot Hone.
  destruct e as [files|n|checked|checked|pwd| |]; cbn [handle].
  - (* files dropped or picked *)
    destruct files as [|f files]; cbn [filesChosen]; [exact Hone|].
    destruct (unlocked w) eqn:Hu.
    2:{ assert (Hrun : handleFilesAdded (f :: files) w
                       = (Ok tt, shown MsgUnlockFirstAdd error_level w)).
        { unfold handleFilesAdded.
          unfold bind at 1. unfold gets at 1. cbv beta iota.
          unfold bind at 1. unfold gets at 1. cbv beta iota.
          now rewrite Hu. }
        rewrite Hrun. now apply (one_password_same (w := w)). }
    destruct Hone as (k & Hall & Hsess).
    destruct (Hsess Hu) as (pw & Hs & Hpw & Hk). subst k.
    assert (Hrun : handleFilesAdded (f :: files) w
                   = (add_files (f :: files) ;;; refreshFileList) w).
    { unfold handleFilesAdded.
      unfold bind at 1. unfold gets at 1. cbv beta iota.
      unfold bind at 1. unfold gets at 1. cbv beta iota.
      rewrite Hu, Hs. destruct pw; [congruence|reflexivity]. }
    rewrite Hrun. unfold bind, refreshFileList, ret.
    pose proof (add_files_sealed (f :: files) w Hs Hpw Hall) as Hall'.
    destruct (keeps_add_files (f :: files) w) as [Hs' Hu'].
    destruct (add_files (f :: files) w) as [[u|err] w1]; cbn [snd] in *;
      exists (str2ab pw); (split; [exact Hall'|]);
      intros _; exists pw; rewrite Hs'; auto.
  - apply (one_password_same (w := w)); try exact Hone.
    + symmetry. now apply (@inv_fileActionClick W (eq (db w))).
    + apply keeps_fileActionClick.
    + apply keeps_fileActionClick.
  - apply (one_password_same (w := w)); try exact Hone.
    + symmetry. now apply (@inv_downloadBtnClick W (eq (db w))).
    + apply keeps_downloadBtnClick.
    + apply keeps_downloadBtnClick.
  - destruct Hone as (k & Hall & Hsess). exists k.
    destruct (keeps_deleteBtnClick checked w) as [Hs' Hu']. rewrite Hs', Hu'.
    split; [|exact Hsess].
    apply (@inv_deleteBtnClick (Forall (sealed_under k))); [|exact Hall].
    intros n store. apply Forall_delete.
  - exfalso. now apply (Hnot pwd).
  - destruct (resetYesClick_outcome w) as (_ & Hdb & Hu & _).
    exists []. rewrite Hdb, Hu. split; [constructor|discriminate].
  - destruct Hone as (k & Hall & _). exists k. split; [exact Hall|]. discriminate.
Qed.

Lemma session_over_one_password (store : list FileRecord) :
  Forall (sealed_under (str2ab Examples.correct_horse)) store ->
  one_password (Scenes.session_over store).
Proof.
  intros Hall. exists (str2ab Examples.correct_horse). split; [exact Hall|].
  intros _. exists Examples.correct_horse. repeat split. discriminate.
Qed.

End WithCrypto.

(** X24. Handlers keep a store under one password. When all records of
    the store are sealed under the UTF-8 encoding of one password, which is
    the session password whenever the session is unlocked, this is so again
    after every event other than an unlock attempt, handled to its end with
    no other handler in between. *)
Theorem handlers_keep_one_password (W : WebCrypto) (e : event) (w : World) :
  (forall pwd, e <> UnlockClick pwd) ->
  one_password w -> one_password (snd (handle e w)).
Proof.
  intros Hnot Hone. now apply handle_keeps_one_password.
Qed.

(** notes.txt dropped on a session unlocked over the empty store. *)
Lemma handlers_keep_one_password_witness :
  one_password (W := Symbolic.crypto)
    (snd (handle (W := Symbolic.crypto) (FilesChosen [Examples.notes_file])
            (Scenes.session_over []))).
Proof.
  apply (@handlers_keep_one_password Symbolic.crypto
           (FilesChosen [Examples.notes_file]) (Scenes.session_over [])).
  - intros pwd H. discriminate H.
  - apply (session_over_one_password (W := Symbolic.crypto)). constructor.
Defined.

(** X25. Over a store under one password, every stored file downloads in
    an unlocked session: the download button of its row hands the browser a
    file of the record's name and MIME type whose content is a plaintext the
    ciphertext of the record was sealed from under the session password, and
    no question is asked; the cipher is assumed to open what it sealed. *)
Theorem stored_file_downloads_when_unlocked (W : WebCrypto) (n : jsstring)
    (r : FileRecord) (w : World) :
  aead_correct W -> one_password w -> unlocked w = true ->
  DB.get n (db w) = Some r ->
  exists pw c64 saltb ivb p,
    sessionPassword w = val pw
    /\ rec_ciphertext r = val c64
    /\ base642ab c64
       = Ok (aes_gcm_seal (pbkdf2 (str2ab pw) saltb PBKDF2_ITERATIONS) ivb p)
    /\ downloads (snd (fileActionClick n w)) = downloads w ++ [(n, p, mimeType r)]
    /\ confirm_pos (snd (fileActionClick n w)) = confirm_pos w.
Proof.
  intros Hcorrect (k & Hall & Hsess) Hu Hget.
  destruct (Hsess Hu) as (pw & Hs & Hpw & Hk). subst k.
  destruct (get_in _ _ Hget) as [Hin Hname].
  rewrite Forall_forall in Hall.
  destruct (Hall r Hin) as (c64 & iv64 & s64 & h64 & saltb & ivb & p
                            & Ec & Ei & Es & Eit & Eh & Hc & Hi & Hsalt & Hh).
  destruct (@stored_record_decrypts W p pw pw saltb ivb r c64 iv64 s64 h64 w
              Hcorrect Hpw eq_refl Ec Ei Es Eit Eh Hc Hi Hsalt Hh)
    as (res & Hdec & Hbuf & Hok).
  exists pw, c64, saltb, ivb, p.
  split; [exact Hs|]. split; [exact Ec|]. split; [exact Hc|].
  rewrite <- Hs in Hdec.
  assert (Hrun : fileActionClick n w
                 = (Ok tt,
                    shown (MsgDownloaded (name r)) info
                      (set_downloads
                         (downloads w ++ [(name r, arrayBuffer res, mimeType r)])
                         (logged [CallImportKey (str2ab pw);
                                  CallDeriveKey (str2ab pw) saltb PBKDF2_ITERATIONS;
                                  CallDecrypt ivb
                                    (aes_gcm_seal
                                       (pbkdf2 (str2ab pw) saltb PBKDF2_ITERATIONS)
                                       ivb p);
                                  CallDigest p] w)))).
  { unfold fileActionClick. unfold bind at 1. unfold gets at 1. cbv beta iota.
    rewrite Hu. cbn [negb]. unfold try_catch.
    rewrite (downloadFile_run n w Hget Hdec), Hok. reflexivity. }
  rewrite Hrun. cbn. rewrite Hbuf, Hname. split; reflexivity.
Qed.

(** notes.txt, stored by the page under "correct horse". *)
Lemma stored_file_downloads_when_unlocked_witness :
  let stored :=
    snd (handle (W := Symbolic.crypto) (FilesChosen [Examples.notes_file])
           (Scenes.session_over [])) in
  DB.get (name Examples.record0) (db stored) = Some Examples.record0
  /\ exists pw c64 saltb ivb p,
       sessionPassword stored = val pw
       /\ rec_ciphertext Examples.record0 = val c64
       /\ base642ab c64
          = Ok (aes_gcm_seal (WebCrypto := Symbolic.crypto)
                  (pbkdf2 (str2ab pw) saltb PBKDF2_ITERATIONS) ivb p)
       /\ downloads
            (snd (fileActionClick (W := Symbolic.crypto) (name Examples.record0)
                    stored))
          = downloads stored
            ++ [(name Examples.record0, p, mimeType Examples.record0)]
       /\ confirm_pos
            (snd (fileActionClick (W := Symbolic.crypto) (name Examples.record0)
                    stored))
          = confirm_pos stored.
Proof.
  intro stored.
  split; [vm_compute; reflexivity|].
  apply (@stored_file_downloads_when_unlocked Symbolic.crypto (name Examples.record0)
           Examples.record0 stored).
  - exact SymbolicFacts.symbolic_correct.
  - apply (handle_keeps_one_password (W := Symbolic.crypto)).
    + intros pwd H. discriminate H.
    + apply (session_over_one_password (W := Symbolic.crypto)). constructor.
  - vm_compute. reflexivity.
  - vm_compute. reflexivity.
Defined.

End OnePasswordFacts.

